(** * Content-processing core of the LLM conversation exporter

    A shallow embedding of the [ContentProcessor] class (sanitizer, text
    flattener, Markdown renderer, document assembler, URL validator) and the
    properties of it that the specification states.

    Conventions of the embedding.
    - A JavaScript string is its sequence of UTF-16 code units ([list N]), so
      that [length], [trim] and the regular expressions see what the engine sees.
    - A DOM node is a tree: text, comment, or element with its stored local
      name, its attribute list in order, and its child nodes.
    - The facilities the class takes from the platform (the HTML parser behind
      [DOMParser], the serializer behind [innerHTML], the [URL] constructor,
      whether a [document] exists) are the fields of an environment [Env];
      every general theorem holds for every environment.
    - In-place DOM mutation is rendered as a function from the old child list
      to the new one.
    - [toLowerCase] converts the ASCII letters and the two units outside
      ASCII whose lower case holds an ASCII letter (U+212A to [k], U+0130 to
      [i] and U+0307), so that every comparison of a lower-cased string with
      one of the ASCII literals of the program comes out as in the engine;
      no theorem depends on how other letters convert. *)

From Stdlib Require Import List NArith ZArith Bool Arith Lia String Ascii.
From Stdlib Require Import DecimalString.
Import ListNotations.

(* ===================================================================== *)
(** * JavaScript strings *)
(* ===================================================================== *)

Module JS.

Definition jsstring := list N.

(** An ASCII literal as code units. *)
Definition str (s : string) : jsstring :=
  map N_of_ascii (list_ascii_of_string s).

Definition nl : jsstring := [10%N].
Definition tab : jsstring := [9%N].
(** U+2022 BULLET, one code unit. *)
Definition bullet : jsstring := [8226%N].

Fixpoint seqb (a b : jsstring) : bool :=
  match a, b with
  | [], [] => true
  | x :: a', y :: b' => N.eqb x y && seqb a' b'
  | _, _ => false
  end.

(** [s.startsWith(p)] *)
Fixpoint startsWith (s p : jsstring) {struct p} : bool :=
  match p with
  | [] => true
  | y :: p' =>
      match s with
      | [] => false
      | x :: s' => N.eqb x y && startsWith s' p'
      end
  end.

(** [s.endsWith(p)] *)
Definition endsWith (s p : jsstring) : bool :=
  startsWith (rev s) (rev p).

(** [s.includes(sub)] *)
Fixpoint includes (s sub : jsstring) : bool :=
  startsWith s sub ||
  match s with
  | [] => false
  | _ :: s' => includes s' sub
  end.

(** White space and line terminators: what [String.prototype.trim] removes and
    what [\s] matches. *)
Definition isWhiteSpace (c : N) : bool :=
  ((9 <=? c) && (c <=? 13) || (c =? 32) || (c =? 160) || (c =? 5760)
   || ((8192 <=? c) && (c <=? 8202)) || (c =? 8232) || (c =? 8233)
   || (c =? 8239) || (c =? 8287) || (c =? 12288) || (c =? 65279))%N.

Fixpoint trimStart (s : jsstring) : jsstring :=
  match s with
  | [] => []
  | c :: s' => if isWhiteSpace c then trimStart s' else s
  end.

Definition trimEnd (s : jsstring) : jsstring := rev (trimStart (rev s)).

(** [s.trim()] *)
Definition trim (s : jsstring) : jsstring := trimEnd (trimStart s).

(** Case mapping on the ASCII letters; other code units are left as they are.
    This is how a pattern with the [i] flag (and without [u]) compares units,
    and how the DOM upper-cases the name of an HTML element. *)
Definition lowerUnit (c : N) : N :=
  if ((65 <=? c) && (c <=? 90))%N then (c + 32)%N else c.

Definition upperUnit (c : N) : N :=
  if ((97 <=? c) && (c <=? 122))%N then (c - 32)%N else c.

(** The lower case of one unit, as [String.prototype.toLowerCase] gives it.
    Two units outside ASCII have a lower case that holds an ASCII letter: the
    Kelvin sign (U+212A) becomes [k], and the capital I with a dot above
    (U+0130) becomes [i] followed by the combining dot (U+0307).  Every other
    unit outside ASCII has a lower case outside ASCII; it is kept here as it
    is, which no comparison with an ASCII literal can tell from the engine's
    result. *)
Definition lowerUnits (c : N) : jsstring :=
  if (c =? 8490)%N then [107%N]
  else if (c =? 304)%N then [105%N; 775%N]
  else [lowerUnit c].

(** [s.toLowerCase()] *)
Definition toLowerCase (s : jsstring) : jsstring := flat_map lowerUnits s.

(** [s.toUpperCase()] on ASCII letters. *)
Definition toUpperCase (s : jsstring) : jsstring := map upperUnit s.

(** [s.charAt(0)] and [s.slice(1)] *)
Definition charAt0 (s : jsstring) : jsstring :=
  match s with [] => [] | c :: _ => [c] end.
Definition slice1 (s : jsstring) : jsstring := tl s.

(** [l.join(sep)] *)
Fixpoint join (sep : jsstring) (l : list jsstring) : jsstring :=
  match l with
  | [] => []
  | [x] => x
  | x :: rest => x ++ sep ++ join sep rest
  end.

(** [s.split(c)] for a one-unit separator: always at least one piece. *)
Fixpoint splitUnit (c : N) (s : jsstring) : list jsstring :=
  match s with
  | [] => [[]]
  | x :: s' =>
      if N.eqb x c then [] :: splitUnit c s'
      else match splitUnit c s' with
           | [] => [[x]]
           | piece :: pieces => (x :: piece) :: pieces
           end
  end.

(** Template-literal rendering of a non-negative integer. *)
Definition ofNat (n : nat) : jsstring :=
  str (NilEmpty.string_of_uint (Nat.to_uint n)).

(** [s.replace(/\|/g, '\\|')] *)
Definition escapePipes (s : jsstring) : jsstring :=
  flat_map (fun c => if N.eqb c 124 then [92%N; 124%N] else [c]) s.

(** [\w] *)
Definition isWordChar (c : N) : bool :=
  ((48 <=? c) && (c <=? 57) || (65 <=? c) && (c <=? 90)
   || (97 <=? c) && (c <=? 122) || (c =? 95))%N.

(** Prefix test ignoring ASCII case, as a literal under the [i] flag matches;
    [p] is given in lower case. *)
Fixpoint startsWithCI (s p : jsstring) {struct p} : bool :=
  match p with
  | [] => true
  | y :: p' =>
      match s with
      | [] => false
      | x :: s' => N.eqb (lowerUnit x) y && startsWithCI s' p'
      end
  end.

(** [s.replace(/pat/g, rep)] for a literal pattern, left to right, without
    overlap.  [skip] counts the units of a match still to be dropped. *)
Fixpoint replaceLiteral (pat rep : jsstring) (skip : nat) (s : jsstring) : jsstring :=
  match s with
  | [] => []
  | c :: s' =>
      match skip with
      | S k => replaceLiteral pat rep k s'
      | O =>
          if negb (seqb pat []) && startsWith s pat
          then rep ++ replaceLiteral pat rep (List.length pat - 1) s'
          else c :: replaceLiteral pat rep 0 s'
      end
  end.

(** [s.replace(/\s+/g, ' ')]: [inRun] tells that the previous unit was white
    space already replaced. *)
Fixpoint collapseWhiteSpace (inRun : bool) (s : jsstring) : jsstring :=
  match s with
  | [] => []
  | c :: s' =>
      if isWhiteSpace c
      then if inRun then collapseWhiteSpace true s'
           else 32%N :: collapseWhiteSpace true s'
      else c :: collapseWhiteSpace false s'
  end.

(** [table[key]] on the own properties of an object literal. *)
Fixpoint lookup {V : Type} (key : jsstring) (table : list (jsstring * V)) : option V :=
  match table with
  | [] => None
  | (k, v) :: rest => if seqb k key then Some v else lookup key rest
  end.

End JS.

Import JS.

(** JavaScript values, as far as the class tells them apart: it tests
    [typeof v === 'string'], truthiness, and [undefined] for defaults. *)
Inductive value :=
| VUndefined
| VNull
| VBool (b : bool)
| VNumber (n : Z)
| VString (s : jsstring)
| VObject.

Definition truthy (v : value) : bool :=
  match v with
  | VUndefined | VNull => false
  | VBool b => b
  | VNumber n => negb (Z.eqb n 0)
  | VString s => negb (seqb s [])
  | VObject => true
  end.

(* ===================================================================== *)
(** * The DOM *)
(* ===================================================================== *)

Abbreviation attribute := (jsstring * jsstring)%type.

Unset Elimination Schemes.
Inductive node :=
| Text (data : jsstring)
| Comment (data : jsstring)
| Element (localName : jsstring) (attributes : list attribute) (childNodes : list node).
Set Elimination Schemes.

(** [node.textContent]: the text descendants in document order. *)
Fixpoint textContent (n : node) : jsstring :=
  match n with
  | Text d => d
  | Comment _ => []
  | Element _ _ kids => flat_map textContent kids
  end.

(** [element.textContent] for a list of children. *)
Definition textOf (kids : list node) : jsstring := flat_map textContent kids.

Definition isElement (n : node) : bool :=
  match n with Element _ _ _ => true | _ => false end.

(** [node.tagName.toLowerCase()]: the DOM upper-cases the ASCII letters of the
    stored name and [toLowerCase] maps them back, together with the two units
    outside ASCII that it turns into ASCII letters.  The stored local name of
    an element the HTML parser made is what selectors compare with. *)
Definition tagOf (n : node) : jsstring :=
  match n with Element tag _ _ => toLowerCase tag | _ => [] end.

Definition attributesOf (n : node) : list attribute :=
  match n with Element _ attrs _ => attrs | _ => [] end.

Definition childNodesOf (n : node) : list node :=
  match n with Element _ _ kids => kids | _ => [] end.

(** Every element below a child list, in document order: the candidates of
    [querySelectorAll]. *)
Fixpoint elementsIn (n : node) : list node :=
  match n with
  | Element _ _ kids => n :: flat_map elementsIn kids
  | _ => []
  end.

Definition descendants (kids : list node) : list node := flat_map elementsIn kids.

Definition hasTag (tags : list jsstring) (n : node) : bool :=
  match n with
  | Element tag _ _ => existsb (seqb tag) tags
  | _ => false
  end.

(** [root.querySelectorAll('t1, t2, ...')] for a list of type selectors. *)
Definition querySelectorAll (tags : list jsstring) (kids : list node) : list node :=
  filter (hasTag tags) (descendants kids).

(** [element.getAttribute(name)] *)
Fixpoint getAttribute (name : jsstring) (attrs : list attribute) : option jsstring :=
  match attrs with
  | [] => None
  | (n, v) :: rest => if seqb n name then Some v else getAttribute name rest
  end.

(** [element.removeAttribute(name)]: the first attribute of that name goes. *)
Fixpoint removeAttribute (name : jsstring) (attrs : list attribute) : list attribute :=
  match attrs with
  | [] => []
  | (n, v) :: rest => if seqb n name then rest else (n, v) :: removeAttribute name rest
  end.

(* ===================================================================== *)
(** * The platform *)
(* ===================================================================== *)

(** What [new URL(s)] exposes to the class. *)
Record URLRecord := { protocol : jsstring; hostname : jsstring }.

(** The facilities the class calls but does not define.
    - [documentDefined]: [typeof document !== 'undefined'].
    - [parseFromString]: [new DOMParser().parseFromString(s, 'text/html')], the
      child nodes of the resulting document; [None] when it throws.
    - [innerHTML]: the HTML serialization of a child list.
    - [newURL]: [new URL(s)]; [None] when it throws.
    - [prototypeMember]: the string a template literal shows for a property
      that an object literal inherits from [Object.prototype], if the name is
      one ([constructor], [toString], ...). *)
Record Env := {
  documentDefined : bool;
  parseFromString : jsstring -> option (list node);
  innerHTML : list node -> jsstring;
  newURL : jsstring -> option URLRecord;
  prototypeMember : jsstring -> option jsstring
}.

(** [document.documentElement]: the first element child of the document. *)
Definition documentElement (doc : list node) : option node :=
  find isElement doc.

(** [document.body]: the first [body] or [frameset] child of the [html]
    element, or [null]. *)
Definition body (doc : list node) : option node :=
  match documentElement doc with
  | Some (Element tag _ kids) =>
      if seqb tag (str "html")
      then find (hasTag [str "body"; str "frameset"]) kids
      else None
  | _ => None
  end.

(* ===================================================================== *)
(** * Fallback tag stripper ([stripHtmlTags]) *)
(* ===================================================================== *)

(** The tail of the script and style patterns, from just after the word
    boundary: runs of units other than [<], each [<] passed over unless the
    closing tag starts there, then the closing tag.  The match can only end at
    a [<], where the look-ahead decides; [None] when no closing tag follows.
    The result counts the units up to and including the closing tag. *)
Fixpoint scanToClose (close : jsstring) (s : jsstring) : option nat :=
  match s with
  | [] => None
  | c :: s' =>
      if N.eqb c 60 && startsWithCI s close
      then Some (List.length close)
      else option_map S (scanToClose close s')
  end.

(** Length of the match of the pattern for [name] (case-insensitive: the
    opening [<name] at a word boundary, then [scanToClose]) at the head of [s]. *)
Definition matchBlock (name : jsstring) (s : jsstring) : option nat :=
  let open := 60%N :: name in
  let close := [60%N; 47%N] ++ name ++ [62%N] in
  if startsWithCI s open
  then
    let rest := skipn (List.length open) s in
    match rest with
    | c :: _ => if isWordChar c then None
                else option_map (Nat.add (List.length open)) (scanToClose close rest)
    | [] => None
    end
  else None.

(** [s.replace(pattern, '')] for the global script or style pattern. *)
Fixpoint removeBlocks (name : jsstring) (skip : nat) (s : jsstring) : jsstring :=
  match s with
  | [] => []
  | c :: s' =>
      match skip with
      | S k => removeBlocks name k s'
      | O =>
          match matchBlock name s with
          | Some len => removeBlocks name (len - 1) s'
          | None => c :: removeBlocks name 0 s'
          end
      end
  end.

(** Number of units before the first [>] of [s], if there is one. *)
Fixpoint indexOfGt (s : jsstring) : option nat :=
  match s with
  | [] => None
  | c :: s' => if N.eqb c 62 then Some 0 else option_map S (indexOfGt s')
  end.

(** [s.replace(re, '')] where the global [re] is a [<], any units other than
    [>], and a [>]. *)
Fixpoint removeTags (skip : nat) (s : jsstring) : jsstring :=
  match s with
  | [] => []
  | c :: s' =>
      match skip with
      | S k => removeTags k s'
      | O =>
          if N.eqb c 60
          then match indexOfGt s' with
               | Some i => removeTags (S i) s'
               | None => c :: removeTags 0 s'
               end
          else c :: removeTags 0 s'
      end
  end.

Definition stripHtmlTags (html : jsstring) : jsstring :=
  if seqb html [] then []
  else
    let s := removeBlocks (str "script") 0 html in
    let s := removeBlocks (str "style") 0 s in
    let s := removeTags 0 s in
    let s := replaceLiteral (str "&nbsp;") (str " ") 0 s in
    let s := replaceLiteral (str "&amp;") (str "&") 0 s in
    let s := replaceLiteral (str "&lt;") (str "<") 0 s in
    let s := replaceLiteral (str "&gt;") (str ">") 0 s in
    let s := replaceLiteral (str "&quot;") [34%N] 0 s in
    let s := replaceLiteral (str "&#39;") (str "'") 0 s in
    let s := collapseWhiteSpace false s in
    trim s.

(* ===================================================================== *)
(** * Sanitizer ([sanitizeDocument], [safeSetHTML]) *)
(* ===================================================================== *)

(** [doc.querySelectorAll(tag).forEach(e => e.remove())], below one node. *)
Fixpoint removeBelow (tag : jsstring) (n : node) : node :=
  match n with
  | Element t a kids =>
      Element t a
        (flat_map (fun k => if hasTag [tag] k then [] else [removeBelow tag k]) kids)
  | _ => n
  end.

Definition removeAll (tag : jsstring) (doc : list node) : list node :=
  flat_map (fun k => if hasTag [tag] k then [] else [removeBelow tag k]) doc.

(** The loop [for (let i = attributes.length - 1; i >= 0; i--)]: [count] is
    [i + 1].  [attributes[i]] is always defined here (see
    [removeEventHandlers_checked]), so the last branch is never taken. *)
Fixpoint removeEventHandlers (count : nat) (attrs : list attribute) : list attribute :=
  match count with
  | O => attrs
  | S i =>
      match nth_error attrs i with
      | Some (name, _) =>
          if startsWith (toLowerCase name) (str "on")
          then removeEventHandlers i (removeAttribute name attrs)
          else removeEventHandlers i attrs
      | None => removeEventHandlers i attrs
      end
  end.

(** The same loop with the [TypeError] of reading [attr.name] on an undefined
    [attributes[i]] made explicit as [None]. *)
Fixpoint removeEventHandlersChecked (count : nat) (attrs : list attribute)
  : option (list attribute) :=
  match count with
  | O => Some attrs
  | S i =>
      match nth_error attrs i with
      | Some (name, _) =>
          if startsWith (toLowerCase name) (str "on")
          then removeEventHandlersChecked i (removeAttribute name attrs)
          else removeEventHandlersChecked i attrs
      | None => None
      end
  end.

Definition dangerousAttrs : list jsstring :=
  [str "javascript:"; str "data:"; str "vbscript:"; str "file:"].

Definition urlAttributeNames : list jsstring :=
  [str "href"; str "src"; str "action"; str "formaction"; str "data"].

(** [dangerousAttrs.some(d => attrValue.toLowerCase().trim().startsWith(d))] *)
Definition isDangerous (attrValue : jsstring) : bool :=
  let lowerValue := trim (toLowerCase attrValue) in
  existsb (startsWith lowerValue) dangerousAttrs.

(** One round of the [forEach(attrName => ...)] over the URL attributes. *)
Definition removeIfDangerous (attrs : list attribute) (attrName : jsstring)
  : list attribute :=
  match getAttribute attrName attrs with
  | Some attrValue =>
      if negb (seqb attrValue []) && isDangerous attrValue
      then removeAttribute attrName attrs
      else attrs
  | None => attrs
  end.

(** The body of [allElements.forEach(element => ...)]. *)
Definition sanitizeAttributes (attrs : list attribute) : list attribute :=
  fold_left removeIfDangerous urlAttributeNames
    (removeEventHandlers (List.length attrs) attrs).

Fixpoint sanitizeElement (n : node) : node :=
  match n with
  | Element t a kids => Element t (sanitizeAttributes a) (map sanitizeElement kids)
  | _ => n
  end.

Definition sanitizeDocument (doc : list node) : list node :=
  map sanitizeElement (removeAll (str "style") (removeAll (str "script") doc)).

(** [element.textContent = s]: a single text node, or nothing for [''] . *)
Definition setTextContent (s : jsstring) : list node :=
  if seqb s [] then [] else [Text s].

(** [safeSetHTML(element, htmlContent)]: the child nodes of [element]
    afterwards, [old] being its child nodes before.  A throwing parser and a
    missing [doc.body] both end in the [catch] branch. *)
Definition safeSetHTML (env : Env) (old : list node) (htmlContent : jsstring)
  : list node :=
  if seqb htmlContent [] then old
  else
    match parseFromString env htmlContent with
    | Some doc =>
        match body (sanitizeDocument doc) with
        | Some b => childNodesOf b
        | None => setTextContent (stripHtmlTags htmlContent)
        end
    | None => setTextContent (stripHtmlTags htmlContent)
    end.

(* ===================================================================== *)
(** * Text flattener ([htmlToText] and its passes) *)
(* ===================================================================== *)

(** [root.querySelectorAll(sel).forEach(e => e.replaceWith(createTextNode(f e)))]
    where [f] reads only the subtree of [e].  The node list is static and in
    document order, so an element is replaced by the text computed from its
    subtree as it was before the pass; an element below a replaced one leaves
    the tree with it.  [f e = None] stands for an element the selector does not
    match or the callback leaves in place. *)
Fixpoint replaceElements (f : node -> option jsstring) (n : node) : node :=
  match n with
  | Element t a kids =>
      match f n with
      | Some txt => Text txt
      | None => Element t a (map (replaceElements f) kids)
      end
  | _ => n
  end.

(** [tableToText(tableElement)] *)
Definition tableToText (tableElement : node) : jsstring :=
  let rows := querySelectorAll [str "tr"] (childNodesOf tableElement) in
  let text :=
    fold_left
      (fun text row =>
         let cells := querySelectorAll [str "td"; str "th"] (childNodesOf row) in
         let cellContents := map (fun cell => trim (textContent cell)) cells in
         text ++ join tab cellContents ++ nl)
      rows nl in
  text ++ nl.

Definition processTablesForText (kids : list node) : list node :=
  map (replaceElements
         (fun e => if hasTag [str "table"] e then Some (tableToText e) else None))
      kids.

Definition processCodeBlocksForText (kids : list node) : list node :=
  map (replaceElements
         (fun e => if hasTag [str "pre"; str "code"] e
                   then Some (nl ++ textContent e ++ nl) else None))
      kids.

(** The [items.forEach((item, index) => ...)] of the list pass.  [read item] is
    the evaluation of [item.textContent] inside the [try]: [None] when it
    throws, in which case [text] is left as it is and the loop goes on. *)
Fixpoint listItems (read : node -> option jsstring) (isOrdered : bool)
         (index : nat) (items : list node) (text : jsstring) : jsstring :=
  match items with
  | [] => text
  | item :: rest =>
      let text :=
        match read item with
        | Some content =>
            let prefix := if isOrdered then ofNat (index + 1) ++ str ". "
                          else bullet ++ str " " in
            text ++ prefix ++ trim content ++ nl
        | None => text
        end in
      listItems read isOrdered (S index) rest text
  end.

(** The text node that replaces one [ul] or [ol]. *)
Definition listToText (read : node -> option jsstring) (list : node) : jsstring :=
  let items := querySelectorAll [str "li"] (childNodesOf list) in
  let isOrdered := seqb (tagOf list) (str "ol") in
  listItems read isOrdered 0 items nl ++ nl.

Definition processListsForTextWith (read : node -> option jsstring)
           (kids : list node) : list node :=
  map (replaceElements
         (fun e => if hasTag [str "ul"; str "ol"] e
                   then Some (listToText read e) else None))
      kids.

(** In the DOM the [textContent] getter does not throw. *)
Definition processListsForText (kids : list node) : list node :=
  processListsForTextWith (fun item => Some (textContent item)) kids.

Definition blockTags : list jsstring :=
  map str ["div"; "p"; "h1"; "h2"; "h3"; "h4"; "h5"; "h6"; "blockquote";
           "section"; "article"]%string.

(** [shouldSeparateElements(current, next, currentText, nextText)] *)
Definition shouldSeparateElements (current next : node)
           (currentText nextText : jsstring) : bool :=
  if existsb (seqb (tagOf current)) blockTags || existsb (seqb (tagOf next)) blockTags
  then true
  else if seqb (tagOf current) (str "span") && seqb (tagOf next) (str "span")
          && (10 <? List.length currentText) && (10 <? List.length nextText)
  then true
  else if seqb (tagOf current) (str "button") || seqb (tagOf next) (str "button")
  then true
  else false.

(** The decision taken for one pair of adjacent element children. *)
Definition needsSpacer (current next : node) : bool :=
  let currentText := trim (textContent current) in
  let nextText := trim (textContent next) in
  if seqb currentText [] || seqb nextText []
     || (List.length currentText <? 3) || (List.length nextText <? 3)
  then false
  else shouldSeparateElements current next currentText nextText.

(** [processDirectChildren(container)]: the child nodes afterwards.  [prev] is
    the last element child passed; a line-break text node goes immediately
    before [next] for every separated pair.  Each child is emitted through
    [after], the later treatment of its own subtree, which does not change the
    decisions: they are taken on the children as they are now. *)
Fixpoint insertSpacers (after : node -> node) (prev : option node)
         (kids : list node) : list node :=
  match kids with
  | [] => []
  | k :: rest =>
      if isElement k
      then
        let spacer :=
          match prev with
          | Some current => if needsSpacer current k then [Text nl] else []
          | None => []
          end in
        spacer ++ after k :: insertSpacers after (Some k) rest
      else after k :: insertSpacers after prev rest
  end.

Definition processDirectChildren (kids : list node) : list node :=
  insertSpacers (fun k => k) None kids.

Definition containerTags : list jsstring :=
  map str ["div"; "span"; "section"; "article"; "header"; "footer"; "nav";
           "aside"; "main"]%string.

(** The containers below the root, in document order: a container is treated
    before the containers inside it. *)
Fixpoint spaceContainers (n : node) : node :=
  match n with
  | Element t a kids =>
      if hasTag containerTags n
      then Element t a (insertSpacers spaceContainers None kids)
      else Element t a (map spaceContainers kids)
  | _ => n
  end.

(** [addSpacingBetweenSiblings(element)]: the containers first, the root's own
    children last, on the subtrees as the containers left them. *)
Definition addSpacingBetweenSiblings (kids : list node) : list node :=
  processDirectChildren (map spaceContainers kids).

Definition flattenedBlockTags : list jsstring :=
  map str ["div"; "p"; "h1"; "h2"; "h3"; "h4"; "h5"; "h6"; "blockquote";
           "section"; "article"; "header"; "footer"; "nav"; "aside"; "main"]%string.

(** [processBlockElementsForText(element)] *)
Definition processBlockElementsForText (kids : list node) : list node :=
  let kids := addSpacingBetweenSiblings kids in
  let kids :=
    map (replaceElements
           (fun e => if hasTag [str "br"] e then Some nl else None)) kids in
  map (replaceElements
         (fun e =>
            if hasTag flattenedBlockTags e
            then let text := textContent e in
                 if negb (seqb text []) && negb (seqb (trim text) [])
                 then Some (nl ++ trim text ++ nl)
                 else None
            else None))
      kids.

(** [htmlToText(htmlContent)].  None of the four passes throws, so each [try]
    runs to its end; when [textContent] is empty the detached element has no
    [innerText] either, and the result is the empty string. *)
Definition htmlToText (env : Env) (htmlContent : jsstring) : jsstring :=
  if seqb htmlContent [] then []
  else if negb (documentDefined env) then stripHtmlTags htmlContent
  else
    let tempDiv := safeSetHTML env [] htmlContent in
    let tempDiv := processTablesForText tempDiv in
    let tempDiv := processCodeBlocksForText tempDiv in
    let tempDiv := processListsForText tempDiv in
    let tempDiv := processBlockElementsForText tempDiv in
    textOf tempDiv.

(* ===================================================================== *)
(** * Markdown renderer *)
(* ===================================================================== *)

(** A truthy attribute value: present and not [''] . *)
Definition truthyAttribute (name : jsstring) (element : node) : option jsstring :=
  match getAttribute name (attributesOf element) with
  | Some v => if seqb v [] then None else Some v
  | None => None
  end.

Definition heading (level : nat) (text : jsstring) : jsstring :=
  repeat 35%N level ++ str " " ++ text ++ nl ++ nl.

Definition strongText (text : jsstring) : jsstring := str "**" ++ text ++ str "**".
Definition emText (text : jsstring) : jsstring := str "*" ++ text ++ str "*".

(** The table of per-tag converters built by the constructor.  A converter
    gets the rendered text of the children, the element, the element's parent
    (for [element.parentElement]) and the element's index among its parent's
    element children. *)
Definition converter := jsstring -> node -> node -> nat -> jsstring.

Definition markdownConverters : list (jsstring * converter) :=
  [ (str "h1", fun text _ _ _ => heading 1 text);
    (str "h2", fun text _ _ _ => heading 2 text);
    (str "h3", fun text _ _ _ => heading 3 text);
    (str "h4", fun text _ _ _ => heading 4 text);
    (str "h5", fun text _ _ _ => heading 5 text);
    (str "h6", fun text _ _ _ => heading 6 text);
    (str "p", fun text _ _ _ => text ++ nl ++ nl);
    (str "br", fun _ _ _ _ => nl);
    (str "strong", fun text _ _ _ => strongText text);
    (str "b", fun text _ _ _ => strongText text);
    (str "em", fun text _ _ _ => emText text);
    (str "i", fun text _ _ _ => emText text);
    (str "code", fun text _ _ _ => str "`" ++ text ++ str "`");
    (str "a", fun text element _ _ =>
       match truthyAttribute (str "href") element with
       | Some href => str "[" ++ text ++ str "](" ++ href ++ str ")"
       | None => text
       end);
    (str "img", fun text element _ _ =>
       let alt := match truthyAttribute (str "alt") element with
                  | Some a => a
                  | None => text
                  end in
       match truthyAttribute (str "src") element with
       | Some src => str "![" ++ alt ++ str "](" ++ src ++ str ")"
       | None => str "[Image: " ++ alt ++ str "]"
       end);
    (str "blockquote", fun text _ _ _ =>
       join nl (map (fun line => str "> " ++ line) (splitUnit 10 text)) ++ nl ++ nl);
    (str "ul", fun text _ _ _ => text ++ nl);
    (str "ol", fun text _ _ _ => text ++ nl);
    (str "li", fun text _ parent index =>
       let prefix := if seqb (tagOf parent) (str "ol")
                     then ofNat (index + 1) ++ str ". "
                     else str "- " in
       prefix ++ text ++ nl) ].

(** [this.markdownConverters[tagName]].  The only lower-case tag name that the
    object literal inherits a member for is [constructor], and calling that
    member hands the text back, as the pass-through branch does. *)
Definition lookupConverter (tagName : jsstring) : option converter :=
  lookup tagName markdownConverters.

(** The first match of the unanchored pattern for a [language-] or [lang-]
    class: the word that follows the prefix. *)
Fixpoint takeWord (s : jsstring) : jsstring :=
  match s with
  | [] => []
  | c :: s' => if isWordChar c then c :: takeWord s' else []
  end.

Fixpoint matchLanguage (s : jsstring) : option jsstring :=
  let tryPrefix (p : jsstring) :=
    if startsWith s p
    then match takeWord (skipn (List.length p) s) with
         | [] => None
         | w => Some w
         end
    else None in
  match tryPrefix (str "language-") with
  | Some w => Some w
  | None =>
      match tryPrefix (str "lang-") with
      | Some w => Some w
      | None => match s with
                | [] => None
                | _ :: s' => matchLanguage s'
                end
      end
  end.

(** [detectCodeLanguage(element)] *)
Definition detectCodeLanguage (element : node) : jsstring :=
  let classNames := match truthyAttribute (str "class") element with
                    | Some c => c
                    | None => []
                    end in
  match matchLanguage classNames with
  | Some lang => lang
  | None =>
      match truthyAttribute (str "data-language") element with
      | Some dataLang => dataLang
      | None => []
      end
  end.

(** [preToMarkdown(preElement)] *)
Definition preToMarkdown (preElement : node) : jsstring :=
  let content :=
    match querySelectorAll [str "code"] (childNodesOf preElement) with
    | codeElement :: _ => textContent codeElement
    | [] => textContent preElement
    end in
  let language := detectCodeLanguage preElement in
  nl ++ str "```" ++ language ++ nl ++ content ++ nl ++ str "```" ++ nl ++ nl.

(** One round of [rows.forEach((row, rowIndex) => ...)] in [tableToMarkdown]. *)
Definition tableRow (env : Env) (markdown : jsstring) (rowIndex : nat) (row : node)
  : jsstring :=
  let cells := querySelectorAll [str "td"; str "th"] (childNodesOf row) in
  let cellContents :=
    map (fun cell =>
           trim (escapePipes (htmlToText env (innerHTML env (childNodesOf cell)))))
        cells in
  let markdown := markdown ++ str "| " ++ join (str " | ") cellContents ++ str " |" ++ nl in
  if (rowIndex =? 0) && (0 <? List.length cells)
  then markdown ++ str "| " ++ join (str " | ") (map (fun _ => str "---") cells)
                ++ str " |" ++ nl
  else markdown.

Fixpoint tableRows (env : Env) (rowIndex : nat) (rows : list node) (markdown : jsstring)
  : jsstring :=
  match rows with
  | [] => markdown
  | row :: rest => tableRows env (S rowIndex) rest (tableRow env markdown rowIndex row)
  end.

(** [tableToMarkdown(tableElement)] *)
Definition tableToMarkdown (env : Env) (tableElement : node) : jsstring :=
  let rows := querySelectorAll [str "tr"] (childNodesOf tableElement) in
  if List.length rows =? 0 then []
  else tableRows env 0 rows nl ++ nl.

(** [processElementToMarkdown(element)].  The inner loop is the [for ... of]
    over [element.childNodes]; [index] counts the element children passed. *)
Fixpoint processElementToMarkdown (env : Env) (element : node) : jsstring :=
  match element with
  | Element _ _ kids =>
      (fix loop (nodes : list node) (index : nat) (result : jsstring) : jsstring :=
         match nodes with
         | [] => result
         | Text d :: rest => loop rest index (result ++ d)
         | Comment _ :: rest => loop rest index result
         | (Element _ _ _ as node) :: rest =>
             let tagName := tagOf node in
             let textContent := processElementToMarkdown env node in
             let piece :=
               if seqb tagName (str "table") then tableToMarkdown env node
               else if seqb tagName (str "pre") then preToMarkdown node
               else match lookupConverter tagName with
                    | Some converter => converter textContent node element index
                    | None => textContent
                    end in
             loop rest (S index) (result ++ piece)
         end) kids 0 []
  | _ => []
  end.

(** [htmlToMarkdown(htmlContent)] *)
Definition htmlToMarkdown (env : Env) (htmlContent : jsstring) : jsstring :=
  if seqb htmlContent [] then []
  else if negb (documentDefined env) then stripHtmlTags htmlContent
  else
    let tempDiv := Element (str "div") [] (safeSetHTML env [] htmlContent) in
    processElementToMarkdown env tempDiv.

(* ===================================================================== *)
(** * URL validator ([isValidUrl]) *)
(* ===================================================================== *)

Definition allowedProtocols : list jsstring := [str "https:"; str "http:"].

Definition allowedDomains : list jsstring :=
  map str ["chat.openai.com"; "chatgpt.com"; "claude.ai"; "gemini.google.com";
           "x.com"; "grok.com"]%string.

(** [hostname === domain || hostname.endsWith('.' + domain)] *)
Definition hostMatches (hostname domain : jsstring) : bool :=
  seqb hostname domain || endsWith hostname (str "." ++ domain).

Definition isValidUrl (env : Env) (url : value) : bool :=
  match url with
  | VString s =>
      match newURL env s with
      | Some urlObj =>
          if negb (existsb (seqb (protocol urlObj)) allowedProtocols) then false
          else existsb (hostMatches (hostname urlObj)) allowedDomains
      | None => false
      end
  | _ => false
  end.

(* ===================================================================== *)
(** * Document assembler *)
(* ===================================================================== *)

Record Message := { role : jsstring; content : jsstring }.

(** An options object; a property that is absent reads as [VUndefined]. *)
Record Options := {
  includeTimestamps : value;
  includeMetadata : value;
  platform : value;
  url : value
}.

Definition roleMap : list (jsstring * jsstring) :=
  [ (str "user", str "User");
    (str "assistant", str "Assistant");
    (str "system", str "System");
    (str "claude", str "Claude");
    (str "gpt", str "ChatGPT");
    (str "gemini", str "Gemini");
    (str "grok", str "Grok") ].

(** [getRoleDisplay(role)], as the template literal of [messageToText] shows
    it.  [roleMap[role]] finds an own property, else a member inherited from
    [Object.prototype] (all of them truthy), else it is [undefined] and the
    capitalized role is used. *)
Definition getRoleDisplay (env : Env) (role : jsstring) : jsstring :=
  match lookup role roleMap with
  | Some display => display
  | None =>
      match prototypeMember env role with
      | Some shown => shown
      | None => toUpperCase (charAt0 role) ++ slice1 role
      end
  end.

(** [messageToText(message, options)] *)
Definition messageToText (env : Env) (message : Message) (options : Options)
  : jsstring :=
  let text := [] in
  let roleDisplay := getRoleDisplay env (role message) in
  let text := text ++ roleDisplay ++ str ":" ++ nl in
  let content := htmlToText env (content message) in
  text ++ content.

(** The template literal of the preamble; [options.url] is a string whenever
    the guard lets it through. *)
Definition showValue (v : value) : jsstring :=
  match v with
  | VString s => s
  | _ => []
  end.

(** The [forEach((message, index) => ...)] of [toText]; [len] is
    [conversationData.length]. *)
Fixpoint forEachMessage (env : Env) (options : Options) (len : Z) (index : Z)
         (messages : list Message) (text : jsstring) : jsstring :=
  match messages with
  | [] => text
  | message :: rest =>
      let text := text ++ messageToText env message options in
      let text := if (index <? len - 1)%Z then text ++ nl ++ nl else text in
      forEachMessage env options len (index + 1)%Z rest text
  end.

(** [toText(conversationData, options)] *)
Definition toText (env : Env) (conversationData : list Message) (options : Options)
  : jsstring :=
  let text := [] in
  let text :=
    if truthy (url options) && isValidUrl env (url options)
    then text ++ str "chat url: " ++ showValue (url options) ++ nl ++ nl
    else text in
  let text :=
    forEachMessage env options (Z.of_nat (List.length conversationData)) 0
                   conversationData text in
  trim text.

(** A destructuring default: it applies to [undefined] only. *)
Definition withDefault (d v : value) : value :=
  match v with VUndefined => d | _ => v end.

(** [processConversation(conversationData, format, options = {})] *)
Definition processConversation (env : Env) (conversationData : list Message)
           (format : value) (options : Options) : jsstring :=
  let includeTimestamps := withDefault (VBool false) (includeTimestamps options) in
  let includeMetadata := withDefault (VBool true) (includeMetadata options) in
  let platform := withDefault (VString (str "unknown")) (platform options) in
  let url := withDefault (VString []) (url options) in
  toText env conversationData
         {| includeTimestamps := includeTimestamps;
            includeMetadata := includeMetadata;
            platform := platform;
            url := url |}.

(* ===================================================================== *)
(** * The caller's records as a store *)
(* ===================================================================== *)

(** The assembler receives references: the array [conversationData] and the
    message objects in it belong to the caller.  Here the array is a store that
    every step of the assembler is handed and hands back, and a field of a
    message is reached through the store only. *)
Module Heap.

Definition Store := list Message.

Definition M (A : Type) : Type := Store -> A * Store.

Definition ret {A} (x : A) : M A := fun st => (x, st).

Definition bind {A B} (c : M A) (k : A -> M B) : M B :=
  fun st => let (x, st') := c st in k x st'.

Notation "x <- c ;; k" := (bind c (fun x => k))
  (at level 61, c at next level, right associativity).

(** [conversationData.length] *)
Definition readLength : M nat := fun st => (List.length st, st).

(** [message.role] and [message.content] for the message at [index]. *)
Definition readRole (index : nat) : M jsstring :=
  fun st => (match nth_error st index with Some m => role m | None => [] end, st).

Definition readContent (index : nat) : M jsstring :=
  fun st => (match nth_error st index with Some m => content m | None => [] end, st).

(** [message.content = c]: what an assignment to a field would do. *)
Fixpoint assign (index : nat) (c : jsstring) (st : Store) : Store :=
  match st, index with
  | [], _ => []
  | m :: rest, O => {| role := role m; content := c |} :: rest
  | m :: rest, S i => m :: assign i c rest
  end.

Definition writeContent (index : nat) (c : jsstring) : M unit :=
  fun st => (tt, assign index c st).

Definition messageToText (env : Env) (index : nat) (options : Options) : M jsstring :=
  r <- readRole index ;;
  let text := getRoleDisplay env r ++ str ":" ++ nl in
  c <- readContent index ;;
  ret (text ++ htmlToText env c).

(** The [forEach] of [toText]: [count] messages are still to come. *)
Fixpoint forEachMessage (env : Env) (options : Options) (count : nat) (index : nat)
         (text : jsstring) : M jsstring :=
  match count with
  | O => ret text
  | S count' =>
      block <- messageToText env index options ;;
      len <- readLength ;;
      let text := text ++ block in
      let text := if (Z.of_nat index <? Z.of_nat len - 1)%Z
                  then text ++ nl ++ nl else text in
      forEachMessage env options count' (S index) text
  end.

Definition toText (env : Env) (options : Options) : M jsstring :=
  let text :=
    if truthy (url options) && isValidUrl env (url options)
    then str "chat url: " ++ showValue (url options) ++ nl ++ nl
    else [] in
  len <- readLength ;;
  text <- forEachMessage env options len 0 text ;;
  ret (trim text).

Definition processConversation (env : Env) (format : value) (options : Options)
  : M jsstring :=
  toText env
         {| includeTimestamps := withDefault (VBool false) (includeTimestamps options);
            includeMetadata := withDefault (VBool true) (includeMetadata options);
            platform := withDefault (VString (str "unknown")) (platform options);
            url := withDefault (VString []) (url options) |}.

End Heap.

(* ===================================================================== *)
(** * Sample environments and inputs *)
(* ===================================================================== *)

(** The document an HTML parser builds around head and body content. *)
Definition page (headNodes bodyNodes : list node) : list node :=
  [ Element (str "html") []
      [ Element (str "head") [] headNodes; Element (str "body") [] bodyNodes ] ].

Definition el (tag : string) (kids : list node) : node := Element (str tag) [] kids.
Definition txt (s : string) : node := Text (str s).

Definition paragraphHi : jsstring := str "<p>Hi</p>".
Definition paragraphYo : jsstring := str "<p>Yo</p>".
Definition scriptThenParagraph : jsstring := str "<script>alert(1)</script><p>hi</p>".
Definition bulletList : jsstring := str "<ul><li>a</li><li>b</li></ul>".
Definition smallTable : jsstring :=
  str "<table><tr><th>A</th></tr><tr><td>1</td></tr></table>".
Definition unsafeLink : jsstring :=
  str "<a href=' JavaScript:alert(1)' onclick='steal()'>x</a><img src='pic.png' onerror='steal()'>".

Definition scriptThenParagraphPage : list node :=
  page [el "script" [txt "alert(1)"]] [el "p" [txt "hi"]].

Definition bulletListPage : list node :=
  page [] [el "ul" [el "li" [txt "a"]; el "li" [txt "b"]]].

(** The parser supplies the [tbody]. *)
Definition smallTableNode : node :=
  el "table" [el "tbody" [el "tr" [el "th" [txt "A"]]; el "tr" [el "td" [txt "1"]]]].

Definition unsafeLinkPage : list node :=
  page []
    [ Element (str "a")
        [(str "href", str " JavaScript:alert(1)"); (str "onclick", str "steal()")]
        [txt "x"];
      Element (str "img")
        [(str "src", str "pic.png"); (str "onerror", str "steal()")] [] ].

Definition samplePages : list (jsstring * list node) :=
  [ (paragraphHi, page [] [el "p" [txt "Hi"]]);
    (paragraphYo, page [] [el "p" [txt "Yo"]]);
    (scriptThenParagraph, scriptThenParagraphPage);
    (bulletList, bulletListPage);
    (smallTable, page [] [smallTableNode]);
    (unsafeLink, unsafeLinkPage) ].

(** A parser that agrees with a browser on the fragments above and on text
    without markup or character references. *)
Definition sampleParse (html : jsstring) : option (list node) :=
  match lookup html samplePages with
  | Some doc => Some doc
  | None => Some (page [] [Text html])
  end.

(** A serializer for trees of plain elements and text without [&], [<], [>]. *)
Fixpoint sampleSerialize (n : node) : jsstring :=
  match n with
  | Text d => d
  | Comment d => str "<!--" ++ d ++ str "-->"
  | Element t _ kids =>
      str "<" ++ t ++ str ">" ++ flat_map sampleSerialize kids
          ++ str "</" ++ t ++ str ">"
  end.

Definition sampleURLs : list (jsstring * URLRecord) :=
  [ (str "https://chatgpt.com/c/1",
     {| protocol := str "https:"; hostname := str "chatgpt.com" |});
    (str "https://evil.com",
     {| protocol := str "https:"; hostname := str "evil.com" |});
    (str "https://sub.claude.ai/x",
     {| protocol := str "https:"; hostname := str "sub.claude.ai" |});
    (str "javascript:alert(1)",
     {| protocol := str "javascript:"; hostname := [] |}) ].

Definition samplePrototype : list (jsstring * jsstring) :=
  [ (str "constructor", str "function Object() { [native code] }");
    (str "toString", str "function toString() { [native code] }");
    (str "__proto__", str "[object Object]") ].

(** A content script: [document] exists. *)
Definition browser : Env :=
  {| documentDefined := true;
     parseFromString := sampleParse;
     innerHTML := flat_map sampleSerialize;
     newURL := fun s => lookup s sampleURLs;
     prototypeMember := fun s => lookup s samplePrototype |}.

(** A service worker: no [document], no parser. *)
Definition worker : Env :=
  {| documentDefined := false;
     parseFromString := fun _ => None;
     innerHTML := flat_map sampleSerialize;
     newURL := fun s => lookup s sampleURLs;
     prototypeMember := fun s => lookup s samplePrototype |}.

Definition noOptions : Options :=
  {| includeTimestamps := VUndefined; includeMetadata := VUndefined;
     platform := VUndefined; url := VUndefined |}.

Definition withUrl (u : value) (options : Options) : Options :=
  {| includeTimestamps := includeTimestamps options;
     includeMetadata := includeMetadata options;
     platform := platform options;
     url := u |}.

Definition withTimestamps (t : value) (options : Options) : Options :=
  {| includeTimestamps := t;
     includeMetadata := includeMetadata options;
     platform := platform options;
     url := url options |}.

Definition chatUrl : jsstring := str "https://chatgpt.com/c/1".
Definition userHi : Message := {| role := str "user"; content := paragraphHi |}.
Definition assistantYo : Message := {| role := str "assistant"; content := paragraphYo |}.

(* ===================================================================== *)
(** * Vocabulary of the stated properties *)
(* ===================================================================== *)

(** The separator of the assembler: two line breaks. *)
Definition separator : jsstring := nl ++ nl.

(** The preamble line, when the URL passes the guard of [toText]. *)
Definition urlPreamble (env : Env) (options : Options) : jsstring :=
  if truthy (url options) && isValidUrl env (url options)
  then str "chat url: " ++ showValue (url options) ++ nl ++ nl
  else [].

(** The rendered block of every message, in order. *)
Definition blocks (env : Env) (options : Options) (messages : list Message)
  : list jsstring :=
  map (fun m => messageToText env m options) messages.

Fixpoint leadingNewlines (s : jsstring) : nat :=
  match s with
  | c :: s' => if N.eqb c 10 then S (leadingNewlines s') else 0
  | [] => 0
  end.

Definition trailingNewlines (s : jsstring) : nat := leadingNewlines (rev s).

(** Where block number [k] ends in the assembled document. *)
Definition blockEnd (env : Env) (messages : list Message) (options : Options)
           (k : nat) : nat :=
  List.length
    (trimStart (urlPreamble env options
                ++ join separator (firstn (S k) (blocks env options messages)))).

(** The number of empty lines of the assembled document between the last
    line of block [k] that has a character and the first such line after it:
    one less than the run of line breaks around the end of block [k]. *)
Definition blankLinesAfterBlock (env : Env) (messages : list Message)
           (options : Options) (k : nat) : nat :=
  let doc := toText env messages options in
  let cut := blockEnd env messages options k in
  trailingNewlines (firstn cut doc) + leadingNewlines (skipn cut doc) - 1.

(** "Exactly one blank line between the rendered blocks of any two
    consecutive messages." *)
Definition oneBlankLineBetweenBlocks (env : Env) (messages : list Message)
           (options : Options) : Prop :=
  forall k, S k < List.length messages ->
            blankLinesAfterBlock env messages options k = 1.

(** "[out] is [expected] except possibly for additional trailing blank lines." *)
Definition upToTrailingBlankLines (expected out : jsstring) : Prop :=
  exists k, out = expected ++ repeat 10%N k.

(** What the sanitizer is to guarantee of an element. *)
Definition isEventHandler (a : attribute) : bool :=
  startsWith (toLowerCase (fst a)) (str "on").

(** An attribute with a dangerous URL, written out on its own and not through
    the sanitizer's test and tables: the name is one of the five, and the
    value, lower-cased and trimmed, starts with one of the four schemes. *)
Definition startsWithScheme (value : jsstring) : bool :=
  let v := trim (toLowerCase value) in
  startsWith v (str "javascript:") || startsWith v (str "data:")
  || startsWith v (str "vbscript:") || startsWith v (str "file:").

Definition isUrlAttributeName (name : jsstring) : bool :=
  seqb name (str "href") || seqb name (str "src") || seqb name (str "action")
  || seqb name (str "formaction") || seqb name (str "data").

Definition isDangerousUrlAttribute (a : attribute) : bool :=
  isUrlAttributeName (fst a) && startsWithScheme (snd a).


Definition isExecutable (e : node) : bool := hasTag [str "script"; str "style"] e.

(** Attribute names are unique within an element, as in every DOM. *)
Fixpoint uniqueNames (attrs : list attribute) : bool :=
  match attrs with
  | [] => true
  | (n, _) :: rest =>
      negb (existsb (fun a => seqb (fst a) n) rest) && uniqueNames rest
  end.

Definition wellFormed (doc : list node) : bool :=
  forallb (fun e => uniqueNames (attributesOf e)) (descendants doc).

(** The cell text and the rows of the Markdown table, stated directly. *)
Definition cellsOf (row : node) : list node :=
  querySelectorAll [str "td"; str "th"] (childNodesOf row).

Definition cellText (env : Env) (cell : node) : jsstring :=
  trim (escapePipes (htmlToText env (innerHTML env (childNodesOf cell)))).

Definition pipeRow (cellTexts : list jsstring) : jsstring :=
  str "| " ++ join (str " | ") cellTexts ++ str " |" ++ nl.

Definition rowLine (env : Env) (row : node) : jsstring :=
  pipeRow (map (cellText env) (cellsOf row)).

Definition separatorLine (row : node) : jsstring :=
  match cellsOf row with
  | [] => []
  | cells => pipeRow (map (fun _ => str "---") cells)
  end.



(** A string with a unit that [trim] keeps. *)
Definition hasVisible (s : jsstring) : bool :=
  existsb (fun c => negb (isWhiteSpace c)) s.

Definition hasNonNewline (s : jsstring) : bool :=
  existsb (fun c => negb (N.eqb c 10)) s.

Definition chatUrlPreamble : jsstring :=
  str "chat url: https://chatgpt.com/c/1" ++ nl ++ nl.


(** Every pipe of [s] comes right after a backslash; [prev] is the unit before
    [s]. *)
Fixpoint everyPipeEscaped (prev : N) (s : jsstring) : bool :=
  match s with
  | [] => true
  | c :: s' => (negb (N.eqb c 124) || N.eqb prev 92) && everyPipeEscaped c s'
  end.

Definition tableLines : jsstring :=
  str "| A |" ++ nl ++ str "| --- |" ++ nl ++ str "| 1 |" ++ nl.




(** "[line] is followed by a blank line in [text]." *)
Definition blankLineAfter (line text : jsstring) : bool :=
  includes text (line ++ nl ++ nl).




(* ===================================================================== *)
(** * Further functions of the content processor *)
(* ===================================================================== *)

(** [generateConversationTitle(conversationData)]; [substring(0, 50)] keeps
    the first fifty code units. *)
Definition generateConversationTitle (env : Env) (conversationData : list Message)
  : jsstring :=
  if List.length conversationData =? 0 then str "Empty Conversation"
  else
    match find (fun msg => seqb (role msg) (str "user")) conversationData with
    | None => str "LLM Conversation"
    | Some firstMessage =>
        let content := htmlToText env (content firstMessage) in
        let title := trim (firstn 50 content) in
        if List.length title <? List.length content
        then title ++ str "..."
        else title
    end.

(** The units of a string that are not white space, and those that are not
    line breaks. *)
Definition visibleText (s : jsstring) : jsstring :=
  filter (fun c => negb (isWhiteSpace c)) s.

Definition withoutNewlines (s : jsstring) : jsstring :=
  filter (fun c => negb (N.eqb c 10)) s.

(** No white space but the space, and no space after a space; [afterSpace]
    tells that the unit before [s] is a space. *)
Fixpoint singleSpaced (afterSpace : bool) (s : jsstring) : bool :=
  match s with
  | [] => true
  | c :: s' =>
      if N.eqb c 32 then negb afterSpace && singleSpaced true s'
      else negb (isWhiteSpace c) && singleSpaced false s'
  end.

(** A tag the Markdown renderer has no rule for. *)
Definition passThroughTag (n : node) : bool :=
  negb (seqb (tagOf n) (str "table")) && negb (seqb (tagOf n) (str "pre"))
  && match lookupConverter (tagOf n) with Some _ => false | None => true end.

(** One line of [tableToText]. *)
Definition textRow (row : node) : jsstring :=
  join tab (map (fun cell => trim (textContent cell)) (cellsOf row)) ++ nl.

(** An element of the sanitizer's concern: a script or style element, or an
    element with an event handler or a dangerous URL attribute. *)
Definition cleanElement (e : node) : bool :=
  negb (isExecutable e)
  && forallb (fun a => negb (isEventHandler a) && negb (isDangerousUrlAttribute a))
       (attributesOf e).

Definition cleanDocument (doc : list node) : bool :=
  forallb cleanElement (descendants doc).

(** A [br] without text below it, as the parser makes every [br]. *)
Definition emptyLineBreaks (kids : list node) : bool :=
  forallb (fun e => negb (hasTag [str "br"] e) || seqb (textContent e) [])
          (descendants kids).

(** [element.className || ''] *)
Definition classNameOf (element : node) : jsstring :=
  match truthyAttribute (str "class") element with
  | Some c => c
  | None => []
  end.

(** The user message whose content gives the title. *)
Definition firstUserMessage (conversationData : list Message) : option Message :=
  find (fun msg => seqb (role msg) (str "user")) conversationData.

(* ===================================================================== *)
(** * Service worker ([background.js]) *)
(* ===================================================================== *)

Module Background.

Definition validPlatforms : list jsstring :=
  map str ["chatgpt"; "claude"; "gemini"; "grok"]%string.

Definition validFormats : list jsstring :=
  map str ["text"; "markdown"; "json"]%string.

(** [isValidPlatform(platform)] *)
Definition isValidPlatform (platform : value) : bool :=
  match platform with
  | VString s => existsb (seqb s) validPlatforms
  | _ => false
  end.

(** [isValidFormat(format)] *)
Definition isValidFormat (format : value) : bool :=
  match format with
  | VString s => existsb (seqb s) validFormats
  | _ => false
  end.

(** The service worker's own [isValidUrl(url)]. *)
Definition isValidUrl (env : Env) (url : value) : bool :=
  match url with
  | VString s =>
      match newURL env s with
      | Some urlObj =>
          if negb (existsb (seqb (protocol urlObj)) [str "https:"; str "http:"])
          then false
          else existsb
                 (fun domain =>
                    seqb (hostname urlObj) domain
                    || endsWith (hostname urlObj) (str "." ++ domain))
                 (map str ["chat.openai.com"; "chatgpt.com"; "claude.ai";
                           "gemini.google.com"; "x.com"; "grok.com"]%string)
      | None => false
      end
  | _ => false
  end.

(** The fields of an export request that the worker reads. *)
Record ExportMessage := {
  action : value;
  format : value;
  tabId : value;
  platform : value
}.

(** [sender.id], and [sender.tab.url] when [sender.tab] is there. *)
Record Sender := {
  senderId : value;
  tabUrl : option value
}.

(** What the worker does with a request before it first waits: answer with an
    error, or ask for the two scripts to be injected into the tab. *)
Inductive ExportStep :=
| RespondError (error : jsstring)
| InjectScripts (tab : value) (files : list jsstring).

(** [handleExport(message, sendResponse)] up to its first [await]. *)
Definition handleExport (message : ExportMessage) : ExportStep :=
  if negb (truthy (tabId message))
  then RespondError (str "No active tab found.")
  else if negb (isValidPlatform (platform message))
  then RespondError (str "Invalid platform specified.")
  else if negb (isValidFormat (format message))
  then RespondError (str "Invalid format specified.")
  else InjectScripts (tabId message)
         [ str "utils/content-processor.js";
           str "extractors/" ++ showValue (platform message) ++ str "-extractor.js" ].

(** The outcome of the message listener: the message is dropped without an
    answer, answered with an error, handed to [handleExport], or left for
    another listener. *)
Inductive ListenerStep :=
| Dropped
| Refused (error : jsstring)
| Export (step : ExportStep)
| NotAnExport.

(** [v === s] for a string [s]. *)
Definition isString (v : value) (s : jsstring) : bool :=
  match v with VString x => seqb x s | _ => false end.

(** The listener of [chrome.runtime.onMessage]; [runtimeId] is
    [chrome.runtime.id]. *)
Definition onMessage (env : Env) (runtimeId : jsstring) (message : ExportMessage)
           (sender : Sender) : ListenerStep :=
  if negb (isString (senderId sender) runtimeId) || negb (truthy (action message))
  then Dropped
  else
    let isExport := isString (action message) (str "exportConversation") in
    match (if isExport then tabUrl sender else None) with
    | Some url =>
        if negb (isValidUrl env url) then Refused (str "Invalid tab URL.")
        else Export (handleExport message)
    | None =>
        if isExport then Export (handleExport message) else NotAnExport
    end.

End Background.

(* ===================================================================== *)
(** * Popup ([popup.js]) *)
(* ===================================================================== *)

Module Popup.

(** The patterns of [detectPlatform], each without its common head
    [^https?:\/\/]; the dots are literal. *)
Definition platformPatterns : list (jsstring * list jsstring) :=
  [ (str "chatgpt", [str "chat.openai.com"; str "chatgpt.com"]);
    (str "claude", [str "claude.ai"]);
    (str "gemini", [str "gemini.google.com"]);
    (str "grok", [str "x.com/i/grok"; str "grok.com/c/"]) ].

(** [/^https?:\/\/rest/.test(url)] *)
Definition testPattern (rest url : jsstring) : bool :=
  startsWith url (str "https://" ++ rest) || startsWith url (str "http://" ++ rest).

(** The [for ... of Object.entries(platformPatterns)] loop. *)
Fixpoint detectIn (table : list (jsstring * list jsstring)) (url : jsstring)
  : option jsstring :=
  match table with
  | [] => None
  | (platform, patterns) :: rest =>
      if existsb (fun pattern => testPattern pattern url) patterns
      then Some platform
      else detectIn rest url
  end.

(** [detectPlatform(url)]; [None] is [null]. *)
Definition detectPlatform (url : jsstring) : option jsstring :=
  detectIn platformPatterns url.

End Popup.

(* ===================================================================== *)
(** * Extractors: file names and the Claude transcript *)
(* ===================================================================== *)

Module Extractor.

(** [url.replace(/^https?:\/\//, '')] *)
Definition stripScheme (url : jsstring) : jsstring :=
  if startsWith url (str "https://") then skipn 8 url
  else if startsWith url (str "http://") then skipn 7 url
  else url.

Definition isAlphaNumeric (c : N) : bool :=
  ((48 <=? c) && (c <=? 57) || (65 <=? c) && (c <=? 90)
   || (97 <=? c) && (c <=? 122))%N.

(** [s.replace(/[^a-z0-9]/gi, '_')] *)
Definition underscoreOthers (s : jsstring) : jsstring :=
  map (fun c => if isAlphaNumeric c then c else 95%N) s.

(** [iso.replace(/[-:T]/g, '_').split('.')[0]] *)
Definition dateTimePart (iso : jsstring) : jsstring :=
  hd [] (splitUnit 46
           (map (fun c => if N.eqb c 45 || N.eqb c 58 || N.eqb c 84 then 95%N else c) iso)).

(** The file name the content scripts answer with; [iso] is
    [new Date().toISOString()]. *)
Definition exportFilename (url iso : jsstring) : jsstring :=
  let urlStart := underscoreOthers (firstn 10 (stripScheme url)) in
  let datetime := dateTimePart iso in
  urlStart ++ str "_" ++ datetime ++ str ".txt".

(** The characters [consoleSave] replaces by an underscore: the class
    of less-than, greater-than, colon, double quote, slash, backslash, bar,
    question mark and star. *)
Definition isReserved (c : N) : bool :=
  existsb (N.eqb c) [60; 62; 58; 34; 47; 92; 124; 63; 42]%N.

(** [s.replace(/\s+/g, '-')] *)
Fixpoint dashWhiteSpace (inRun : bool) (s : jsstring) : jsstring :=
  match s with
  | [] => []
  | c :: s' =>
      if isWhiteSpace c
      then if inRun then dashWhiteSpace true s'
           else 45%N :: dashWhiteSpace true s'
      else c :: dashWhiteSpace false s'
  end.

Fixpoint dropNonWord (s : jsstring) : jsstring :=
  match s with
  | [] => []
  | c :: s' => if isWordChar c then s else dropNonWord s'
  end.

(** [s.replace(re, '')] for the global [re] that matches a run of non-word
    characters at the start or at the end. *)
Definition stripNonWordEdges (s : jsstring) : jsstring :=
  rev (dropNonWord (rev (dropNonWord s))).

(** The file name of [consoleSave(data, title)]. *)
Definition consoleSaveName (title : jsstring) : jsstring :=
  let filename :=
    if seqb title [] then str "claude"
    else
      let cleaned :=
        firstn 100
          (stripNonWordEdges
             (dashWhiteSpace false
                (map (fun c => if isReserved c then 95%N else c)
                     (toLowerCase (trim title))))) in
      if seqb cleaned [] then str "claude" else cleaned in
  filename ++ str ".md".

Definition claudeMarker : jsstring := str "_Claude_:".
Definition humanMarker : jsstring := str "_Human_:".

(** [if (currentMessage) messages.push(currentMessage)] *)
Definition push (messages : list Message) (currentMessage : option Message)
  : list Message :=
  match currentMessage with
  | Some m => messages ++ [m]
  | None => messages
  end.

(** [currentMessage.content += (currentMessage.content ? '\n' : '') + line] *)
Definition appendLine (m : Message) (line : jsstring) : Message :=
  {| role := role m;
     content := content m ++ (if seqb (content m) [] then [] else nl) ++ line |}.

(** The [for (const line of lines)] loop of [parseMarkdownToMessages]: the
    current message and the messages pushed so far. *)
Fixpoint parseLines (lines : list jsstring) (currentMessage : option Message)
         (messages : list Message) : option Message * list Message :=
  match lines with
  | [] => (currentMessage, messages)
  | line :: rest =>
      if startsWith line claudeMarker
      then parseLines rest (Some {| role := str "assistant"; content := [] |})
                      (push messages currentMessage)
      else if startsWith line humanMarker
      then parseLines rest (Some {| role := str "user"; content := [] |})
                      (push messages currentMessage)
      else
        match currentMessage with
        | Some m =>
            if negb (seqb (trim line) [])
            then parseLines rest (Some (appendLine m line)) messages
            else parseLines rest currentMessage messages
        | None => parseLines rest currentMessage messages
        end
  end.

(** [parseMarkdownToMessages(markdown)] *)
Definition parseMarkdownToMessages (markdown : jsstring) : list Message :=
  let (currentMessage, messages) := parseLines (splitUnit 10 markdown) None [] in
  filter (fun m => negb (seqb (trim (content m)) [])) (push messages currentMessage).

End Extractor.

(** The two files injected for platform [p]. *)
Definition extractorFiles (p : jsstring) : list jsstring :=
  [ str "utils/content-processor.js"; str "extractors/" ++ p ++ str "-extractor.js" ].

Definition sampleExport : Background.ExportMessage :=
  {| Background.action := VString (str "exportConversation");
     Background.format := VString (str "text");
     Background.tabId := VNumber 7;
     Background.platform := VString (str "claude") |}.

(** The units of an ISO 8601 time stamp: digits, hyphen, colon, dot, [T], [Z]. *)
Definition isIsoUnit (c : N) : bool :=
  ((48 <=? c) && (c <=? 57))%N
  || existsb (N.eqb c) [45; 58; 46; 84; 90]%N.

(** A unit a file name may hold anywhere: not reserved, not white space. *)
Definition isFileNameUnit (c : N) : bool :=
  negb (Extractor.isReserved c) && negb (isWhiteSpace c).

Definition startsWithWordChar (s : jsstring) : bool :=
  match s with
  | c :: _ => isWordChar c
  | [] => false
  end.

Definition isMarkerLine (line : jsstring) : bool :=
  startsWith line Extractor.claudeMarker || startsWith line Extractor.humanMarker.

Definition isBlankLine (line : jsstring) : bool := seqb (trim line) [].

(** A message content put together from lines that are all [good]. *)
Definition builtFrom (good : jsstring -> Prop) (c : jsstring) : Prop :=
  c = [] \/ exists ls, ls <> [] /\ c = join nl ls /\ forall l, In l ls -> good l.

(** A line that [parseMarkdownToMessages] adds to a content: a line of the
    input, not blank, not a marker line. *)
Definition contentLine (allLines : list jsstring) (l : jsstring) : Prop :=
  In l allLines /\ isBlankLine l = false /\ isMarkerLine l = false.

Definition parsedMessage (allLines : list jsstring) (m : Message) : Prop :=
  (role m = str "assistant" \/ role m = str "user")
  /\ builtFrom (contentLine allLines) (content m).

(** One section of the transcript the Claude extractor builds: the marker
    line of the speaker, the body, a line break.  [true] is the human. *)
Definition transcriptSection (s : bool * jsstring) : jsstring :=
  (if fst s then Extractor.humanMarker else Extractor.claudeMarker)
    ++ nl ++ snd s ++ nl.

(** A transcript: the header, a line break, the sections. *)
Definition transcript (header : jsstring) (sections : list (bool * jsstring))
  : jsstring :=
  header ++ nl ++ flat_map transcriptSection sections.

Definition nonBlankLines (text : jsstring) : list jsstring :=
  filter (fun l => negb (isBlankLine l)) (splitUnit 10 text).

Definition sectionMessage (s : bool * jsstring) : Message :=
  {| role := if fst s then str "user" else str "assistant";
     content := join nl (nonBlankLines (snd s)) |}.

Definition noMarkerLine (text : jsstring) : Prop :=
  forall l, In l (splitUnit 10 text) -> isMarkerLine l = false.

(* ===================================================================== *)
(** * Claude extractor: [processChildNodes] *)
(* ===================================================================== *)

Module Claude.

(** [element.tagName]: the upper-case name of an HTML element. *)
Definition tagName (n : node) : jsstring :=
  match n with Element tag _ _ => toUpperCase tag | _ => [] end.

(** [node.nodeType === Node.ELEMENT_NODE && node.tagName === name] *)
Definition isTagged (name : string) (n : node) : bool :=
  isElement n && seqb (tagName n) (str name).

(** ASCII white space, which separates the tokens of a [class] attribute. *)
Definition isAsciiWhiteSpace (c : N) : bool :=
  ((c =? 9) || (c =? 10) || (c =? 12) || (c =? 13) || (c =? 32))%N.

Fixpoint skipSpaces (s : jsstring) : jsstring :=
  match s with
  | [] => []
  | c :: s' => if isAsciiWhiteSpace c then skipSpaces s' else s
  end.

Fixpoint takeToken (s : jsstring) : jsstring :=
  match s with
  | [] => []
  | c :: s' => if isAsciiWhiteSpace c then [] else c :: takeToken s'
  end.

(** [element.classList[0]]: the first token of the [class] attribute, or
    [undefined]. *)
Definition firstClass (n : node) : option jsstring :=
  match getAttribute (str "class") (attributesOf n) with
  | Some c => match takeToken (skipSpaces c) with
              | [] => None
              | token => Some token
              end
  | None => None
  end.

(** [codeEle.classList[0] ? codeEle.classList[0].split("-")[1] : ""], as the
    template literal prints it. *)
Definition codeBlockLang (codeEle : node) : jsstring :=
  match firstClass codeEle with
  | Some c => nth 1 (splitUnit 45 c) (str "undefined")
  | None => []
  end.

(** The [forEach((listItemNode, index) => ...)] of an [OL]: [index] counts
    every child node. *)
Fixpoint orderedItems (index : nat) (childNodes : list node) : jsstring :=
  match childNodes with
  | [] => []
  | listItemNode :: rest =>
      (if isTagged "LI" listItemNode
       then ofNat (index + 1) ++ str ". " ++ textContent listItemNode ++ nl
       else [])
      ++ orderedItems (S index) rest
  end.

Definition unorderedItems (childNodes : list node) : jsstring :=
  flat_map (fun listItemNode =>
              if isTagged "LI" listItemNode
              then str "- " ++ textContent listItemNode ++ nl
              else []) childNodes.

(** [childNode.querySelector("code")] and the fenced block. *)
Definition codeBlock (childNode : node) : jsstring :=
  match querySelectorAll [str "code"] (childNodesOf childNode) with
  | codeEle :: _ =>
      str "```" ++ codeBlockLang codeEle ++ nl ++ textContent codeEle ++ nl
        ++ str "```" ++ nl
  | [] => []
  end.

Definition isCell (n : node) : bool := isTagged "TD" n || isTagged "TH" n.

(** The cells of one row. *)
Definition tableCells (tableRowNode : node) : jsstring :=
  flat_map (fun tableCellNode =>
              if isCell tableCellNode
              then str "| " ++ textContent tableCellNode ++ str " "
              else []) (childNodesOf tableRowNode).

(** The rows of one section, and the cells counted on the way. *)
Definition sectionRows (tableSectionNode : node) : jsstring :=
  flat_map (fun tableRowNode =>
              if isTagged "TR" tableRowNode
              then tableCells tableRowNode ++ str "|" ++ nl
              else []) (childNodesOf tableSectionNode).

Definition sectionColCount (tableSectionNode : node) : nat :=
  List.length
    (flat_map (fun tableRowNode =>
                 if isTagged "TR" tableRowNode
                 then filter isCell (childNodesOf tableRowNode)
                 else []) (childNodesOf tableSectionNode)).

Definition headerRowDivider (tableColCount : nat) : jsstring :=
  str "| " ++ join (str " | ") (repeat (str "---") tableColCount) ++ str " |" ++ nl.

Definition tableSection (tableSectionNode : node) : jsstring :=
  if isTagged "THEAD" tableSectionNode
  then sectionRows tableSectionNode
         ++ headerRowDivider (sectionColCount tableSectionNode)
  else if isTagged "TBODY" tableSectionNode
  then sectionRows tableSectionNode
  else [].

Definition tableMarkdown (childNode : node) : jsstring :=
  flat_map tableSection (childNodesOf childNode).

Definition headingTags : list (string * string) :=
  [ ("H1", "# "); ("H2", "## "); ("H3", "### "); ("H4", "#### ");
    ("H5", "##### "); ("H6", "###### ") ]%string.

(** What one element adds before its paragraph break: the [if]s of the loop
    body, in order. *)
Definition elementMarkdown (childNode : node) : jsstring :=
  let tag := tagName childNode in
  let text := textContent childNode in
  (if seqb tag (str "P") then text ++ nl else [])
  ++ flat_map (fun h => if seqb tag (str (fst h))
                        then str (snd h) ++ text ++ nl else []) headingTags
  ++ (if seqb tag (str "OL") then orderedItems 0 (childNodesOf childNode) else [])
  ++ (if seqb tag (str "UL") then unorderedItems (childNodesOf childNode) else [])
  ++ (if seqb tag (str "PRE") then codeBlock childNode else [])
  ++ (if seqb tag (str "TABLE") then tableMarkdown childNode else []).

(** [processChildNodes(childNodes)] *)
Fixpoint processChildNodes (childNodes : list node) : jsstring :=
  match childNodes with
  | [] => []
  | childNode :: rest =>
      (if isElement childNode then elementMarkdown childNode ++ nl else [])
      ++ processChildNodes rest
  end.

(** The tag names the loop body knows. *)
Definition handledTags : list jsstring :=
  map str ["P"; "H1"; "H2"; "H3"; "H4"; "H5"; "H6"; "OL"; "UL"; "PRE"; "TABLE"]%string.

End Claude.

(** One attempt of the language pattern at the start of [s]: the prefix [p]
    and then the longest run of word characters, which must not be empty. *)
Definition matchAt (p s : jsstring) : option jsstring :=
  if startsWith s p
  then match takeWord (skipn (List.length p) s) with
       | [] => None
       | w => Some w
       end
  else None.

Definition languagePrefixes : list jsstring := [str "language-"; str "lang-"].

(** "[className] holds [language-] or [lang-] followed by a word character",
    right after [before]. *)
Definition languageHintAt (className before : jsstring) : Prop :=
  exists p c rest,
    In p languagePrefixes /\ isWordChar c = true
    /\ className = before ++ p ++ c :: rest.

Definition hasLanguageHint (className : jsstring) : Prop :=
  exists before, languageHintAt className before.

(** The unit the file name has for the unit [c] of the address. *)
Definition urlUnit (c : N) : N := if Extractor.isAlphaNumeric c then c else 95%N.

(** The unit the file name has for the unit [c] of the time stamp: hyphen,
    colon and the letter T become underscores. *)
Definition dateUnit (c : N) : N :=
  if ((c =? 45) || (c =? 58) || (c =? 84))%N then 95%N else c.

(** "[s] is [url] without a leading [http://] or [https://]." *)
Definition withoutScheme (url s : jsstring) : Prop :=
  url = str "https://" ++ s
  \/ url = str "http://" ++ s
  \/ (s = url /\ startsWith url (str "https://") = false
      /\ startsWith url (str "http://") = false).

(** "[d] is [iso] up to its first dot." *)
Definition upToFirstDot (iso d : jsstring) : Prop :=
  ~ In 46%N d /\ (iso = d \/ exists tail, iso = d ++ 46%N :: tail).

(* ===================================================================== *)
(** * Basic facts on strings and trees *)
(* ===================================================================== *)

Section NodeInduction.

Variable P : node -> Prop.
Hypothesis text_case : forall d, P (Text d).
Hypothesis comment_case : forall d, P (Comment d).
Hypothesis element_case :
  forall t a kids, Forall P kids -> P (Element t a kids).

Fixpoint node_ind (n : node) : P n :=
  match n with
  | Text d => text_case d
  | Comment d => comment_case d
  | Element t a kids =>
      element_case t a kids
        ((fix all (l : list node) : Forall P l :=
            match l with
            | [] => Forall_nil P
            | k :: l' => Forall_cons k (node_ind k) (all l')
            end) kids)
  end.

End NodeInduction.

Lemma seqb_eq : forall a b, seqb a b = true <-> a = b.
Proof.
  induction a as [|x a IH]; destruct b as [|y b]; simpl; split; try easy.
  - intros H. apply andb_true_iff in H as [Hx Hab].
    apply N.eqb_eq in Hx. apply IH in Hab. congruence.
  - intros H. injection H as -> ->. rewrite N.eqb_refl. simpl. now apply IH.
Qed.

Lemma seqb_refl : forall a, seqb a a = true.
Proof. intros a. now apply seqb_eq. Qed.

Lemma seqb_neq : forall a b, seqb a b = false <-> a <> b.
Proof.
  intros a b. split.
  - intros H E. apply seqb_eq in E. congruence.
  - intros H. destruct (seqb a b) eqn:E; [apply seqb_eq in E; contradiction | reflexivity].
Qed.

Lemma startsWith_prefix :
  forall p s, startsWith s p = true <-> exists rest, s = p ++ rest.
Proof.
  induction p as [|y p IH]; intros s; simpl.
  - split; [intros _; now exists s | reflexivity].
  - destruct s as [|x s].
    + split; [discriminate | intros [r H]; discriminate].
    + rewrite andb_true_iff, N.eqb_eq, IH. split.
      * intros [-> [r ->]]. now exists r.
      * intros [r H]. injection H as -> ->. split; [reflexivity | now exists r].
Qed.

Lemma endsWith_suffix :
  forall p s, endsWith s p = true <-> exists front, s = front ++ p.
Proof.
  intros p s. unfold endsWith. rewrite startsWith_prefix. split.
  - intros [r H]. exists (rev r).
    rewrite <- (rev_involutive s), H, rev_app_distr. now rewrite rev_involutive.
  - intros [f ->]. exists (rev f). now rewrite rev_app_distr.
Qed.

Lemma existsb_seqb_In :
  forall x l, existsb (seqb x) l = true <-> In x l.
Proof.
  intros x l. rewrite existsb_exists. split.
  - intros [y [Hy E]]. apply seqb_eq in E. now subst.
  - intros H. exists x. split; [assumption | apply seqb_refl].
Qed.

(* ===================================================================== *)
(** * URL validator *)
(* ===================================================================== *)

Lemma hostMatches_spec :
  forall h d,
    hostMatches h d = true <-> h = d \/ exists sub, h = sub ++ str "." ++ d.
Proof.
  intros h d. unfold hostMatches.
  rewrite orb_true_iff, seqb_eq, endsWith_suffix. reflexivity.
Qed.

(** C4.  [isValidUrl] is false on every value that is not a string and on every
    string the [URL] constructor rejects; on a string it accepts, the result
    is true exactly when the protocol is http or https and the host name is
    one of the six allowed domains or ends with a dot and one of them.  The
    three sample calls give false, true and false. *)
Theorem isValidUrl_allow_list :
  forall env : Env,
    (forall v, (forall s, v <> VString s) -> isValidUrl env v = false)
    /\ (forall s, newURL env s = None -> isValidUrl env (VString s) = false)
    /\ (forall s u, newURL env s = Some u ->
          (isValidUrl env (VString s) = true <->
           (protocol u = str "http:" \/ protocol u = str "https:")
           /\ exists d, In d allowedDomains
                        /\ (hostname u = d
                            \/ exists sub, hostname u = sub ++ str "." ++ d)))
    /\ (newURL env (str "https://evil.com")
          = Some {| protocol := str "https:"; hostname := str "evil.com" |} ->
        isValidUrl env (VString (str "https://evil.com")) = false)
    /\ (newURL env (str "https://sub.claude.ai/x")
          = Some {| protocol := str "https:"; hostname := str "sub.claude.ai" |} ->
        isValidUrl env (VString (str "https://sub.claude.ai/x")) = true)
    /\ (newURL env (str "javascript:alert(1)")
          = Some {| protocol := str "javascript:"; hostname := [] |} ->
        isValidUrl env (VString (str "javascript:alert(1)")) = false).
Proof.
  intros env.
  split; [|split; [|split; [|split; [|split]]]].
  - intros v Hv. destruct v; try reflexivity. now destruct (Hv s).
  - intros s H. simpl. now rewrite H.
  - intros s u H. unfold isValidUrl. rewrite H. split.
    + intros Hvalid.
      destruct (existsb (seqb (protocol u)) allowedProtocols) eqn:Hp;
        cbn [negb] in Hvalid; [|discriminate].
      apply existsb_seqb_In in Hp. simpl in Hp.
      split; [intuition|].
      apply existsb_exists in Hvalid as [d [Hd Hm]].
      exists d. split; [assumption | now apply hostMatches_spec].
    + intros [Hp [d [Hd Hm]]].
      assert (Hin : existsb (seqb (protocol u)) allowedProtocols = true).
      { apply existsb_seqb_In. simpl. intuition. }
      rewrite Hin. cbn [negb]. apply existsb_exists.
      exists d. split; [assumption | now apply hostMatches_spec].
  - intros H. simpl. rewrite H. reflexivity.
  - intros H. simpl. rewrite H. reflexivity.
  - intros H. simpl. rewrite H. reflexivity.
Qed.

Lemma isValidUrl_allow_list_witness :
  isValidUrl browser (VNumber 7) = false
  /\ isValidUrl browser (VString (str "not a url")) = false
  /\ isValidUrl browser (VString (str "https://evil.com")) = false
  /\ isValidUrl browser (VString (str "https://sub.claude.ai/x")) = true
  /\ isValidUrl browser (VString (str "javascript:alert(1)")) = false.
Proof.
  destruct (isValidUrl_allow_list browser) as (Hv & Hn & _ & He & Hs & Hj).
  split; [apply Hv; intros s; discriminate|].
  split; [apply Hn; reflexivity|].
  split; [apply He; reflexivity|].
  split; [apply Hs; reflexivity | apply Hj; reflexivity].
Defined.

(* ===================================================================== *)
(** * Document assembler *)
(* ===================================================================== *)

Lemma join_cons2 :
  forall sep x y l, join sep (x :: y :: l) = x ++ sep ++ join sep (y :: l).
Proof. reflexivity. Qed.

(** The loop of [toText] appends the blocks joined by the separator. *)
Lemma forEachMessage_join :
  forall env options messages len index text,
    len = (index + Z.of_nat (List.length messages))%Z ->
    forEachMessage env options len index messages text
    = text ++ join separator (blocks env options messages).
Proof.
  intros env options messages.
  induction messages as [|m rest IH]; intros len index text Hlen.
  - simpl. now rewrite app_nil_r.
  - cbn [forEachMessage]. destruct rest as [|m' rest'].
    + cbn [List.length] in Hlen.
      replace (index <? len - 1)%Z with false by (symmetry; apply Z.ltb_ge; lia).
      rewrite (IH len (index + 1)%Z) by (cbn [List.length]; lia).
      simpl. now rewrite !app_nil_r.
    + replace (index <? len - 1)%Z with true
        by (symmetry; apply Z.ltb_lt; cbn [List.length] in Hlen; lia).
      rewrite (IH len (index + 1)%Z) by (cbn [List.length] in *; lia).
      unfold blocks. cbn [map]. rewrite join_cons2. unfold separator.
      now rewrite <- !app_assoc.
Qed.

Lemma toText_join :
  forall env messages options,
    toText env messages options
    = trim (urlPreamble env options ++ join separator (blocks env options messages)).
Proof.
  intros env messages options. unfold toText.
  rewrite forEachMessage_join by lia.
  unfold urlPreamble. destruct (truthy (url options) && isValidUrl env (url options));
    reflexivity.
Qed.

(** The blocks do not depend on the options. *)
Lemma blocks_options :
  forall env o1 o2 messages, blocks env o1 messages = blocks env o2 messages.
Proof. reflexivity. Qed.

Lemma toText_options :
  forall env messages o1 o2,
    url o1 = url o2 -> toText env messages o1 = toText env messages o2.
Proof.
  intros env messages o1 o2 Hurl. rewrite !toText_join.
  unfold urlPreamble. rewrite Hurl. reflexivity.
Qed.

Lemma urlPreamble_accepts :
  forall env options s,
    url options = VString s -> s <> [] -> isValidUrl env (VString s) = true ->
    urlPreamble env options = str "chat url: " ++ s ++ nl ++ nl.
Proof.
  intros env options s Hurl Hs Hvalid. unfold urlPreamble. rewrite Hurl.
  cbn [truthy showValue]. rewrite Hvalid.
  apply seqb_neq in Hs. now rewrite Hs.
Qed.

Lemma urlPreamble_rejects :
  forall env options,
    ~ (exists s, url options = VString s /\ s <> [] /\ isValidUrl env (VString s) = true) ->
    urlPreamble env options = [].
Proof.
  intros env options Hno. unfold urlPreamble.
  destruct (truthy (url options) && isValidUrl env (url options)) eqn:E; [|reflexivity].
  exfalso. apply Hno. apply andb_true_iff in E as [Ht Hv].
  destruct (url options) as [| |b|n|s|] eqn:Hu; try discriminate.
  exists s. repeat split; try assumption.
  intros ->. discriminate.
Qed.

(** C7.  When the URL option is the empty string, not a string, rejected by
    the [URL] constructor, or has a host outside the allow-list, [toText]
    returns the trimmed blocks alone, which is also what it returns for the
    empty URL; when it is a non-empty string that [isValidUrl] accepts, the
    text starts with the preamble line.  In each case the result is a string. *)
Theorem url_preamble_only_when_valid :
  forall env messages options,
    ((url options = VString []
      \/ (forall s, url options <> VString s)
      \/ (exists s, url options = VString s /\ newURL env s = None)
      \/ (exists s u, url options = VString s /\ newURL env s = Some u
                      /\ existsb (hostMatches (hostname u)) allowedDomains = false)
      \/ isValidUrl env (url options) = false) ->
     toText env messages options
     = trim (join separator (blocks env options messages))
     /\ toText env messages options
        = toText env messages (withUrl (VString []) options)
     /\ toText env messages options
        = toText env messages (withUrl VUndefined options))
    /\ (forall s,
          url options = VString s -> s <> [] -> isValidUrl env (VString s) = true ->
          toText env messages options
          = trim (str "chat url: " ++ s ++ nl ++ nl
                  ++ join separator (blocks env options messages))).
Proof.
  intros env messages options. split.
  - intros Hbad.
    assert (Hno : ~ (exists s, url options = VString s /\ s <> []
                               /\ isValidUrl env (VString s) = true)).
    { intros (s & Hu & Hs & Hv).
      destruct Hbad as [H | [H | [H | [H | H]]]].
      - rewrite Hu in H. injection H as H. contradiction.
      - now apply (H s).
      - destruct H as (s' & Hu' & Hn). rewrite Hu in Hu'. injection Hu' as <-.
        unfold isValidUrl in Hv. rewrite Hn in Hv. discriminate.
      - destruct H as (s' & u & Hu' & Hn & Hh). rewrite Hu in Hu'. injection Hu' as <-.
        unfold isValidUrl in Hv. rewrite Hn, Hh in Hv.
        destruct (negb _) in Hv; discriminate.
      - rewrite Hu in H. congruence. }
    rewrite !toText_join. rewrite (urlPreamble_rejects env options Hno).
    repeat split; reflexivity.
  - intros s Hu Hs Hv. rewrite toText_join.
    rewrite (urlPreamble_accepts env options s Hu Hs Hv).
    now rewrite <- !app_assoc.
Qed.

Lemma url_preamble_only_when_valid_witness :
  toText browser [userHi] (withUrl (VString (str "https://evil.com")) noOptions)
  = toText browser [userHi]
      (withUrl (VString []) (withUrl (VString (str "https://evil.com")) noOptions))
  /\ toText browser [userHi] (withUrl (VString chatUrl) noOptions)
     = trim (str "chat url: " ++ chatUrl ++ nl ++ nl
             ++ join separator
                  (blocks browser (withUrl (VString chatUrl) noOptions) [userHi])).
Proof.
  split.
  - refine (proj1 (proj2 (proj1 (url_preamble_only_when_valid browser [userHi]
             (withUrl (VString (str "https://evil.com")) noOptions)) _))).
    right. right. right. right. vm_compute. reflexivity.
  - refine (proj2 (url_preamble_only_when_valid browser [userHi]
                    (withUrl (VString chatUrl) noOptions)) chatUrl _ _ _).
    + reflexivity.
    + discriminate.
    + vm_compute. reflexivity.
Defined.

(** C8.  [processConversation] returns the same string whatever the value of
    the [includeTimestamps] option, in particular for [true] and [false]. *)
Theorem includeTimestamps_inert :
  forall env conversationData format options t1 t2,
    processConversation env conversationData format (withTimestamps t1 options)
    = processConversation env conversationData format (withTimestamps t2 options).
Proof.
  intros env conversationData format options t1 t2.
  unfold processConversation. apply toText_options. reflexivity.
Qed.

(** C10.  [processConversation] returns the same string for every value of
    [format]: it is the result of [toText] on the options with their defaults,
    the plain-text pipeline.  With format ['markdown'] a list still comes out
    with the bullets of the text flattener, where [htmlToMarkdown] writes
    dashes. *)
Theorem format_ignored :
  (forall env conversationData format1 format2 options,
      processConversation env conversationData format1 options
      = processConversation env conversationData format2 options)
  /\ (forall env conversationData format options,
         processConversation env conversationData format options
         = toText env conversationData
             {| includeTimestamps := withDefault (VBool false) (includeTimestamps options);
                includeMetadata := withDefault (VBool true) (includeMetadata options);
                platform := withDefault (VString (str "unknown")) (platform options);
                url := withDefault (VString []) (url options) |})
  /\ processConversation browser [{| role := str "user"; content := bulletList |}]
       (VString (str "markdown")) noOptions
     = str "User:" ++ nl ++ nl ++ bullet ++ str " a" ++ nl ++ bullet ++ str " b"
  /\ htmlToMarkdown browser bulletList = str "- a" ++ nl ++ str "- b" ++ nl ++ nl.
Proof.
  split; [reflexivity|]. split; [reflexivity|]. split; vm_compute; reflexivity.
Qed.

(* ---------------------------------------------------------------------- *)
(** ** The caller's records *)

Lemma heap_forEachMessage :
  forall env options count index text (st : Heap.Store),
    index + count = List.length st ->
    Heap.forEachMessage env options count index text st
    = (forEachMessage env options (Z.of_nat (List.length st)) (Z.of_nat index)
         (skipn index st) text, st).
Proof.
  intros env options count.
  induction count as [|count IH]; intros index text st Hlen.
  - cbn [Heap.forEachMessage]. unfold Heap.ret.
    rewrite skipn_all2 by lia. reflexivity.
  - assert (Hlt : index < List.length st) by lia.
    destruct (nth_error st index) as [m|] eqn:Hm;
      [|apply nth_error_None in Hm; lia].
    assert (Hskip : skipn index st = m :: skipn (S index) st).
    { clear - Hm. revert index Hm.
      induction st as [|x st IHst]; intros [|i] Hm; simpl in *; try discriminate.
      - now injection Hm as ->.
      - now apply IHst. }
    rewrite Hskip. cbn [forEachMessage Heap.forEachMessage].
    unfold Heap.bind at 1. unfold Heap.messageToText, Heap.bind, Heap.readRole,
      Heap.readContent, Heap.ret, Heap.readLength.
    rewrite Hm. rewrite IH by lia.
    unfold messageToText. cbn [app].
    replace (Z.of_nat (S index)) with (Z.of_nat index + 1)%Z by lia.
    reflexivity.
Qed.

Lemma heap_toText :
  forall env options (st : Heap.Store),
    Heap.toText env options st = (toText env st options, st).
Proof.
  intros env options st. unfold Heap.toText, Heap.bind, Heap.readLength, Heap.ret.
  rewrite heap_forEachMessage by lia. reflexivity.
Qed.

(** An assignment to a field would show in the store. *)
Lemma heap_write_visible :
  snd (Heap.writeContent 0 (str "changed") [userHi]) <> [userHi].
Proof. discriminate. Qed.

(** C9.  A call of the assembler on the caller's array hands the store back as
    it was: every message has the role and the content it had before, and the
    string returned is that of [processConversation] (of [toText]) on those
    records. *)
Theorem caller_records_unchanged :
  forall env format options (st : Heap.Store),
    snd (Heap.processConversation env format options st) = st
    /\ snd (Heap.toText env options st) = st
    /\ (forall i, option_map role
                    (nth_error (snd (Heap.processConversation env format options st)) i)
                  = option_map role (nth_error st i)
                  /\ option_map content
                       (nth_error (snd (Heap.processConversation env format options st)) i)
                     = option_map content (nth_error st i))
    /\ fst (Heap.processConversation env format options st)
       = processConversation env st format options
    /\ fst (Heap.toText env options st) = toText env st options.
Proof.
  intros env format options st.
  unfold Heap.processConversation, processConversation.
  rewrite !heap_toText. cbn [fst snd]. repeat split; reflexivity.
Qed.

(* ---------------------------------------------------------------------- *)
(** ** Trimming and line breaks *)

Lemma hasVisible_app :
  forall a b, hasVisible (a ++ b) = hasVisible a || hasVisible b.
Proof. intros. apply existsb_app. Qed.

Lemma hasVisible_rev : forall s, hasVisible (rev s) = hasVisible s.
Proof.
  intros s. unfold hasVisible. induction s as [|c s IH]; [reflexivity|].
  simpl. rewrite existsb_app, IH. simpl. rewrite orb_false_r. apply orb_comm.
Qed.

Lemma hasVisible_nonNewline :
  forall s, hasVisible s = true -> hasNonNewline s = true.
Proof.
  intros s H. apply existsb_exists in H as [c [Hin Hc]].
  apply existsb_exists. exists c. split; [assumption|].
  destruct (N.eqb c 10) eqn:E; [|reflexivity].
  apply N.eqb_eq in E. subst. discriminate.
Qed.

Lemma trimStart_app :
  forall a b, hasVisible a = true -> trimStart (a ++ b) = trimStart a ++ b.
Proof.
  induction a as [|c a IH]; intros b H; [discriminate|].
  simpl in *. destruct (isWhiteSpace c); simpl in H; [now apply IH | reflexivity].
Qed.

Lemma trimStart_split :
  forall s, exists w, s = w ++ trimStart s /\ hasVisible w = false.
Proof.
  induction s as [|c s [w [Hs Hw]]].
  - now exists [].
  - simpl. destruct (isWhiteSpace c) eqn:E.
    + exists (c :: w). split; [simpl; congruence|].
      simpl. now rewrite E.
    + now exists [].
Qed.

Lemma hasVisible_trimStart : forall s, hasVisible (trimStart s) = hasVisible s.
Proof.
  intros s. destruct (trimStart_split s) as [w [Hs Hw]].
  rewrite Hs at 2. now rewrite hasVisible_app, Hw.
Qed.

Lemma trimEnd_app :
  forall a b, hasVisible b = true -> trimEnd (a ++ b) = a ++ trimEnd b.
Proof.
  intros a b H. unfold trimEnd.
  rewrite rev_app_distr, trimStart_app by now rewrite hasVisible_rev.
  now rewrite rev_app_distr, rev_involutive.
Qed.

Lemma trimEnd_split :
  forall s, exists w, s = trimEnd s ++ w /\ hasVisible w = false.
Proof.
  intros s. destruct (trimStart_split (rev s)) as [w [Hs Hw]].
  exists (rev w). split.
  - unfold trimEnd. rewrite <- rev_app_distr, <- Hs. now rewrite rev_involutive.
  - now rewrite hasVisible_rev.
Qed.

Lemma hasVisible_trimEnd : forall s, hasVisible (trimEnd s) = hasVisible s.
Proof.
  intros s. unfold trimEnd. now rewrite hasVisible_rev, hasVisible_trimStart, hasVisible_rev.
Qed.

Lemma trim_app :
  forall a b,
    hasVisible a = true -> hasVisible b = true ->
    trim (a ++ b) = trimStart a ++ trimEnd b.
Proof.
  intros a b Ha Hb. unfold trim.
  now rewrite trimStart_app, trimEnd_app.
Qed.

Lemma leadingNewlines_app :
  forall a b, hasNonNewline a = true -> leadingNewlines (a ++ b) = leadingNewlines a.
Proof.
  induction a as [|c a IH]; intros b H; [discriminate|].
  simpl in *. destruct (N.eqb c 10); simpl in H; [f_equal; now apply IH | reflexivity].
Qed.

Lemma hasNonNewline_rev : forall s, hasNonNewline (rev s) = hasNonNewline s.
Proof.
  intros s. unfold hasNonNewline. induction s as [|c s IH]; [reflexivity|].
  simpl. rewrite existsb_app, IH. simpl. rewrite orb_false_r. apply orb_comm.
Qed.

Lemma trailingNewlines_app :
  forall a b, hasNonNewline b = true -> trailingNewlines (a ++ b) = trailingNewlines b.
Proof.
  intros a b H. unfold trailingNewlines.
  rewrite rev_app_distr. apply leadingNewlines_app. now rewrite hasNonNewline_rev.
Qed.

Lemma trailingNewlines_trimStart :
  forall s, hasVisible s = true -> trailingNewlines (trimStart s) = trailingNewlines s.
Proof.
  intros s H. destruct (trimStart_split s) as [w [Hs Hw]].
  rewrite Hs at 2. symmetry. apply trailingNewlines_app.
  apply hasVisible_nonNewline. now rewrite hasVisible_trimStart.
Qed.

Lemma leadingNewlines_trimEnd :
  forall s, hasVisible s = true -> leadingNewlines (trimEnd s) = leadingNewlines s.
Proof.
  intros s H. destruct (trimEnd_split s) as [w [Hs Hw]].
  rewrite Hs at 2. symmetry. apply leadingNewlines_app.
  apply hasVisible_nonNewline. now rewrite hasVisible_trimEnd.
Qed.

Lemma firstn_length_app :
  forall (a b : jsstring), firstn (List.length a) (a ++ b) = a.
Proof. induction a as [|c a IH]; intros b; simpl; [reflexivity | now rewrite IH]. Qed.

Lemma skipn_length_app :
  forall (a b : jsstring), skipn (List.length a) (a ++ b) = b.
Proof. induction a as [|c a IH]; intros b; simpl; [reflexivity | apply IH]. Qed.

(** Every block shows its colon. *)
Lemma block_visible :
  forall env options m, hasVisible (messageToText env m options) = true.
Proof.
  intros env options m. unfold messageToText. cbn [app].
  rewrite !hasVisible_app. replace (hasVisible (str ":")) with true by reflexivity.
  now rewrite orb_true_r.
Qed.

Lemma join_snoc :
  forall sep l b, exists front, join sep (l ++ [b]) = front ++ b.
Proof.
  intros sep l b. induction l as [|x l [front IH]].
  - now exists [].
  - destruct l as [|y l].
    + exists (x ++ sep). simpl. now rewrite <- app_assoc.
    + exists (x ++ sep ++ front). cbn [app] in *. rewrite join_cons2, IH.
      now rewrite <- !app_assoc.
Qed.

Lemma join_app :
  forall sep l1 b l2,
    l1 <> [] ->
    join sep (l1 ++ b :: l2) = join sep l1 ++ sep ++ join sep (b :: l2).
Proof.
  intros sep l1 b l2. induction l1 as [|x l1 IH]; intros Hne; [contradiction|].
  destruct l1 as [|y l1].
  - reflexivity.
  - cbn [app] in *. rewrite !join_cons2, IH by discriminate.
    now rewrite <- !app_assoc.
Qed.

Lemma join_head :
  forall sep b l, exists rest, join sep (b :: l) = b ++ rest.
Proof.
  intros sep b [|y l].
  - exists []. simpl. now rewrite app_nil_r.
  - exists (sep ++ join sep (y :: l)). reflexivity.
Qed.

Lemma nth_error_split_two :
  forall (l : list jsstring) k b1 b2,
    nth_error l k = Some b1 -> nth_error l (S k) = Some b2 ->
    exists l1 l2, l = l1 ++ b1 :: b2 :: l2 /\ firstn (S k) l = l1 ++ [b1].
Proof.
  induction l as [|x l IH]; intros [|k] b1 b2 H1 H2; simpl in *; try discriminate.
  - injection H1 as ->. destruct l as [|y l]; [discriminate|].
    simpl in H2. injection H2 as ->. exists [], l. split; reflexivity.
  - destruct (IH k b1 b2 H1 H2) as (l1 & l2 & Hl & Hf).
    exists (x :: l1), l2. split; [simpl; congruence|].
    simpl. simpl in Hf. now rewrite Hf.
Qed.

Lemma block_in_blocks_visible :
  forall env options messages k b,
    nth_error (blocks env options messages) k = Some b -> hasVisible b = true.
Proof.
  intros env options messages k b H. apply nth_error_In in H.
  unfold blocks in H. apply in_map_iff in H as [m [<- _]]. apply block_visible.
Qed.

Lemma blankLinesAfterBlock_count :
  forall env messages options k b1 b2,
    nth_error (blocks env options messages) k = Some b1 ->
    nth_error (blocks env options messages) (S k) = Some b2 ->
    blankLinesAfterBlock env messages options k
    = trailingNewlines b1 + 1 + leadingNewlines b2.
Proof.
  intros env messages options k b1 b2 H1 H2.
  pose proof (block_in_blocks_visible _ _ _ _ _ H1) as V1.
  pose proof (block_in_blocks_visible _ _ _ _ _ H2) as V2.
  destruct (nth_error_split_two _ _ _ _ H1 H2) as (l1 & l2 & Hl & Hf).
  unfold blankLinesAfterBlock, blockEnd. rewrite toText_join, Hf, Hl.
  replace (l1 ++ b1 :: b2 :: l2) with ((l1 ++ [b1]) ++ b2 :: l2)
    by now rewrite <- app_assoc.
  rewrite (join_app separator (l1 ++ [b1]) b2 l2) by (destruct l1; simpl; discriminate).
  destruct (join_snoc separator l1 b1) as [front Hfront].
  destruct (join_head separator b2 l2) as [rest Hrest].
  rewrite (app_assoc (urlPreamble env options)).
  set (X := urlPreamble env options ++ join separator (l1 ++ [b1])).
  set (Y := separator ++ join separator (b2 :: l2)).
  assert (HX : hasVisible X = true).
  { unfold X. rewrite Hfront, !hasVisible_app, V1. now rewrite !orb_true_r. }
  assert (HY : hasVisible Y = true).
  { unfold Y. rewrite Hrest, !hasVisible_app, V2. now rewrite orb_true_r. }
  rewrite trim_app, firstn_length_app, skipn_length_app by assumption.
  rewrite trailingNewlines_trimStart, leadingNewlines_trimEnd by assumption.
  assert (TX : trailingNewlines X = trailingNewlines b1).
  { unfold X. rewrite Hfront, app_assoc.
    apply trailingNewlines_app. now apply hasVisible_nonNewline. }
  assert (LY : leadingNewlines Y = 2 + leadingNewlines b2).
  { unfold Y. rewrite Hrest. unfold separator, nl. cbn [app leadingNewlines N.eqb Pos.eqb].
    rewrite leadingNewlines_app by now apply hasVisible_nonNewline. reflexivity. }
  rewrite TX, LY. lia.
Qed.

(** C3, as the code has it.  The text that [toText] trims is the preamble
    followed by the blocks joined by the two-unit separator, with nothing after
    the last block.  Between two consecutive blocks the document has one blank
    line, plus one for every line break that ends the first block or starts the
    second: never none, and exactly one when the blocks carry no line break at
    that edge. *)
Theorem blocks_joined_by_separator :
  forall env messages options,
    toText env messages options
    = trim (urlPreamble env options
            ++ join separator (blocks env options messages))
    /\ (forall front b,
           blocks env options messages = front ++ [b] ->
           exists before,
             urlPreamble env options ++ join separator (blocks env options messages)
             = before ++ b)
    /\ (forall k b1 b2,
           nth_error (blocks env options messages) k = Some b1 ->
           nth_error (blocks env options messages) (S k) = Some b2 ->
           blankLinesAfterBlock env messages options k
           = trailingNewlines b1 + 1 + leadingNewlines b2).
Proof.
  intros env messages options. split; [apply toText_join|]. split.
  - intros front b Hb. rewrite Hb.
    destruct (join_snoc separator front b) as [f Hf].
    exists (urlPreamble env options ++ f). now rewrite Hf, app_assoc.
  - apply blankLinesAfterBlock_count.
Qed.

Lemma blocks_joined_by_separator_witness :
  blankLinesAfterBlock worker
    [ {| role := str "user"; content := str "Hi" |};
      {| role := str "assistant"; content := str "Yo" |} ] noOptions 0
  = trailingNewlines (str "User:" ++ nl ++ str "Hi") + 1
    + leadingNewlines (str "Assistant:" ++ nl ++ str "Yo").
Proof.
  refine (proj2 (proj2 (blocks_joined_by_separator worker
            [ {| role := str "user"; content := str "Hi" |};
              {| role := str "assistant"; content := str "Yo" |} ] noOptions))
            0 _ _ _ _).
  - vm_compute. reflexivity.
  - vm_compute. reflexivity.
Defined.

(** Two paragraphs in a content script: two blank lines between the blocks. *)
Lemma two_blank_lines_between_paragraphs :
  ~ oneBlankLineBetweenBlocks browser [userHi; assistantYo] noOptions.
Proof.
  intros H. specialize (H 0 (Nat.lt_succ_diag_r 1)).
  vm_compute in H. discriminate.
Qed.

Example two_paragraphs_document :
  toText browser [userHi; assistantYo] noOptions
  = str "User:" ++ nl ++ nl ++ str "Hi" ++ nl ++ nl ++ nl
        ++ str "Assistant:" ++ nl ++ nl ++ str "Yo".
Proof. vm_compute. reflexivity. Qed.

(** An empty message gives the same picture in every environment. *)
Example empty_message_document :
  forall env,
    toText env [ {| role := str "user"; content := [] |};
                 {| role := str "assistant"; content := str "x" |} ] noOptions
    = trim (str "User:" ++ nl ++ nl ++ nl
            ++ str "Assistant:" ++ nl ++ htmlToText env (str "x")).
Proof. intros env. reflexivity. Qed.

(* ---------------------------------------------------------------------- *)
(** ** One paragraph with a URL *)

(** C2 as stated fails in a content script: after the header line comes a
    blank line, not the text. *)
Lemma user_hi_not_on_next_line :
  startsWith (toText browser [userHi] (withUrl (VString chatUrl) noOptions))
             (chatUrlPreamble ++ str "User:" ++ nl ++ str "Hi")
  = false.
Proof. vm_compute. reflexivity. Qed.

(** C2, as the code has it.  With the URL accepted, the single user message
    [<p>Hi</p>] gives the preamble followed by the header line, a blank line
    and the text where a document exists (the paragraph is flattened to its
    text between two line breaks), and the header line directly followed by the
    text where none exists (the fallback stripper). *)
Theorem user_hi_document :
  forall env options,
    url options = VString chatUrl ->
    isValidUrl env (VString chatUrl) = true ->
    (documentDefined env = true ->
     parseFromString env paragraphHi = Some (page [] [el "p" [txt "Hi"]]) ->
     toText env [userHi] options
     = chatUrlPreamble ++ str "User:" ++ nl ++ nl ++ str "Hi")
    /\ (documentDefined env = false ->
        toText env [userHi] options
        = chatUrlPreamble ++ str "User:" ++ nl ++ str "Hi").
Proof.
  intros env options Hurl Hvalid.
  assert (Hpre : urlPreamble env options = chatUrlPreamble).
  { rewrite (urlPreamble_accepts env options chatUrl Hurl) by (assumption || discriminate).
    reflexivity. }
  split.
  - intros Hdoc Hparse. rewrite toText_join, Hpre.
    unfold blocks, messageToText, htmlToText, safeSetHTML. cbn [map content userHi].
    rewrite Hdoc, Hparse. vm_compute. reflexivity.
  - intros Hdoc. rewrite toText_join, Hpre.
    unfold blocks, messageToText, htmlToText. cbn [map content userHi].
    rewrite Hdoc. vm_compute. reflexivity.
Qed.

Lemma user_hi_document_witness :
  toText browser [userHi] (withUrl (VString chatUrl) noOptions)
  = chatUrlPreamble ++ str "User:" ++ nl ++ nl ++ str "Hi"
  /\ toText worker [userHi] (withUrl (VString chatUrl) noOptions)
     = chatUrlPreamble ++ str "User:" ++ nl ++ str "Hi".
Proof.
  split.
  - refine (proj1 (user_hi_document browser (withUrl (VString chatUrl) noOptions) _ _) _ _);
      vm_compute; reflexivity.
  - refine (proj2 (user_hi_document worker (withUrl (VString chatUrl) noOptions) _ _) _);
      vm_compute; reflexivity.
Defined.

(* ===================================================================== *)
(** * Sanitizer *)
(* ===================================================================== *)

(** ** Attributes *)

Lemma removeAttribute_In :
  forall name attrs a, In a (removeAttribute name attrs) -> In a attrs.
Proof.
  intros name attrs a. induction attrs as [|[n v] rest IH]; simpl; [easy|].
  destruct (seqb n name); simpl; intuition.
Qed.

Lemma removeAttribute_shift :
  forall attrs i name v,
    nth_error attrs i = Some (name, v) ->
    forall j, i <= j ->
              nth_error (removeAttribute name attrs) j = nth_error attrs (S j).
Proof.
  induction attrs as [|[n0 v0] rest IH]; intros i name v Hi j Hij.
  - destruct i; discriminate.
  - simpl. destruct (seqb n0 name) eqn:E; [reflexivity|].
    destruct i as [|i].
    + simpl in Hi. injection Hi as -> ->. now rewrite seqb_refl in E.
    + destruct j as [|j]; [lia|]. simpl in Hi. simpl.
      apply (IH i name v Hi). lia.
Qed.

Lemma removeAttribute_length :
  forall attrs i name v,
    nth_error attrs i = Some (name, v) ->
    S (List.length (removeAttribute name attrs)) = List.length attrs.
Proof.
  induction attrs as [|[n0 v0] rest IH]; intros i name v Hi.
  - destruct i; discriminate.
  - simpl. destruct (seqb n0 name) eqn:E; [reflexivity|].
    destruct i as [|i].
    + simpl in Hi. injection Hi as -> ->. now rewrite seqb_refl in E.
    + simpl in Hi. simpl. f_equal. now apply (IH i name v).
Qed.

(** The loop never reads past the end of the attribute list. *)
Lemma removeEventHandlers_checked :
  forall count attrs,
    count <= List.length attrs ->
    removeEventHandlersChecked count attrs = Some (removeEventHandlers count attrs).
Proof.
  induction count as [|i IH]; intros attrs Hlen; [reflexivity|].
  cbn [removeEventHandlers removeEventHandlersChecked]. destruct (nth_error attrs i) as [[name v]|] eqn:Hi.
  - destruct (startsWith (toLowerCase name) (str "on")).
    + apply IH. pose proof (removeAttribute_length attrs i name v Hi). lia.
    + apply IH. lia.
  - apply nth_error_None in Hi. lia.
Qed.

Lemma removeEventHandlers_In :
  forall count attrs a, In a (removeEventHandlers count attrs) -> In a attrs.
Proof.
  induction count as [|i IH]; intros attrs a H; [assumption|].
  cbn [removeEventHandlers] in H. destruct (nth_error attrs i) as [[name v]|]; [|now apply IH].
  destruct (startsWith (toLowerCase name) (str "on")); [|now apply IH].
  apply IH in H. now apply removeAttribute_In in H.
Qed.

(** The invariant of the downward loop: everything at index [count] and above
    is already free of event handlers. *)
Lemma removeEventHandlers_clean :
  forall count attrs,
    count <= List.length attrs ->
    (forall j a, count <= j -> nth_error attrs j = Some a -> isEventHandler a = false) ->
    forall a, In a (removeEventHandlers count attrs) -> isEventHandler a = false.
Proof.
  induction count as [|i IH]; intros attrs Hlen Hinv a Ha.
  - simpl in Ha. apply In_nth_error in Ha as [j Hj]. apply (Hinv j a); [lia | assumption].
  - cbn [removeEventHandlers] in Ha. destruct (nth_error attrs i) as [[name v]|] eqn:Hi;
      [|apply nth_error_None in Hi; lia].
    destruct (startsWith (toLowerCase name) (str "on")) eqn:Hon.
    + apply (IH (removeAttribute name attrs)); [| |assumption].
      * pose proof (removeAttribute_length attrs i name v Hi). lia.
      * intros j b Hj Hb.
        rewrite (removeAttribute_shift attrs i name v Hi j Hj) in Hb.
        apply (Hinv (S j) b); [lia | assumption].
    + apply (IH attrs); [lia | | assumption].
      intros j b Hj Hb. destruct (Nat.eq_dec j i) as [->|Hne].
      * rewrite Hi in Hb. injection Hb as <-. exact Hon.
      * apply (Hinv j b); [lia | assumption].
Qed.

Lemma removeIfDangerous_In :
  forall attrs name a, In a (removeIfDangerous attrs name) -> In a attrs.
Proof.
  intros attrs name a. unfold removeIfDangerous.
  destruct (getAttribute name attrs) as [v|]; [|easy].
  destruct (negb (seqb v []) && isDangerous v); [apply removeAttribute_In | easy].
Qed.

Lemma fold_removeIfDangerous_In :
  forall names attrs a,
    In a (fold_left removeIfDangerous names attrs) -> In a attrs.
Proof.
  induction names as [|n names IH]; intros attrs a H; [assumption|].
  simpl in H. apply IH in H. now apply removeIfDangerous_In in H.
Qed.

Lemma sanitizeAttributes_no_handler :
  forall attrs a, In a (sanitizeAttributes attrs) -> isEventHandler a = false.
Proof.
  intros attrs a H. unfold sanitizeAttributes in H.
  apply fold_removeIfDangerous_In in H.
  apply (removeEventHandlers_clean (List.length attrs) attrs); [lia | | assumption].
  intros j b Hj Hb. assert (j < List.length attrs); [|lia].
  apply nth_error_Some. congruence.
Qed.

Lemma existsb_name_In :
  forall n (rest : list attribute),
    existsb (fun a => seqb (fst a) n) rest = false ->
    forall v, ~ In (n, v) rest.
Proof.
  intros n rest H v Hin.
  assert (existsb (fun a => seqb (fst a) n) rest = true); [|congruence].
  apply existsb_exists. exists (n, v). split; [assumption | apply seqb_refl].
Qed.

Lemma uniqueNames_removeAttribute :
  forall name attrs,
    uniqueNames attrs = true -> uniqueNames (removeAttribute name attrs) = true.
Proof.
  intros name attrs. induction attrs as [|[n v] rest IH]; intros H; [reflexivity|].
  simpl in *. apply andb_true_iff in H as [Hn Hrest].
  destruct (seqb n name); [assumption|].
  simpl. rewrite IH by assumption. rewrite andb_true_r.
  apply negb_true_iff in Hn. apply negb_true_iff.
  destruct (existsb (fun a => seqb (fst a) n) (removeAttribute name rest)) eqn:E;
    [|reflexivity].
  apply existsb_exists in E as [a [Ha Hf]]. apply removeAttribute_In in Ha.
  rewrite <- Hn. symmetry. apply existsb_exists. now exists a.
Qed.

Lemma removeAttribute_absent :
  forall name attrs,
    uniqueNames attrs = true -> forall v, ~ In (name, v) (removeAttribute name attrs).
Proof.
  intros name attrs. induction attrs as [|[n v0] rest IH]; intros H v Hin; [easy|].
  simpl in *. apply andb_true_iff in H as [Hn Hrest].
  destruct (seqb n name) eqn:E.
  - apply seqb_eq in E. subst n. apply negb_true_iff in Hn.
    now apply (existsb_name_In name rest Hn v).
  - destruct Hin as [Heq | Hin].
    + injection Heq as -> ->. now rewrite seqb_refl in E.
    + now apply (IH Hrest v).
Qed.

Lemma getAttribute_unique :
  forall name attrs v,
    uniqueNames attrs = true -> In (name, v) attrs -> getAttribute name attrs = Some v.
Proof.
  intros name attrs v. induction attrs as [|[n v0] rest IH]; intros H Hin; [easy|].
  simpl in *. apply andb_true_iff in H as [Hn Hrest].
  destruct Hin as [Heq | Hin].
  - injection Heq as -> ->. now rewrite seqb_refl.
  - destruct (seqb n name) eqn:E; [|now apply IH].
    apply seqb_eq in E. subst n. apply negb_true_iff in Hn.
    now destruct (existsb_name_In name rest Hn v).
Qed.

Lemma uniqueNames_removeEventHandlers :
  forall count attrs,
    uniqueNames attrs = true -> uniqueNames (removeEventHandlers count attrs) = true.
Proof.
  induction count as [|i IH]; intros attrs H; [assumption|].
  cbn [removeEventHandlers]. destruct (nth_error attrs i) as [[name v]|]; [|now apply IH].
  destruct (startsWith (toLowerCase name) (str "on")); [|now apply IH].
  apply IH. now apply uniqueNames_removeAttribute.
Qed.

Lemma uniqueNames_removeIfDangerous :
  forall attrs name,
    uniqueNames attrs = true -> uniqueNames (removeIfDangerous attrs name) = true.
Proof.
  intros attrs name H. unfold removeIfDangerous.
  destruct (getAttribute name attrs) as [v|]; [|assumption].
  destruct (negb (seqb v []) && isDangerous v); [|assumption].
  now apply uniqueNames_removeAttribute.
Qed.

Lemma removeIfDangerous_safe :
  forall attrs name v,
    uniqueNames attrs = true ->
    In (name, v) (removeIfDangerous attrs name) -> isDangerous v = false.
Proof.
  intros attrs name v Hu Hin. unfold removeIfDangerous in Hin.
  destruct (getAttribute name attrs) as [v0|] eqn:Hget.
  - destruct (negb (seqb v0 []) && isDangerous v0) eqn:Hd.
    + now destruct (removeAttribute_absent name attrs Hu v).
    + rewrite (getAttribute_unique name attrs v Hu Hin) in Hget.
      injection Hget as <-. apply andb_false_iff in Hd as [Hd | Hd]; [|assumption].
      apply negb_false_iff, seqb_eq in Hd. subst v. reflexivity.
  - rewrite (getAttribute_unique name attrs v Hu Hin) in Hget. discriminate.
Qed.

Lemma fold_removeIfDangerous_safe :
  forall names attrs,
    uniqueNames attrs = true ->
    forall a, In a (fold_left removeIfDangerous names attrs) ->
              In (fst a) names -> isDangerous (snd a) = false.
Proof.
  induction names as [|n names IH]; intros attrs Hu a Ha Hn; [easy|].
  simpl in Ha.
  destruct (in_dec (list_eq_dec N.eq_dec) (fst a) names) as [Hin | Hout].
  - apply (IH (removeIfDangerous attrs n)); try assumption.
    now apply uniqueNames_removeIfDangerous.
  - destruct Hn as [Heq | Hn]; [|contradiction].
    apply fold_removeIfDangerous_In in Ha. destruct a as [n' v].
    simpl in Heq. subst n'. now apply (removeIfDangerous_safe attrs n v).
Qed.

(** The sanitizer's test is the test for a dangerous URL attribute. *)
Lemma isDangerousUrlAttribute_test :
  forall a,
    isDangerousUrlAttribute a
    = existsb (seqb (fst a)) urlAttributeNames && isDangerous (snd a).
Proof.
  intros [name value].
  unfold isDangerousUrlAttribute, isUrlAttributeName, startsWithScheme, isDangerous,
    urlAttributeNames, dangerousAttrs.
  cbn [fst snd existsb]. now rewrite !orb_false_r, !orb_assoc.
Qed.

Lemma sanitizeAttributes_no_dangerous_url :
  forall attrs,
    uniqueNames attrs = true ->
    forall a, In a (sanitizeAttributes attrs) -> isDangerousUrlAttribute a = false.
Proof.
  intros attrs Hu a Ha. rewrite isDangerousUrlAttribute_test.
  destruct (existsb (seqb (fst a)) urlAttributeNames) eqn:E; [|reflexivity].
  apply existsb_seqb_In in E. simpl.
  apply (fold_removeIfDangerous_safe urlAttributeNames
           (removeEventHandlers (List.length attrs) attrs)); try assumption.
  now apply uniqueNames_removeEventHandlers.
Qed.

(** ** Elements of the sanitized tree *)

Lemma hasTag_cons :
  forall t tags n, hasTag (t :: tags) n = hasTag [t] n || hasTag tags n.
Proof.
  intros t tags [d|d|tag a kids]; try reflexivity.
  simpl. now rewrite orb_false_r.
Qed.

Lemma removeBelow_tag :
  forall tag tags n, hasTag tags (removeBelow tag n) = hasTag tags n.
Proof. intros tag tags [d|d|t a kids]; reflexivity. Qed.

Lemma removeBelow_attributes :
  forall tag n, attributesOf (removeBelow tag n) = attributesOf n.
Proof. intros tag [d|d|t a kids]; reflexivity. Qed.

Lemma sanitizeElement_tag :
  forall tags n, hasTag tags (sanitizeElement n) = hasTag tags n.
Proof. intros tags [d|d|t a kids]; reflexivity. Qed.

Lemma sanitizeElement_attributes :
  forall n, attributesOf (sanitizeElement n) = sanitizeAttributes (attributesOf n).
Proof. intros [d|d|t a kids]; reflexivity. Qed.

(** The children that survive the removal of [tag]. *)
Lemma removed_children :
  forall tag kids e,
    In e (descendants
            (flat_map (fun k => if hasTag [tag] k then [] else [removeBelow tag k]) kids)) ->
    exists k, In k kids /\ hasTag [tag] k = false
              /\ In e (elementsIn (removeBelow tag k)).
Proof.
  intros tag kids e H. unfold descendants in H.
  apply in_flat_map in H as [k' [Hk' He]].
  apply in_flat_map in Hk' as [k [Hk Hin]].
  destruct (hasTag [tag] k) eqn:E; [easy|].
  destruct Hin as [<- | []]. now exists k.
Qed.

Lemma removeBelow_elements :
  forall tag n e,
    In e (elementsIn (removeBelow tag n)) ->
    exists e0, In e0 (elementsIn n) /\ e = removeBelow tag e0.
Proof.
  intros tag n. induction n as [d|d|t a kids IH] using node_ind; intros e H; try easy.
  cbn [removeBelow elementsIn] in H. destruct H as [<- | H].
  - exists (Element t a kids). split; [now left | reflexivity].
  - apply removed_children in H as (k & Hk & _ & He).
    rewrite Forall_forall in IH. destruct (IH k Hk e He) as (e0 & He0 & ->).
    exists e0. split; [|reflexivity].
    right. apply in_flat_map. now exists k.
Qed.

Lemma removeBelow_no_tag :
  forall tag n e,
    hasTag [tag] n = false ->
    In e (elementsIn (removeBelow tag n)) -> hasTag [tag] e = false.
Proof.
  intros tag n. induction n as [d|d|t a kids IH] using node_ind; intros e Hn H; try easy.
  cbn [removeBelow elementsIn] in H. destruct H as [<- | H].
  - exact Hn.
  - apply removed_children in H as (k & Hk & Hkt & He).
    rewrite Forall_forall in IH. now apply (IH k Hk e).
Qed.

Lemma removeAll_elements :
  forall tag doc e,
    In e (descendants (removeAll tag doc)) ->
    hasTag [tag] e = false
    /\ exists e0, In e0 (descendants doc) /\ e = removeBelow tag e0.
Proof.
  intros tag doc e H. apply removed_children in H as (k & Hk & Hkt & He). split.
  - now apply (removeBelow_no_tag tag k).
  - destruct (removeBelow_elements tag k e He) as (e0 & He0 & ->).
    exists e0. split; [|reflexivity].
    unfold descendants. apply in_flat_map. now exists k.
Qed.

Lemma sanitizeElement_elements :
  forall n e,
    In e (elementsIn (sanitizeElement n)) ->
    exists e0, In e0 (elementsIn n) /\ e = sanitizeElement e0.
Proof.
  induction n as [d|d|t a kids IH] using node_ind; intros e H; try easy.
  cbn [sanitizeElement elementsIn] in H. destruct H as [<- | H].
  - exists (Element t a kids). split; [now left | reflexivity].
  - apply in_flat_map in H as [k' [Hk' He]].
    apply in_map_iff in Hk' as [k [<- Hk]].
    rewrite Forall_forall in IH. destruct (IH k Hk e He) as (e0 & He0 & ->).
    exists e0. split; [|reflexivity].
    right. apply in_flat_map. now exists k.
Qed.

(** Every element of the sanitized document is the sanitized image of an
    element of the parsed document, and is neither a script nor a style. *)
Lemma sanitizeDocument_elements :
  forall doc e,
    In e (descendants (sanitizeDocument doc)) ->
    isExecutable e = false
    /\ exists e0, In e0 (descendants doc)
                  /\ attributesOf e = sanitizeAttributes (attributesOf e0).
Proof.
  intros doc e H. unfold sanitizeDocument, descendants in H.
  apply in_flat_map in H as [k' [Hk' He]].
  apply in_map_iff in Hk' as [k [<- Hk]].
  destruct (sanitizeElement_elements k e He) as (e1 & He1 & ->).
  assert (H1 : In e1 (descendants (removeAll (str "style") (removeAll (str "script") doc)))).
  { unfold descendants. apply in_flat_map. now exists k. }
  apply removeAll_elements in H1 as (Hstyle & e2 & H2 & ->).
  apply removeAll_elements in H2 as (Hscript & e3 & H3 & ->).
  split.
  - unfold isExecutable. rewrite sanitizeElement_tag, hasTag_cons.
    rewrite Hstyle, removeBelow_tag, Hscript. reflexivity.
  - exists e3. split; [assumption|].
    now rewrite sanitizeElement_attributes, !removeBelow_attributes.
Qed.

Lemma wellFormed_element :
  forall doc e,
    wellFormed doc = true -> In e (descendants doc) ->
    uniqueNames (attributesOf e) = true.
Proof.
  intros doc e Hwf He. unfold wellFormed in Hwf.
  rewrite forallb_forall in Hwf. now apply Hwf.
Qed.




(* ===================================================================== *)
(** * Markdown tables *)
(* ===================================================================== *)

Lemma tableRow_first :
  forall env markdown row,
    tableRow env markdown 0 row = markdown ++ rowLine env row ++ separatorLine row.
Proof.
  intros env markdown row. unfold tableRow, rowLine, separatorLine, pipeRow, cellText.
  fold (cellsOf row). cbn [Nat.eqb andb].
  destruct (cellsOf row) as [|c cells] eqn:E.
  - cbn [List.length Nat.ltb Nat.leb map]. now rewrite app_nil_r.
  - cbn [List.length Nat.ltb Nat.leb]. now rewrite <- ?app_assoc.
Qed.

Lemma tableRow_later :
  forall env markdown rowIndex row,
    tableRow env markdown (S rowIndex) row = markdown ++ rowLine env row.
Proof.
  intros env markdown rowIndex row. unfold tableRow, rowLine, pipeRow, cellText.
  fold (cellsOf row). cbn [Nat.eqb andb]. now rewrite <- ?app_assoc.
Qed.

Lemma tableRows_later :
  forall env rows rowIndex markdown,
    tableRows env (S rowIndex) rows markdown
    = markdown ++ flat_map (rowLine env) rows.
Proof.
  intros env rows. induction rows as [|row rows IH]; intros rowIndex markdown.
  - simpl. now rewrite app_nil_r.
  - cbn [tableRows flat_map]. rewrite IH, tableRow_later. now rewrite <- app_assoc.
Qed.

Lemma escapePipes_escaped :
  forall s prev, everyPipeEscaped prev (escapePipes s) = true.
Proof.
  induction s as [|c s IH]; intros prev; [reflexivity|].
  unfold escapePipes in *. cbn [flat_map]. destruct (N.eqb c 124) eqn:E.
  - cbn [app everyPipeEscaped]. rewrite IH. reflexivity.
  - cbn [app everyPipeEscaped]. rewrite E, IH. reflexivity.
Qed.

Lemma everyPipeEscaped_prefix :
  forall a b prev,
    everyPipeEscaped prev (a ++ b) = true -> everyPipeEscaped prev a = true.
Proof.
  induction a as [|c a IH]; intros b prev H; [reflexivity|].
  cbn [app everyPipeEscaped] in *. apply andb_true_iff in H as [H1 H2].
  rewrite H1. now apply (IH b).
Qed.

Lemma everyPipeEscaped_trimStart :
  forall s prev,
    N.eqb prev 92 = false ->
    everyPipeEscaped prev s = true -> everyPipeEscaped 0 (trimStart s) = true.
Proof.
  induction s as [|c s IH]; intros prev Hp H; [reflexivity|].
  cbn [everyPipeEscaped trimStart] in *. apply andb_true_iff in H as [H1 H2].
  destruct (isWhiteSpace c) eqn:W.
  - apply (IH c); [|assumption].
    destruct (N.eqb c 92) eqn:E; [|reflexivity].
    apply N.eqb_eq in E. subst c. discriminate.
  - cbn [everyPipeEscaped]. rewrite H2, Hp in *. rewrite orb_false_r in H1.
    now rewrite H1.
Qed.

Lemma everyPipeEscaped_trim :
  forall s, everyPipeEscaped 0 s = true -> everyPipeEscaped 0 (trim s) = true.
Proof.
  intros s H. unfold trim.
  destruct (trimEnd_split (trimStart s)) as [w [Hs _]].
  apply (everyPipeEscaped_prefix _ w). rewrite <- Hs.
  now apply (everyPipeEscaped_trimStart s 0).
Qed.

Lemma tableToMarkdown_shape :
  forall env tableElement,
    tableToMarkdown env tableElement
    = match querySelectorAll [str "tr"] (childNodesOf tableElement) with
      | [] => []
      | first :: rest =>
          nl ++ rowLine env first ++ separatorLine first
             ++ flat_map (rowLine env) rest ++ nl
      end.
Proof.
  intros env tableElement. unfold tableToMarkdown.
  destruct (querySelectorAll [str "tr"] (childNodesOf tableElement)) as [|first rest].
  - reflexivity.
  - cbn [List.length Nat.eqb tableRows].
    rewrite tableRows_later, tableRow_first. now rewrite <- !app_assoc.
Qed.

(** C5 as stated fails on the sample table: the output starts with a line
    break, which no number of trailing blank lines accounts for. *)
Lemma table_output_starts_with_newline :
  ~ upToTrailingBlankLines tableLines (tableToMarkdown browser smallTableNode).
Proof.
  intros [k H]. vm_compute in H. discriminate.
Qed.

(** C5, as the code has it.  A table without rows renders to the empty
    string.  Otherwise the output is a line break, one pipe-delimited line per
    row whose cells are the inner HTML of the cell flattened to text, with
    every pipe escaped and the result trimmed, the separator line with one
    [---] per cell right after the first row when that row has a cell, and a
    closing line break.  On the sample table that is the three lines stated,
    preceded by one line break and followed by one. *)
Theorem tableToMarkdown_rows :
  (forall env tableElement,
      tableToMarkdown env tableElement
      = match querySelectorAll [str "tr"] (childNodesOf tableElement) with
        | [] => []
        | first :: rest =>
            nl ++ rowLine env first ++ separatorLine first
               ++ flat_map (rowLine env) rest ++ nl
        end)
  /\ (forall env cell, everyPipeEscaped 0 (cellText env cell) = true)
  /\ (forall env,
         innerHTML env [txt "A"] = str "A" ->
         innerHTML env [txt "1"] = str "1" ->
         (documentDefined env = true ->
          parseFromString env (str "A") = Some (page [] [txt "A"])
          /\ parseFromString env (str "1") = Some (page [] [txt "1"])) ->
         tableToMarkdown env smallTableNode = nl ++ tableLines ++ nl
         /\ (documentDefined env = true ->
             parseFromString env smallTable = Some (page [] [smallTableNode]) ->
             htmlToMarkdown env smallTable = nl ++ tableLines ++ nl)).
Proof.
  split; [|split].
  - apply tableToMarkdown_shape.
  - intros env cell. unfold cellText. apply everyPipeEscaped_trim, escapePipes_escaped.
  - intros env HA H1 Hparse.
    assert (Hcells : forall c,
               (c = str "A" \/ c = str "1") ->
               innerHTML env [Text c] = c ->
               (documentDefined env = true ->
                parseFromString env c = Some (page [] [Text c])) ->
               cellText env (Element (str "td") [] [Text c]) = c
               /\ cellText env (Element (str "th") [] [Text c]) = c).
    { intros c Hc Hser Hp. unfold cellText, htmlToText, safeSetHTML.
      cbn [childNodesOf]. rewrite Hser.
      destruct (documentDefined env).
      - rewrite (Hp eq_refl). destruct Hc as [-> | ->]; split; vm_compute; reflexivity.
      - destruct Hc as [-> | ->]; split; vm_compute; reflexivity. }
    destruct (Hcells (str "A") (or_introl eq_refl) HA (fun d => proj1 (Hparse d)))
      as [_ HthA].
    destruct (Hcells (str "1") (or_intror eq_refl) H1 (fun d => proj2 (Hparse d)))
      as [Htd1 _].
    assert (Htable : tableToMarkdown env smallTableNode = nl ++ tableLines ++ nl).
    { rewrite tableToMarkdown_shape.
      replace (querySelectorAll [str "tr"] (childNodesOf smallTableNode))
        with [el "tr" [el "th" [txt "A"]]; el "tr" [el "td" [txt "1"]]]
        by (vm_compute; reflexivity).
      unfold rowLine, separatorLine.
      replace (cellsOf (el "tr" [el "th" [txt "A"]])) with [el "th" [txt "A"]]
        by (vm_compute; reflexivity).
      cbn [flat_map].
      replace (cellsOf (el "tr" [el "td" [txt "1"]])) with [el "td" [txt "1"]]
        by (vm_compute; reflexivity).
      cbn [map]. unfold el, txt in *. rewrite HthA, Htd1. vm_compute. reflexivity. }
    split; [exact Htable|].
    intros Hdoc Hp. unfold htmlToMarkdown, safeSetHTML. rewrite Hdoc, Hp.
    replace (seqb smallTable []) with false by reflexivity. cbn [negb].
    replace (body (sanitizeDocument (page [] [smallTableNode])))
      with (Some (Element (str "body") [] [smallTableNode]))
      by (vm_compute; reflexivity).
    cbn [childNodesOf processElementToMarkdown].
    replace (tagOf smallTableNode) with (str "table") by reflexivity.
    replace (seqb (str "table") (str "table")) with true by reflexivity.
    rewrite Htable. reflexivity.
Qed.

Lemma tableToMarkdown_rows_witness :
  tableToMarkdown browser smallTableNode = nl ++ tableLines ++ nl
  /\ htmlToMarkdown browser smallTable = nl ++ tableLines ++ nl.
Proof.
  destruct tableToMarkdown_rows as (_ & _ & Hsample).
  destruct (Hsample browser) as [Htable Hmarkdown].
  - reflexivity.
  - reflexivity.
  - intros _. split; reflexivity.
  - split; [exact Htable|]. apply Hmarkdown; reflexivity.
Defined.

(* ===================================================================== *)
(** * The list pass of the text flattener *)
(* ===================================================================== *)


(** No element matched by [f] is left below a replaced node. *)
Lemma replaceElements_none_left :
  forall (f : node -> option jsstring) tags,
    (forall e, hasTag tags e = true -> f e <> None) ->
    forall n e, In e (elementsIn (replaceElements f n)) -> hasTag tags e = false.
Proof.
  intros f tags Hf n.
  induction n as [d|d|t a kids IH] using node_ind; intros e H; try easy.
  cbn [replaceElements] in H.
  destruct (f (Element t a kids)) as [txt|] eqn:E; [easy|].
  cbn [elementsIn] in H. destruct H as [<- | H].
  - destruct (hasTag tags (Element t a (map (replaceElements f) kids))) eqn:Ht;
      [|reflexivity].
    exfalso. apply (Hf (Element t a kids)); assumption.
  - apply in_flat_map in H as [k' [Hk' He]].
    apply in_map_iff in Hk' as [k [<- Hk]].
    rewrite Forall_forall in IH. now apply (IH k Hk).
Qed.








(* ===================================================================== *)
(** * Further properties: strings *)
(* ===================================================================== *)

Lemma trimStart_fixed :
  forall s, trimStart (trimStart s) = trimStart s.
Proof.
  induction s as [|c s IH]; [reflexivity|].
  simpl. destruct (isWhiteSpace c) eqn:E; [assumption|].
  simpl. now rewrite E.
Qed.

Lemma hasVisible_false_trimStart :
  forall s, hasVisible s = false -> trimStart s = [].
Proof.
  induction s as [|c s IH]; intros H; [reflexivity|].
  simpl in *. destruct (isWhiteSpace c); simpl in H; [now apply IH | discriminate].
Qed.

(** Trimming the end of a string that starts with a visible unit leaves the
    start alone. *)
Lemma trimStart_trimEnd :
  forall s, trimStart s = s -> trimStart (trimEnd s) = trimEnd s.
Proof.
  intros s Hs. destruct (trimEnd_split s) as [w [Hsplit Hw]].
  destruct (trimEnd s) as [|c t] eqn:E; [reflexivity|].
  rewrite Hsplit in Hs. simpl in Hs. simpl.
  destruct (isWhiteSpace c); [|reflexivity].
  exfalso.
  assert (Hlen : List.length (trimStart (t ++ w)) <= List.length (t ++ w)).
  { clear. induction (t ++ w) as [|x l IH]; simpl; [lia|].
    destruct (isWhiteSpace x); simpl; lia. }
  rewrite Hs in Hlen. simpl in Hlen. lia.
Qed.

Lemma trim_fixed : forall s, trim (trim s) = trim s.
Proof.
  intros s. unfold trim.
  rewrite (trimStart_trimEnd (trimStart s)) by apply trimStart_fixed.
  unfold trimEnd. rewrite rev_involutive, trimStart_fixed. reflexivity.
Qed.

Lemma singleSpaced_weaken :
  forall s b, singleSpaced b s = true -> singleSpaced false s = true.
Proof.
  intros [|c s] b H; [reflexivity|].
  simpl in *. destruct (N.eqb c 32); [|assumption].
  apply andb_true_iff in H as [_ H]. now rewrite H.
Qed.

Lemma singleSpaced_prefix :
  forall a b afterSpace,
    singleSpaced afterSpace (a ++ b) = true -> singleSpaced afterSpace a = true.
Proof.
  induction a as [|c a IH]; intros b afterSpace H; [reflexivity|].
  cbn [app singleSpaced] in *. destruct (N.eqb c 32).
  - apply andb_true_iff in H as [H1 H2]. rewrite H1. now apply (IH b).
  - apply andb_true_iff in H as [H1 H2]. rewrite H1. now apply (IH b).
Qed.

Lemma singleSpaced_trimStart :
  forall s afterSpace,
    singleSpaced afterSpace s = true -> singleSpaced false (trimStart s) = true.
Proof.
  induction s as [|c s IH]; intros afterSpace H; [reflexivity|].
  cbn [trimStart]. destruct (isWhiteSpace c) eqn:W.
  - cbn [singleSpaced] in H. destruct (N.eqb c 32).
    + apply andb_true_iff in H as [_ H]. now apply (IH true).
    + rewrite W in H. discriminate.
  - now apply (singleSpaced_weaken _ afterSpace).
Qed.

Lemma singleSpaced_trim :
  forall s afterSpace,
    singleSpaced afterSpace s = true -> singleSpaced false (trim s) = true.
Proof.
  intros s afterSpace H. unfold trim.
  destruct (trimEnd_split (trimStart s)) as [w [Hs _]].
  apply (singleSpaced_prefix _ w). rewrite <- Hs.
  now apply (singleSpaced_trimStart s afterSpace).
Qed.

Lemma collapseWhiteSpace_singleSpaced :
  forall s inRun, singleSpaced inRun (collapseWhiteSpace inRun s) = true.
Proof.
  induction s as [|c s IH]; intros inRun; [reflexivity|].
  cbn [collapseWhiteSpace]. destruct (isWhiteSpace c) eqn:W.
  - destruct inRun; [apply IH|].
    cbn [singleSpaced]. rewrite N.eqb_refl. apply IH.
  - cbn [singleSpaced]. rewrite W.
    destruct (N.eqb c 32) eqn:E; [|apply IH].
    apply N.eqb_eq in E. subst c. discriminate.
Qed.

Lemma singleSpaced_no_line_break :
  forall s afterSpace,
    singleSpaced afterSpace s = true ->
    forall c, In c s -> isWhiteSpace c = true -> c = 32%N.
Proof.
  induction s as [|x s IH]; intros afterSpace H c Hin Hw; [easy|].
  cbn [singleSpaced] in H. destruct (N.eqb x 32) eqn:E.
  - apply andb_true_iff in H as [_ H]. destruct Hin as [<- | Hin].
    + now apply N.eqb_eq.
    + now apply (IH true).
  - apply andb_true_iff in H as [Hx H]. destruct Hin as [<- | Hin].
    + rewrite Hw in Hx. discriminate.
    + now apply (IH false).
Qed.

Lemma singleSpaced_no_double_space :
  forall s afterSpace,
    singleSpaced afterSpace s = true -> includes s (str "  ") = false.
Proof.
  induction s as [|x s IH]; intros afterSpace H; [reflexivity|].
  cbn [includes]. cbn [singleSpaced] in H. destruct (N.eqb x 32) eqn:E.
  - apply andb_true_iff in H as [_ H]. rewrite (IH true H), orb_false_r.
    change (str "  ") with [32%N; 32%N]. cbn [startsWith]. rewrite E.
    destruct s as [|y s]; [reflexivity|].
    cbn [singleSpaced] in H. destruct (N.eqb y 32); [discriminate | reflexivity].
  - apply andb_true_iff in H as [_ H]. rewrite (IH false H), orb_false_r.
    change (str "  ") with [32%N; 32%N]. cbn [startsWith]. now rewrite E.
Qed.

(** X1.  The fallback stripper returns a single line in normal form: the
    result is its own trim, its only white space is the space, and no two
    spaces are adjacent. *)
Theorem stripHtmlTags_normal_form :
  forall html,
    trim (stripHtmlTags html) = stripHtmlTags html
    /\ (forall c, In c (stripHtmlTags html) -> isWhiteSpace c = true -> c = 32%N)
    /\ includes (stripHtmlTags html) (str "  ") = false
    /\ includes (stripHtmlTags html) nl = false.
Proof.
  intros html.
  assert (Hs : singleSpaced false (stripHtmlTags html) = true).
  { unfold stripHtmlTags. destruct (seqb html []); [reflexivity|].
    apply (singleSpaced_trim _ false), collapseWhiteSpace_singleSpaced. }
  split; [|split; [|split]].
  - unfold stripHtmlTags. destruct (seqb html []); [reflexivity | apply trim_fixed].
  - now apply (singleSpaced_no_line_break _ false).
  - now apply (singleSpaced_no_double_space _ false).
  - pose proof (singleSpaced_no_line_break _ false Hs) as Hline.
    clear Hs. induction (stripHtmlTags html) as [|x s IH]; [reflexivity|].
    cbn [includes]. rewrite IH by (intros c Hc; apply Hline; now right).
    rewrite orb_false_r. unfold nl. cbn [startsWith]. rewrite andb_true_r.
    destruct (N.eqb x 10) eqn:E; [|reflexivity].
    apply N.eqb_eq in E. subst x.
    specialize (Hline 10%N (or_introl eq_refl) eq_refl). discriminate.
Qed.

(** X2.  The assembled document is its own trim: it neither starts nor ends
    with white space.  For an empty conversation it is the trimmed preamble,
    which is the empty string when the URL is not accepted. *)
Theorem toText_trimmed :
  forall env conversationData options,
    trim (toText env conversationData options) = toText env conversationData options
    /\ toText env [] options = trim (urlPreamble env options)
    /\ (truthy (url options) && isValidUrl env (url options) = false ->
        toText env [] options = []).
Proof.
  intros env conversationData options. split; [|split].
  - rewrite toText_join. apply trim_fixed.
  - rewrite toText_join. cbn [blocks map join]. now rewrite app_nil_r.
  - intros H. rewrite toText_join. unfold urlPreamble. rewrite H. reflexivity.
Qed.

Lemma toText_trimmed_witness :
  toText browser [] (withUrl (VString (str "https://evil.com")) noOptions) = [].
Proof.
  apply (proj2 (proj2 (toText_trimmed browser []
           (withUrl (VString (str "https://evil.com")) noOptions)))).
  vm_compute. reflexivity.
Defined.

(* ===================================================================== *)
(** * Further properties: the passes of the text flattener *)
(* ===================================================================== *)

Lemma filter_flat_map :
  forall (A : Type) (keep : N -> bool) (g : A -> jsstring) (l : list A),
    filter keep (flat_map g l) = flat_map (fun x => filter keep (g x)) l.
Proof.
  intros A keep g l. induction l as [|x l IH]; [reflexivity|].
  simpl. now rewrite filter_app, IH.
Qed.

Lemma flat_map_ext_Forall :
  forall (A : Type) (g h : A -> jsstring) (l : list A),
    Forall (fun x => g x = h x) l -> flat_map g l = flat_map h l.
Proof.
  intros A g h l H. induction H as [|x l Hx _ IH]; [reflexivity|].
  simpl. now rewrite Hx, IH.
Qed.

(** A pass that replaces elements by texts with the same kept units keeps
    those units of the whole text. *)
Lemma replaceElements_keeps :
  forall (keep : N -> bool) (f : node -> option jsstring) n,
    (forall e t, In e (elementsIn n) -> f e = Some t ->
                 filter keep t = filter keep (textContent e)) ->
    filter keep (textContent (replaceElements f n)) = filter keep (textContent n).
Proof.
  intros keep f n. induction n as [d|d|t a kids IH] using node_ind; intros Hf;
    try reflexivity.
  cbn [replaceElements]. destruct (f (Element t a kids)) as [txt|] eqn:E.
  - cbn [textContent]. apply (Hf (Element t a kids) txt); [now left | assumption].
  - cbn [textContent]. rewrite !filter_flat_map, flat_map_concat_map, map_map,
      <- flat_map_concat_map.
    apply flat_map_ext_Forall. rewrite Forall_forall in *. intros k Hk.
    apply (IH k Hk). intros e txt He. apply Hf. right.
    apply in_flat_map. now exists k.
Qed.

Lemma replaceElements_list_keeps :
  forall (keep : N -> bool) (f : node -> option jsstring) kids,
    (forall e t, In e (descendants kids) -> f e = Some t ->
                 filter keep t = filter keep (textContent e)) ->
    filter keep (textOf (map (replaceElements f) kids)) = filter keep (textOf kids).
Proof.
  intros keep f kids Hf. unfold textOf.
  rewrite !filter_flat_map, flat_map_concat_map, map_map, <- flat_map_concat_map.
  apply flat_map_ext_Forall. rewrite Forall_forall. intros k Hk.
  apply replaceElements_keeps. intros e t He. apply Hf.
  unfold descendants. apply in_flat_map. now exists k.
Qed.

(** What is left of the tree after a pass: images of the elements the pass
    did not replace. *)
Lemma replaceElements_elements :
  forall (f : node -> option jsstring) n e,
    In e (elementsIn (replaceElements f n)) ->
    exists e0, In e0 (elementsIn n) /\ f e0 = None /\ e = replaceElements f e0.
Proof.
  intros f n. induction n as [d|d|t a kids IH] using node_ind; intros e H; try easy.
  cbn [replaceElements] in H.
  destruct (f (Element t a kids)) as [txt|] eqn:E; [easy|].
  cbn [elementsIn] in H. destruct H as [<- | H].
  - exists (Element t a kids). split; [now left|]. split; [assumption|].
    cbn [replaceElements]. now rewrite E.
  - apply in_flat_map in H as [k' [Hk' He]].
    apply in_map_iff in Hk' as [k [<- Hk]].
    rewrite Forall_forall in IH. destruct (IH k Hk e He) as (e0 & He0 & Hn & ->).
    exists e0. split; [|split; [assumption | reflexivity]].
    right. apply in_flat_map. now exists k.
Qed.

Lemma replaceElements_tag :
  forall f tags e,
    f e = None -> hasTag tags (replaceElements f e) = hasTag tags e.
Proof.
  intros f tags [d|d|t a kids] H; try reflexivity.
  cbn [replaceElements]. now rewrite H.
Qed.

Lemma querySelectorAll_nil :
  forall tags kids,
    (forall e, In e (descendants kids) -> hasTag tags e = false) ->
    querySelectorAll tags kids = [].
Proof.
  intros tags kids H. unfold querySelectorAll.
  induction (descendants kids) as [|x l IH]; [reflexivity|].
  cbn [filter]. rewrite (H x (or_introl eq_refl)).
  apply IH. intros e He. apply H. now right.
Qed.

Lemma pass_none_left :
  forall (f : node -> option jsstring) tags kids,
    (forall e, hasTag tags e = true -> f e <> None) ->
    querySelectorAll tags (map (replaceElements f) kids) = [].
Proof.
  intros f tags kids Hf. apply querySelectorAll_nil.
  intros e He. unfold descendants in He.
  apply in_flat_map in He as [k' [Hk' He]].
  apply in_map_iff in Hk' as [k [<- Hk]].
  revert He. now apply replaceElements_none_left.
Qed.

Lemma tableToText_fold :
  forall rows text,
    fold_left
      (fun text row =>
         let cells := querySelectorAll [str "td"; str "th"] (childNodesOf row) in
         let cellContents := map (fun cell => trim (textContent cell)) cells in
         text ++ join tab cellContents ++ nl)
      rows text
    = text ++ flat_map textRow rows.
Proof.
  induction rows as [|row rows IH]; intros text.
  - simpl. now rewrite app_nil_r.
  - cbn [fold_left flat_map]. rewrite IH. unfold textRow, cellsOf.
    now rewrite <- !app_assoc.
Qed.

(** X3.  [tableToText] writes a line break, one line per row with the
    trimmed texts of its cells joined by tabs, and a line break; a table
    without rows becomes two line breaks.  After the table pass no [table]
    is left in the tree, and after the code pass no [pre] and no [code]. *)
Theorem table_and_code_passes :
  (forall tableElement,
      tableToText tableElement
      = nl ++ flat_map textRow
                (querySelectorAll [str "tr"] (childNodesOf tableElement)) ++ nl)
  /\ (forall kids, querySelectorAll [str "table"] (processTablesForText kids) = [])
  /\ (forall kids,
         querySelectorAll [str "pre"; str "code"] (processCodeBlocksForText kids) = []).
Proof.
  split; [|split].
  - intros tableElement. unfold tableToText. rewrite tableToText_fold.
    now rewrite <- app_assoc.
  - intros kids. apply pass_none_left. intros e He. rewrite He. discriminate.
  - intros kids. apply pass_none_left. intros e He. rewrite He. discriminate.
Qed.

Lemma withoutNewlines_app :
  forall a b, withoutNewlines (a ++ b) = withoutNewlines a ++ withoutNewlines b.
Proof. intros. apply filter_app. Qed.

Lemma withoutNewlines_insertSpacers :
  forall (after : node -> node) kids prev,
    Forall (fun k => withoutNewlines (textContent (after k))
                     = withoutNewlines (textContent k)) kids ->
    withoutNewlines (textOf (insertSpacers after prev kids))
    = withoutNewlines (textOf kids).
Proof.
  intros after kids. induction kids as [|k rest IH]; intros prev H; [reflexivity|].
  inversion H as [|? ? Hk Hrest]; subst.
  cbn [insertSpacers]. unfold textOf in *. destruct (isElement k).
  - rewrite flat_map_app. cbn [flat_map]. rewrite !withoutNewlines_app.
    rewrite (IH (Some k) Hrest), Hk.
    destruct prev as [current|]; [destruct (needsSpacer current k)|]; reflexivity.
  - cbn [flat_map]. rewrite !withoutNewlines_app.
    now rewrite (IH prev Hrest), Hk.
Qed.

Lemma withoutNewlines_spaceContainers :
  forall n,
    withoutNewlines (textContent (spaceContainers n)) = withoutNewlines (textContent n).
Proof.
  induction n as [d|d|t a kids IH] using node_ind; try reflexivity.
  cbn [spaceContainers]. destruct (hasTag containerTags (Element t a kids)).
  - cbn [textContent]. now apply (withoutNewlines_insertSpacers spaceContainers kids None).
  - cbn [textContent]. unfold withoutNewlines.
    rewrite !filter_flat_map, flat_map_concat_map, map_map, <- flat_map_concat_map.
    now apply flat_map_ext_Forall.
Qed.

Lemma withoutNewlines_addSpacing :
  forall kids,
    withoutNewlines (textOf (addSpacingBetweenSiblings kids))
    = withoutNewlines (textOf kids).
Proof.
  intros kids. unfold addSpacingBetweenSiblings, processDirectChildren.
  rewrite (withoutNewlines_insertSpacers (fun k => k)) by (apply Forall_forall; reflexivity).
  unfold textOf, withoutNewlines.
  rewrite !filter_flat_map, flat_map_concat_map, map_map, <- flat_map_concat_map.
  apply flat_map_ext_Forall, Forall_forall. intros k _.
  apply withoutNewlines_spaceContainers.
Qed.

(** X4.  The code pass and the sibling-spacing step change the text of the
    tree by line breaks only: without its line breaks the text is what it was. *)
Theorem code_and_spacing_add_line_breaks_only :
  forall kids,
    withoutNewlines (textOf (processCodeBlocksForText kids))
    = withoutNewlines (textOf kids)
    /\ withoutNewlines (textOf (addSpacingBetweenSiblings kids))
       = withoutNewlines (textOf kids).
Proof.
  intros kids. split; [|apply withoutNewlines_addSpacing].
  apply replaceElements_list_keeps. intros e t _ H.
  destruct (hasTag [str "pre"; str "code"] e); [|discriminate].
  injection H as <-. cbn [filter N.eqb Pos.eqb negb]. rewrite filter_app.
  unfold nl. cbn [filter N.eqb Pos.eqb negb]. apply app_nil_r.
Qed.

Lemma visibleText_withoutNewlines :
  forall s, visibleText (withoutNewlines s) = visibleText s.
Proof.
  induction s as [|c s IH]; [reflexivity|].
  unfold visibleText, withoutNewlines in *. cbn [filter].
  destruct (N.eqb c 10) eqn:E.
  - apply N.eqb_eq in E. subst c. cbn [negb isWhiteSpace]. exact IH.
  - cbn [negb filter]. now rewrite IH.
Qed.

Lemma visibleText_of_withoutNewlines :
  forall a b, withoutNewlines a = withoutNewlines b -> visibleText a = visibleText b.
Proof.
  intros a b H.
  now rewrite <- (visibleText_withoutNewlines a), H, visibleText_withoutNewlines.
Qed.

Lemma visibleText_blank :
  forall s, hasVisible s = false -> visibleText s = [].
Proof.
  induction s as [|c s IH]; intros H; [reflexivity|].
  unfold visibleText, hasVisible in *. cbn [existsb filter] in *.
  apply orb_false_iff in H as [Hc Hs]. rewrite Hc. now apply IH.
Qed.

Lemma visibleText_trim : forall s, visibleText (trim s) = visibleText s.
Proof.
  intros s. unfold trim.
  destruct (trimStart_split s) as [w [Hs Hw]].
  destruct (trimEnd_split (trimStart s)) as [w' [Hs' Hw']].
  rewrite Hs at 2. rewrite Hs' at 2. unfold visibleText in *.
  rewrite !filter_app. fold (visibleText w) (visibleText w').
  rewrite (visibleText_blank w Hw), (visibleText_blank w' Hw').
  now rewrite app_nil_r.
Qed.

Lemma visibleText_wrapped :
  forall s, visibleText (nl ++ s ++ nl) = visibleText s.
Proof.
  intros s. unfold visibleText. rewrite !filter_app.
  change (filter (fun c => negb (isWhiteSpace c)) nl) with (@nil N).
  now rewrite app_nil_r.
Qed.

Lemma visibleText_nil_trim : forall s, trim s = [] -> visibleText s = [].
Proof. intros s H. now rewrite <- visibleText_trim, H. Qed.

Lemma insertSpacers_In :
  forall (after : node -> node) kids prev k',
    In k' (insertSpacers after prev kids) ->
    k' = Text nl \/ exists k, In k kids /\ k' = after k.
Proof.
  intros after kids. induction kids as [|k rest IH]; intros prev k' H; [easy|].
  cbn [insertSpacers] in H. destruct (isElement k).
  - apply in_app_or in H as [H | [<- | H]].
    + left. destruct prev as [current|]; [destruct (needsSpacer current k)|];
        simpl in H; intuition.
    + right. exists k. split; [now left | reflexivity].
    + destruct (IH _ _ H) as [-> | (k0 & Hk0 & ->)]; [now left|].
      right. exists k0. split; [now right | reflexivity].
  - destruct H as [<- | H].
    + right. exists k. split; [now left | reflexivity].
    + destruct (IH _ _ H) as [-> | (k0 & Hk0 & ->)]; [now left|].
      right. exists k0. split; [now right | reflexivity].
Qed.

Lemma spaceContainers_elements :
  forall n e,
    In e (elementsIn (spaceContainers n)) ->
    exists e0, In e0 (elementsIn n) /\ e = spaceContainers e0.
Proof.
  induction n as [d|d|t a kids IH] using node_ind; intros e H; try easy.
  rewrite Forall_forall in IH.
  assert (Hkids : forall kids', 
             (forall k', In k' kids' ->
                         k' = Text nl \/ exists k, In k kids /\ k' = spaceContainers k) ->
             In e (flat_map elementsIn kids') ->
             exists e0, In e0 (elementsIn (Element t a kids)) /\ e = spaceContainers e0).
  { intros kids' Hall He. apply in_flat_map in He as [k' [Hk' He]].
    destruct (Hall k' Hk') as [-> | (k & Hk & ->)]; [easy|].
    destruct (IH k Hk e He) as (e0 & He0 & ->).
    exists e0. split; [|reflexivity]. right. apply in_flat_map. now exists k. }
  cbn [spaceContainers] in H. destruct (hasTag containerTags (Element t a kids)) eqn:E.
  - cbn [elementsIn] in H. destruct H as [<- | H].
    + exists (Element t a kids). split; [now left|].
      cbn [spaceContainers]. now rewrite E.
    + apply (Hkids (insertSpacers spaceContainers None kids)); [|assumption].
      intros k' Hk'. now apply (insertSpacers_In spaceContainers kids None).
  - cbn [elementsIn] in H. destruct H as [<- | H].
    + exists (Element t a kids). split; [now left|].
      cbn [spaceContainers]. now rewrite E.
    + apply (Hkids (map spaceContainers kids)); [|assumption].
      intros k' Hk'. apply in_map_iff in Hk' as [k [<- Hk]]. right. now exists k.
Qed.

Lemma spaceContainers_tag :
  forall tags n, hasTag tags (spaceContainers n) = hasTag tags n.
Proof.
  intros tags [d|d|t a kids]; try reflexivity.
  cbn [spaceContainers]. destruct (hasTag containerTags (Element t a kids)); reflexivity.
Qed.

Lemma addSpacing_elements :
  forall kids e,
    In e (descendants (addSpacingBetweenSiblings kids)) ->
    exists e0, In e0 (descendants kids) /\ e = spaceContainers e0.
Proof.
  intros kids e H. unfold addSpacingBetweenSiblings, processDirectChildren, descendants in H.
  apply in_flat_map in H as [k' [Hk' He]].
  apply insertSpacers_In in Hk' as [-> | (k1 & Hk1 & ->)]; [easy|].
  apply in_map_iff in Hk1 as [k [<- Hk]].
  destruct (spaceContainers_elements k e He) as (e0 & He0 & ->).
  exists e0. split; [|reflexivity]. unfold descendants. apply in_flat_map. now exists k.
Qed.

(** X5.  In a tree whose [br] elements have no text, the block pass keeps
    the visible text: it changes white space only.  After the pass no [br] is
    left, and a block-level element that is left has no visible text. *)
Theorem block_pass_keeps_visible_text :
  forall kids,
    (emptyLineBreaks kids = true ->
     visibleText (textOf (processBlockElementsForText kids)) = visibleText (textOf kids))
    /\ querySelectorAll [str "br"] (processBlockElementsForText kids) = []
    /\ (forall e,
           In e (descendants (processBlockElementsForText kids)) ->
           hasTag flattenedBlockTags e = true ->
           visibleText (textContent e) = []).
Proof.
  intros kids. unfold processBlockElementsForText.
  set (lineBreak := fun e : node => if hasTag [str "br"] e then Some nl else None).
  set (block := fun e : node =>
                  if hasTag flattenedBlockTags e
                  then let text := textContent e in
                       if negb (seqb text []) && negb (seqb (trim text) [])
                       then Some (nl ++ trim text ++ nl) else None
                  else None).
  assert (Hblock : forall e t, block e = Some t ->
                               visibleText t = visibleText (textContent e)).
  { intros e t H. unfold block in H.
    destruct (hasTag flattenedBlockTags e); [|discriminate].
    cbn zeta in H.
    destruct (negb (seqb (textContent e) []) && negb (seqb (trim (textContent e)) []));
      [|discriminate].
    assert (Ht : t = nl ++ trim (textContent e) ++ nl) by congruence.
    rewrite Ht, visibleText_wrapped. apply visibleText_trim. }
  split; [|split].
  - intros Hbr. unfold visibleText.
    rewrite (replaceElements_list_keeps _ block) by (intros e t _; apply Hblock).
    rewrite (replaceElements_list_keeps _ lineBreak).
    + apply visibleText_of_withoutNewlines, withoutNewlines_addSpacing.
    + intros e t He H. unfold lineBreak in H.
      destruct (hasTag [str "br"] e) eqn:Hb; [|discriminate]. injection H as <-.
      destruct (addSpacing_elements kids e He) as (e0 & He0 & ->).
      rewrite spaceContainers_tag in Hb.
      unfold emptyLineBreaks in Hbr. rewrite forallb_forall in Hbr.
      specialize (Hbr e0 He0). rewrite Hb in Hbr. cbn [negb orb] in Hbr.
      apply seqb_eq in Hbr.
      fold (visibleText (textContent (spaceContainers e0))).
      rewrite (visibleText_of_withoutNewlines _ _ (withoutNewlines_spaceContainers e0)).
      now rewrite Hbr.
  - apply querySelectorAll_nil. intros e He. unfold descendants in He.
    apply in_flat_map in He as [k' [Hk' He]].
    apply in_map_iff in Hk' as [k [<- Hk]].
    destruct (replaceElements_elements block k e He) as (e0 & He0 & Hn & ->).
    rewrite replaceElements_tag by assumption.
    assert (Hq : querySelectorAll [str "br"]
                   (map (replaceElements lineBreak) (addSpacingBetweenSiblings kids)) = []).
    { apply pass_none_left. intros x Hx. unfold lineBreak. rewrite Hx. discriminate. }
    unfold querySelectorAll in Hq.
    destruct (hasTag [str "br"] e0) eqn:Hb; [|reflexivity].
    assert (Hin : In e0 (filter (hasTag [str "br"])
                           (descendants (map (replaceElements lineBreak)
                                             (addSpacingBetweenSiblings kids))))).
    { apply filter_In. split; [|assumption].
      unfold descendants. apply in_flat_map. now exists k. }
    rewrite Hq in Hin. destruct Hin.
  - intros e He Htag. unfold descendants in He.
    apply in_flat_map in He as [k' [Hk' He]].
    apply in_map_iff in Hk' as [k [<- Hk]].
    destruct (replaceElements_elements block k e He) as (e0 & He0 & Hn & ->).
    rewrite replaceElements_tag in Htag by assumption.
    unfold visibleText.
    rewrite (replaceElements_keeps _ block) by (intros x t _; apply Hblock).
    fold (visibleText (textContent e0)).
    unfold block in Hn. rewrite Htag in Hn. cbn zeta in Hn.
    destruct (seqb (textContent e0) []) eqn:E1.
    + apply seqb_eq in E1. now rewrite E1.
    + destruct (seqb (trim (textContent e0)) []) eqn:E2; [|discriminate].
      apply seqb_eq in E2. now apply visibleText_nil_trim.
Qed.

Lemma block_pass_keeps_visible_text_witness :
  visibleText (textOf (processBlockElementsForText
                         [el "p" [txt "a b"; el "br" []; txt "c"]; el "div" [txt " d "]]))
  = str "abcd".
Proof.
  rewrite (proj1 (block_pass_keeps_visible_text
                    [el "p" [txt "a b"; el "br" []; txt "c"]; el "div" [txt " d "]]))
    by reflexivity.
  reflexivity.
Defined.

(* ===================================================================== *)
(** * Further properties: the sanitizer *)
(* ===================================================================== *)

Lemma removeAttribute_subset_length :
  forall name attrs,
    List.length (removeAttribute name attrs) <= List.length attrs.
Proof.
  intros name attrs. induction attrs as [|[n v] rest IH]; [simpl; lia|].
  simpl. destruct (seqb n name); simpl; lia.
Qed.

(** X6.  The loop that removes event handlers walks the attribute list from
    its last index down while removing from it, and never reads an index
    outside the list; what it leaves are attributes the element had, none of
    them an event handler. *)
Theorem event_handler_loop_in_bounds :
  forall attrs,
    removeEventHandlersChecked (List.length attrs) attrs
    = Some (removeEventHandlers (List.length attrs) attrs)
    /\ (forall a, In a (removeEventHandlers (List.length attrs) attrs) ->
                  In a attrs /\ isEventHandler a = false)
    /\ (forall a, In a attrs -> isEventHandler a = false ->
                  In a (removeEventHandlers (List.length attrs) attrs)).
Proof.
  intros attrs. split; [|split].
  - apply removeEventHandlers_checked. lia.
  - intros a Ha. split; [now apply removeEventHandlers_In in Ha|].
    apply (removeEventHandlers_clean (List.length attrs) attrs); [lia | | assumption].
    intros j b Hj Hb. assert (j < List.length attrs); [|lia].
    apply nth_error_Some. congruence.
  - generalize (List.length attrs) as count. intros count. revert attrs.
    induction count as [|i IH]; intros attrs a Ha Hh; [assumption|].
    cbn [removeEventHandlers].
    destruct (nth_error attrs i) as [[name v]|] eqn:Hi; [|now apply IH].
    destruct (startsWith (toLowerCase name) (str "on")) eqn:Hon; [|now apply IH].
    apply IH; [|assumption].
    clear - Ha Hh Hon. induction attrs as [|[n0 v0] rest IHr]; [easy|].
    simpl. destruct (seqb n0 name) eqn:E.
    + destruct Ha as [<- | Ha]; [|assumption].
      apply seqb_eq in E. subst n0. unfold isEventHandler in Hh. cbn [fst] in Hh. congruence.
    + destruct Ha as [<- | Ha]; [now left | right; now apply IHr].
Qed.

Lemma sanitizeElement_text :
  forall n, textContent (sanitizeElement n) = textContent n.
Proof.
  induction n as [d|d|t a kids IH] using node_ind; try reflexivity.
  cbn [sanitizeElement textContent].
  rewrite flat_map_concat_map, map_map, <- flat_map_concat_map.
  now apply flat_map_ext_Forall.
Qed.

Lemma removeBelow_absent :
  forall tag n,
    (forall e, In e (elementsIn n) -> hasTag [tag] e = false) ->
    removeBelow tag n = n.
Proof.
  intros tag n. induction n as [d|d|t a kids IH] using node_ind; intros H;
    try reflexivity.
  cbn [removeBelow]. f_equal. rewrite Forall_forall in IH.
  assert (Hkids : forall k, In k kids ->
                            hasTag [tag] k = false /\ removeBelow tag k = k).
  { intros k Hk. split.
    - destruct k as [d|d|t' a' kids']; try reflexivity.
      apply H. right. apply in_flat_map. exists (Element t' a' kids').
      split; [assumption | now left].
    - apply (IH k Hk). intros e He. apply H. right. apply in_flat_map. now exists k. }
  clear - Hkids. induction kids as [|k kids IHk]; [reflexivity|].
  cbn [flat_map]. destruct (Hkids k (or_introl eq_refl)) as [-> ->].
  cbn [app]. f_equal. apply IHk. intros k' Hk'. apply Hkids. now right.
Qed.

Lemma removeAll_absent :
  forall tag doc,
    (forall e, In e (descendants doc) -> hasTag [tag] e = false) ->
    removeAll tag doc = doc.
Proof.
  intros tag doc H. unfold removeAll.
  induction doc as [|k doc IH]; [reflexivity|].
  cbn [flat_map].
  assert (Hk : hasTag [tag] k = false).
  { destruct k as [d|d|t a kids]; try reflexivity.
    apply H. unfold descendants. cbn [flat_map]. apply in_or_app. left. now left. }
  rewrite Hk, removeBelow_absent.
  - cbn [app]. f_equal. apply IH. intros e He. apply H.
    unfold descendants in *. cbn [flat_map]. apply in_or_app. now right.
  - intros e He. apply H. unfold descendants. cbn [flat_map]. apply in_or_app. now left.
Qed.

Lemma removeEventHandlers_absent :
  forall count attrs,
    (forall a, In a attrs -> isEventHandler a = false) ->
    removeEventHandlers count attrs = attrs.
Proof.
  induction count as [|i IH]; intros attrs H; [reflexivity|].
  cbn [removeEventHandlers].
  destruct (nth_error attrs i) as [[name v]|] eqn:Hi; [|now apply IH].
  apply nth_error_In in Hi. specialize (H _ Hi) as Hh.
  unfold isEventHandler in Hh. cbn [fst] in Hh. rewrite Hh. now apply IH.
Qed.

Lemma getAttribute_In :
  forall name attrs v, getAttribute name attrs = Some v -> In (name, v) attrs.
Proof.
  intros name attrs v. induction attrs as [|[n v0] rest IH]; intros H; [discriminate|].
  simpl in H. destruct (seqb n name) eqn:E.
  - apply seqb_eq in E. injection H as ->. subst. now left.
  - right. now apply IH.
Qed.

Lemma sanitizeAttributes_absent :
  forall attrs,
    (forall a, In a attrs ->
               isEventHandler a = false /\ isDangerousUrlAttribute a = false) ->
    sanitizeAttributes attrs = attrs.
Proof.
  intros attrs H. unfold sanitizeAttributes.
  rewrite removeEventHandlers_absent by (intros a Ha; now apply H).
  assert (Hfold : forall names,
             (forall n, In n names -> In n urlAttributeNames) ->
             fold_left removeIfDangerous names attrs = attrs).
  { induction names as [|n names IH]; intros Hn; [reflexivity|].
    cbn [fold_left].
    assert (Hstep : removeIfDangerous attrs n = attrs).
    { unfold removeIfDangerous. destruct (getAttribute n attrs) as [v|] eqn:Hg;
        [|reflexivity].
      apply getAttribute_In in Hg. destruct (H _ Hg) as [_ Hd].
      rewrite isDangerousUrlAttribute_test in Hd. cbn [fst snd] in Hd.
      assert (Hin : existsb (seqb n) urlAttributeNames = true).
      { apply existsb_seqb_In. apply Hn. now left. }
      rewrite Hin in Hd. cbn [andb] in Hd. rewrite Hd. now rewrite andb_false_r. }
    rewrite Hstep. apply IH. intros n' Hn'. apply Hn. now right. }
  apply Hfold. auto.
Qed.

Lemma sanitizeElement_absent :
  forall n,
    (forall e, In e (elementsIn n) -> cleanElement e = true) ->
    sanitizeElement n = n.
Proof.
  induction n as [d|d|t a kids IH] using node_ind; intros H; try reflexivity.
  cbn [sanitizeElement]. f_equal.
  - apply sanitizeAttributes_absent. intros x Hx.
    specialize (H (Element t a kids) (or_introl eq_refl)).
    unfold cleanElement in H. apply andb_true_iff in H as [_ H].
    rewrite forallb_forall in H. specialize (H x Hx).
    apply andb_true_iff in H as [H1 H2].
    now rewrite negb_true_iff in H1, H2.
  - rewrite Forall_forall in IH. rewrite <- (map_id kids) at 2.
    apply map_ext_in. intros k Hk. apply (IH k Hk).
    intros e He. apply H. right. apply in_flat_map. now exists k.
Qed.

Lemma cleanElement_tag :
  forall e tag,
    cleanElement e = true -> In tag [str "script"; str "style"] -> hasTag [tag] e = false.
Proof.
  intros e tag H Htag. unfold cleanElement, isExecutable in H.
  apply andb_true_iff in H as [H _]. apply negb_true_iff in H.
  rewrite hasTag_cons in H. apply orb_false_iff in H as [H1 H2].
  destruct Htag as [<- | [<- | []]]; assumption.
Qed.

Lemma sanitizeDocument_clean_fixed :
  forall doc, cleanDocument doc = true -> sanitizeDocument doc = doc.
Proof.
  intros doc H. unfold cleanDocument in H. rewrite forallb_forall in H.
  unfold sanitizeDocument.
  rewrite (removeAll_absent (str "script")), (removeAll_absent (str "style")).
  - rewrite <- (map_id doc) at 2. apply map_ext_in. intros k Hk.
    apply sanitizeElement_absent. intros e He. apply H.
    unfold descendants. apply in_flat_map. now exists k.
  - intros e He. apply cleanElement_tag; [now apply H | simpl; auto].
  - intros e He. apply cleanElement_tag; [now apply H | simpl; auto].
Qed.

(** X7.  The sanitizer returns a document without script or style elements,
    event handlers and dangerous URL attributes as it is.  Hence, attribute
    names being unique within an element, sanitizing twice is sanitizing
    once.  In a document without script and style elements the text stays
    what it was. *)
Theorem sanitizer_idempotent :
  forall doc,
    (cleanDocument doc = true -> sanitizeDocument doc = doc)
    /\ (wellFormed doc = true ->
        sanitizeDocument (sanitizeDocument doc) = sanitizeDocument doc)
    /\ (querySelectorAll [str "script"; str "style"] doc = [] ->
        textOf (sanitizeDocument doc) = textOf doc).
Proof.
  intros doc. split; [apply sanitizeDocument_clean_fixed|]. split.
  - intros Hwf. apply sanitizeDocument_clean_fixed.
    unfold cleanDocument. apply forallb_forall. intros e He.
    destruct (sanitizeDocument_elements doc e He) as (Hexec & e0 & He0 & Hattrs).
    unfold cleanElement. rewrite Hexec. cbn [negb andb].
    apply forallb_forall. intros a Ha. rewrite Hattrs in Ha.
    rewrite (sanitizeAttributes_no_handler _ a Ha).
    rewrite (sanitizeAttributes_no_dangerous_url (attributesOf e0)
               (wellFormed_element doc e0 Hwf He0) a Ha).
    reflexivity.
  - intros Hq.
    assert (Hnone : forall tag, In tag [str "script"; str "style"] ->
                      forall e, In e (descendants doc) -> hasTag [tag] e = false).
    { intros tag Htag e He.
      destruct (hasTag [str "script"; str "style"] e) eqn:E.
      - assert (Hin : In e (querySelectorAll [str "script"; str "style"] doc)).
        { apply filter_In. now split. }
        rewrite Hq in Hin. destruct Hin.
      - rewrite hasTag_cons in E. apply orb_false_iff in E as [E1 E2].
        destruct Htag as [<- | [<- | []]]; assumption. }
    unfold sanitizeDocument.
    rewrite (removeAll_absent (str "script")), (removeAll_absent (str "style")).
    + unfold textOf. rewrite flat_map_concat_map, map_map, <- flat_map_concat_map.
      apply flat_map_ext_Forall, Forall_forall. intros k _. apply sanitizeElement_text.
    + apply Hnone. simpl. auto.
    + apply Hnone. simpl. auto.
Qed.

Lemma sanitizer_idempotent_witness :
  sanitizeDocument (sanitizeDocument unsafeLinkPage) = sanitizeDocument unsafeLinkPage
  /\ textOf (sanitizeDocument unsafeLinkPage) = textOf unsafeLinkPage
  /\ sanitizeDocument (page [] [el "p" [txt "hi"]]) = page [] [el "p" [txt "hi"]].
Proof.
  split; [|split].
  - apply (proj1 (proj2 (sanitizer_idempotent unsafeLinkPage))). reflexivity.
  - apply (proj2 (proj2 (sanitizer_idempotent unsafeLinkPage))). reflexivity.
  - apply (proj1 (sanitizer_idempotent (page [] [el "p" [txt "hi"]]))). reflexivity.
Defined.

(* ===================================================================== *)
(** * Further properties: the Markdown renderer *)
(* ===================================================================== *)

Lemma passThroughTag_spec :
  forall n,
    passThroughTag n = true ->
    seqb (tagOf n) (str "table") = false
    /\ seqb (tagOf n) (str "pre") = false
    /\ lookupConverter (tagOf n) = None.
Proof.
  intros n H. unfold passThroughTag in H.
  apply andb_true_iff in H as [H H3]. apply andb_true_iff in H as [H1 H2].
  rewrite negb_true_iff in H1, H2. repeat split; try assumption.
  destruct (lookupConverter (tagOf n)); [discriminate | reflexivity].
Qed.

Lemma markdown_pass_through_node :
  forall env n,
    (forall e, In e (descendants (childNodesOf n)) -> passThroughTag e = true) ->
    processElementToMarkdown env n = textOf (childNodesOf n).
Proof.
  intros env n. induction n as [d|d|t a kids IH] using node_ind; intros H;
    try reflexivity.
  rewrite Forall_forall in IH. cbn [childNodesOf] in *.
  cbn [processElementToMarkdown].
  match goal with |- ?f kids 0 [] = _ => set (loop := f) end.
  assert (Hloop : forall nodes index result,
             (forall k, In k nodes -> In k kids) ->
             loop nodes index result = result ++ textOf nodes).
  { induction nodes as [|k nodes IHn]; intros index result Hsub.
    - cbn. now rewrite app_nil_r.
    - destruct k as [d|d|t' a' kids'].
      + change (loop (Text d :: nodes) index result)
          with (loop nodes index (result ++ d)).
        rewrite IHn by (intros k Hk; apply Hsub; now right).
        unfold textOf. cbn [flat_map textContent]. now rewrite app_assoc.
      + change (loop (Comment d :: nodes) index result)
          with (loop nodes index result).
        rewrite IHn by (intros k Hk; apply Hsub; now right). reflexivity.
      + assert (Hk : In (Element t' a' kids') kids) by (apply Hsub; now left).
        assert (Hpass : passThroughTag (Element t' a' kids') = true).
        { apply H. unfold descendants. apply in_flat_map.
          exists (Element t' a' kids'). split; [assumption | now left]. }
        destruct (passThroughTag_spec _ Hpass) as (H1 & H2 & H3).
        assert (Hrec : processElementToMarkdown env (Element t' a' kids') = textOf kids').
        { apply (IH _ Hk). intros e He. apply H. unfold descendants.
          apply in_flat_map. exists (Element t' a' kids').
          split; [assumption | now right]. }
        change (loop (Element t' a' kids' :: nodes) index result)
          with (loop nodes (S index)
                  (result ++
                   (if seqb (tagOf (Element t' a' kids')) (str "table")
                    then tableToMarkdown env (Element t' a' kids')
                    else if seqb (tagOf (Element t' a' kids')) (str "pre")
                    then preToMarkdown (Element t' a' kids')
                    else match lookupConverter (tagOf (Element t' a' kids')) with
                         | Some converter =>
                             converter (processElementToMarkdown env (Element t' a' kids'))
                                       (Element t' a' kids') (Element t a kids) index
                         | None => processElementToMarkdown env (Element t' a' kids')
                         end))).
        rewrite H1, H2, H3, Hrec.
        rewrite IHn by (intros k Hk'; apply Hsub; now right).
        unfold textOf. cbn [flat_map textContent]. now rewrite app_assoc. }
  rewrite Hloop by auto. reflexivity.
Qed.

(** X8.  Below an element whose descendants all have tags without a rule,
    the Markdown renderer returns the text content: unknown structure degrades
    to plain text, nothing is added and nothing is lost. *)
Theorem markdown_pass_through :
  forall env t a kids,
    (forall e, In e (descendants kids) -> passThroughTag e = true) ->
    processElementToMarkdown env (Element t a kids) = textOf kids.
Proof.
  intros env t a kids H. now apply (markdown_pass_through_node env (Element t a kids)).
Qed.

Lemma markdown_pass_through_witness :
  processElementToMarkdown browser
    (Element (str "div") []
       [txt "a "; el "span" [txt "b"; el "u" [txt "c"]]; txt " d"])
  = textOf [txt "a "; el "span" [txt "b"; el "u" [txt "c"]]; txt " d"].
Proof.
  apply markdown_pass_through.
  intros e He. vm_compute in He.
  repeat (destruct He as [<- | He]; [reflexivity|]). destruct He.
Defined.

(** The Kelvin sign lower-cases to [k]: an element named with it in place of
    the [k] of [blockquote] has the rule of [blockquote]. *)
Example kelvin_blockquote :
  let quote := Element (str "bloc" ++ [8490%N] ++ str "quote") [] [txt "x"] in
  tagOf quote = str "blockquote"
  /\ passThroughTag quote = false
  /\ processElementToMarkdown browser (Element (str "div") [] [quote])
     = str "> x" ++ nl ++ nl.
Proof. repeat split; vm_compute; reflexivity. Qed.

Lemma splitUnit_nonempty : forall c s, splitUnit c s <> [].
Proof.
  intros c s. destruct s as [|x s]; [discriminate|].
  simpl. destruct (N.eqb x c); [discriminate|].
  destruct (splitUnit c s); discriminate.
Qed.

Lemma splitUnit_no_separator :
  forall c s line, In line (splitUnit c s) -> ~ In c line.
Proof.
  intros c. induction s as [|x s IH]; intros line H.
  - simpl in H. destruct H as [<- | []]. easy.
  - simpl in H. destruct (N.eqb x c) eqn:E.
    + destruct H as [<- | H]; [easy | now apply IH].
    + destruct (splitUnit c s) as [|piece pieces] eqn:Es.
      * destruct H as [<- | []]. intros [-> | []]. now rewrite N.eqb_refl in E.
      * destruct H as [<- | H].
        -- intros [-> | Hin]; [now rewrite N.eqb_refl in E|].
           apply (IH piece); [now left | assumption].
        -- apply IH. now right.
Qed.

Lemma splitUnit_whole :
  forall c s, ~ In c s -> splitUnit c s = [s].
Proof.
  intros c. induction s as [|x s IH]; intros H; [reflexivity|].
  simpl. destruct (N.eqb x c) eqn:E.
  - apply N.eqb_eq in E. subst x. exfalso. apply H. now left.
  - rewrite IH; [reflexivity|]. intros Hin. apply H. now right.
Qed.

Lemma splitUnit_app :
  forall c a b, splitUnit c (a ++ c :: b) = splitUnit c a ++ splitUnit c b.
Proof.
  intros c a b. induction a as [|x a IH].
  - simpl. now rewrite N.eqb_refl.
  - cbn [app splitUnit]. destruct (N.eqb x c); [now rewrite IH|].
    rewrite IH. pose proof (splitUnit_nonempty c a) as Hne.
    destruct (splitUnit c a) as [|piece pieces]; [contradiction | reflexivity].
Qed.

Lemma join_splitUnit :
  forall c s, join [c] (splitUnit c s) = s.
Proof.
  intros c. induction s as [|x s IH]; [reflexivity|].
  simpl. pose proof (splitUnit_nonempty c s) as Hne. destruct (N.eqb x c) eqn:E.
  - apply N.eqb_eq in E. subst x.
    destruct (splitUnit c s) as [|piece pieces]; [contradiction|].
    rewrite join_cons2, IH. reflexivity.
  - destruct (splitUnit c s) as [|piece pieces]; [contradiction|].
    destruct pieces as [|p2 pieces].
    + simpl in *. now rewrite IH.
    + rewrite join_cons2. cbn [app]. f_equal. rewrite <- IH. now rewrite join_cons2.
Qed.

Lemma splitUnit_join :
  forall c lines,
    lines <> [] -> (forall line, In line lines -> ~ In c line) ->
    splitUnit c (join [c] lines) = lines.
Proof.
  intros c lines. induction lines as [|x lines IH]; intros Hne H; [contradiction|].
  destruct lines as [|y lines].
  - simpl. apply splitUnit_whole. apply H. now left.
  - rewrite join_cons2. cbn [app]. rewrite splitUnit_app.
    rewrite splitUnit_whole by (apply H; now left).
    cbn [app]. f_equal. apply IH; [discriminate|].
    intros line Hl. apply H. now right.
Qed.

(** X9.  A [blockquote] is rendered as its own Markdown, every line of it
    after the two units of the quote mark, then a blank line: the quote has the
    lines of the text, in order, and taking the mark off gives the text back. *)
Theorem blockquote_lines :
  forall env t a a' kids,
    exists quoted,
      processElementToMarkdown env (Element t a [Element (str "blockquote") a' kids])
      = quoted ++ nl ++ nl
      /\ splitUnit 10 quoted
         = map (fun line => str "> " ++ line)
               (splitUnit 10 (processElementToMarkdown env
                                (Element (str "blockquote") a' kids)))
      /\ join nl (map (skipn 2) (splitUnit 10 quoted))
         = processElementToMarkdown env (Element (str "blockquote") a' kids).
Proof.
  intros env t a a' kids.
  set (inner := Element (str "blockquote") a' kids).
  set (lines := splitUnit 10 (processElementToMarkdown env inner)).
  exists (join nl (map (fun line => str "> " ++ line) lines)).
  assert (Hsplit : splitUnit 10 (join nl (map (fun line => str "> " ++ line) lines))
                   = map (fun line => str "> " ++ line) lines).
  { apply splitUnit_join.
    - pose proof (splitUnit_nonempty 10 (processElementToMarkdown env inner)) as Hne.
      fold lines in Hne. destruct lines; [contradiction | discriminate].
    - intros line Hl. apply in_map_iff in Hl as [l [<- Hl]].
      intros Hin. apply in_app_or in Hin as [Hin | Hin].
      + vm_compute in Hin. intuition discriminate.
      + now apply (splitUnit_no_separator 10 _ l Hl). }
  split; [reflexivity|]. split; [exact Hsplit|].
  rewrite Hsplit, map_map.
  rewrite (map_ext _ (fun line => line)) by reflexivity.
  rewrite map_id. apply join_splitUnit.
Qed.

Lemma takeWord_prefix :
  forall s, exists rest, s = takeWord s ++ rest.
Proof.
  induction s as [|c s [rest IH]]; [now exists []|].
  simpl. destruct (isWordChar c).
  - exists rest. simpl. congruence.
  - now exists (c :: s).
Qed.

Lemma takeWord_word : forall s, forallb isWordChar (takeWord s) = true.
Proof.
  induction s as [|c s IH]; [reflexivity|].
  simpl. destruct (isWordChar c) eqn:E; [|reflexivity].
  simpl. now rewrite E.
Qed.

Lemma includes_prefix :
  forall s sub, startsWith s sub = true -> includes s sub = true.
Proof. intros [|x s] sub H; simpl; now rewrite H. Qed.

Lemma includes_tail :
  forall x s sub, includes s sub = true -> includes (x :: s) sub = true.
Proof. intros x s sub H. cbn [includes]. rewrite H. apply orb_true_r. Qed.

Lemma prefixed_word :
  forall s p w,
    startsWith s p = true -> takeWord (skipn (List.length p) s) = w ->
    includes s (p ++ w) = true.
Proof.
  intros s p w Hp Hw. apply includes_prefix.
  apply startsWith_prefix in Hp as [rest ->].
  rewrite skipn_length_app in Hw. destruct (takeWord_prefix rest) as [r Hr].
  rewrite Hw in Hr. apply startsWith_prefix. exists r. rewrite Hr.
  now rewrite <- app_assoc.
Qed.

Lemma matchLanguage_sound :
  forall s w,
    matchLanguage s = Some w ->
    w <> [] /\ forallb isWordChar w = true
    /\ (includes s (str "language-" ++ w) = true
        \/ includes s (str "lang-" ++ w) = true).
Proof.
  induction s as [|x s IH]; intros w H.
  - cbn in H. discriminate.
  - cbn [matchLanguage] in H.
    destruct (startsWith (x :: s) (str "language-")) eqn:P1.
    + destruct (takeWord (skipn (List.length (str "language-")) (x :: s)))
        as [|c word] eqn:W1.
      * destruct (startsWith (x :: s) (str "lang-")) eqn:P2.
        -- destruct (takeWord (skipn (List.length (str "lang-")) (x :: s)))
             as [|c word] eqn:W2.
           ++ destruct (IH w H) as (H1 & H2 & [H3 | H3]);
                (split; [assumption|]; split; [assumption|]);
                [left | right]; now apply includes_tail.
           ++ injection H as <-. split; [discriminate|].
              split; [rewrite <- W2; apply takeWord_word|].
              right. now apply prefixed_word.
        -- destruct (IH w H) as (H1 & H2 & [H3 | H3]);
             (split; [assumption|]; split; [assumption|]);
             [left | right]; now apply includes_tail.
      * injection H as <-. split; [discriminate|].
        split; [rewrite <- W1; apply takeWord_word|].
        left. now apply prefixed_word.
    + destruct (startsWith (x :: s) (str "lang-")) eqn:P2.
      * destruct (takeWord (skipn (List.length (str "lang-")) (x :: s)))
          as [|c word] eqn:W2.
        -- destruct (IH w H) as (H1 & H2 & [H3 | H3]);
             (split; [assumption|]; split; [assumption|]);
             [left | right]; now apply includes_tail.
        -- injection H as <-. split; [discriminate|].
           split; [rewrite <- W2; apply takeWord_word|].
           right. now apply prefixed_word.
      * destruct (IH w H) as (H1 & H2 & [H3 | H3]);
          (split; [assumption|]; split; [assumption|]);
          [left | right]; now apply includes_tail.
Qed.

Lemma matchLanguage_unfold :
  forall s,
    matchLanguage s
    = match matchAt (str "language-") s with
      | Some w => Some w
      | None =>
          match matchAt (str "lang-") s with
          | Some w => Some w
          | None => match s with
                    | [] => None
                    | _ :: s' => matchLanguage s'
                    end
          end
      end.
Proof. intros [|x s]; reflexivity. Qed.

Lemma takeWord_split :
  forall s, exists rest, s = takeWord s ++ rest /\ startsWithWordChar rest = false.
Proof.
  induction s as [|c s [rest [IH Hrest]]]; [now exists []|].
  cbn [takeWord]. destruct (isWordChar c) eqn:E.
  - exists rest. split; [cbn [app]; congruence | assumption].
  - exists (c :: s). split; [reflexivity | exact E].
Qed.

Lemma matchAt_some :
  forall p s w,
    matchAt p s = Some w ->
    exists rest,
      s = p ++ w ++ rest /\ w <> [] /\ forallb isWordChar w = true
      /\ startsWithWordChar rest = false.
Proof.
  intros p s w H. unfold matchAt in H.
  destruct (startsWith s p) eqn:Hp; [|discriminate].
  apply startsWith_prefix in Hp as [tail ->]. rewrite skipn_length_app in H.
  destruct (takeWord_split tail) as [rest [Htail Hrest]].
  pose proof (takeWord_word tail) as Hword.
  destruct (takeWord tail) as [|c word]; [discriminate|].
  injection H as <-. exists rest. rewrite Htail at 1.
  repeat split; [discriminate | assumption | assumption].
Qed.

Lemma matchAt_hint :
  forall p c rest, isWordChar c = true -> matchAt p (p ++ c :: rest) <> None.
Proof.
  intros p c rest Hc. unfold matchAt.
  assert (Hp : startsWith (p ++ c :: rest) p = true)
    by (apply startsWith_prefix; now exists (c :: rest)).
  rewrite Hp, skipn_length_app. cbn [takeWord]. rewrite Hc. discriminate.
Qed.

Lemma matchAt_prefixes :
  forall s p,
    In p languagePrefixes ->
    matchAt (str "language-") s = None -> matchAt (str "lang-") s = None ->
    matchAt p s = None.
Proof. intros s p [<- | [<- | []]] H1 H2; assumption. Qed.

(** The match is the leftmost one, and the word is as long as it can be. *)
Lemma matchLanguage_leftmost :
  forall s w,
    matchLanguage s = Some w ->
    exists before p rest,
      In p languagePrefixes /\ s = before ++ p ++ w ++ rest
      /\ w <> [] /\ forallb isWordChar w = true
      /\ startsWithWordChar rest = false
      /\ forall before', languageHintAt s before' ->
                         List.length before <= List.length before'.
Proof.
  induction s as [|x s IH]; intros w H; [discriminate|].
  rewrite matchLanguage_unfold in H.
  destruct (matchAt (str "language-") (x :: s)) as [w1|] eqn:E1.
  { injection H as <-. destruct (matchAt_some _ _ _ E1) as (rest & Hs & H1 & H2 & H3).
    exists [], (str "language-"), rest.
    repeat split; try assumption; [now left | intros; apply Nat.le_0_l]. }
  destruct (matchAt (str "lang-") (x :: s)) as [w2|] eqn:E2.
  { injection H as <-. destruct (matchAt_some _ _ _ E2) as (rest & Hs & H1 & H2 & H3).
    exists [], (str "lang-"), rest.
    repeat split; try assumption; [right; now left | intros; apply Nat.le_0_l]. }
  destruct (IH w H) as (before & p & rest & Hp & Hs & H1 & H2 & H3 & Hleft).
  exists (x :: before), p, rest.
  split; [assumption|]. split; [cbn [app]; now rewrite <- Hs|].
  split; [assumption|]. split; [assumption|]. split; [assumption|].
  intros [|y before'] (p' & c & rest' & Hp' & Hc & Heq).
  - exfalso. cbn [app] in Heq.
    apply (matchAt_hint p' c rest' Hc). rewrite <- Heq.
    now apply matchAt_prefixes.
  - cbn [app] in Heq. injection Heq as _ Heq. cbn [List.length].
    apply le_n_S. apply Hleft. now exists p', c, rest'.
Qed.

Lemma matchLanguage_complete :
  forall before s, languageHintAt s before -> matchLanguage s <> None.
Proof.
  induction before as [|y before IH]; intros s (p & c & rest & Hp & Hc & Heq) H.
  - cbn [app] in Heq. rewrite matchLanguage_unfold in H.
    destruct (matchAt (str "language-") s) eqn:E1; [discriminate|].
    destruct (matchAt (str "lang-") s) eqn:E2; [discriminate|].
    apply (matchAt_hint p c rest Hc). rewrite <- Heq. now apply matchAt_prefixes.
  - cbn [app] in Heq. subst s. rewrite matchLanguage_unfold in H.
    destruct (matchAt (str "language-") _); [discriminate|].
    destruct (matchAt (str "lang-") _); [discriminate|].
    apply (IH (before ++ p ++ c :: rest)); [|assumption].
    now exists p, c, rest.
Qed.

(** X10.  When the class holds [language-] or [lang-] followed by a word
    character, the language of a code block is taken from the class, whatever
    [data-language] says: it is the run of word characters after the leftmost
    such prefix, as long as it can be and so not empty.  When the class holds
    no such prefix the language is the [data-language] attribute if that is
    not empty, and else the empty string. *)
Theorem detectCodeLanguage_source :
  forall element,
    (hasLanguageHint (classNameOf element) ->
     exists before p rest,
       In p languagePrefixes
       /\ classNameOf element = before ++ p ++ detectCodeLanguage element ++ rest
       /\ detectCodeLanguage element <> []
       /\ forallb isWordChar (detectCodeLanguage element) = true
       /\ startsWithWordChar rest = false
       /\ forall before', languageHintAt (classNameOf element) before' ->
                          List.length before <= List.length before')
    /\ (~ hasLanguageHint (classNameOf element) ->
        detectCodeLanguage element
        = match truthyAttribute (str "data-language") element with
          | Some dataLang => dataLang
          | None => []
          end).
Proof.
  intros element. split.
  - intros [before Hhint].
    pose proof (matchLanguage_complete _ _ Hhint) as Hsome.
    unfold detectCodeLanguage. fold (classNameOf element).
    destruct (matchLanguage (classNameOf element)) as [w|] eqn:E; [|contradiction].
    now apply matchLanguage_leftmost.
  - intros Hnone. unfold detectCodeLanguage. fold (classNameOf element).
    destruct (matchLanguage (classNameOf element)) as [w|] eqn:E; [|reflexivity].
    exfalso. apply Hnone.
    destruct (matchLanguage_leftmost _ _ E) as (before & p & rest & Hp & Hs & Hw & Hmore).
    destruct w as [|c w]; [contradiction|]. revert Hmore.
    intros (Hword & _ & _).
    exists before, p, c, (w ++ rest). split; [assumption|]. split; [|exact Hs].
    cbn [forallb] in Hword. now apply andb_true_iff in Hword as [Hc _].
Qed.

Lemma detectCodeLanguage_source_witness :
  (exists before p rest,
      In p languagePrefixes
      /\ classNameOf (Element (str "pre")
                        [(str "class", str "hljs language-python3 x");
                         (str "data-language", str "js")] [])
         = before ++ p
             ++ detectCodeLanguage
                  (Element (str "pre")
                     [(str "class", str "hljs language-python3 x");
                      (str "data-language", str "js")] [])
             ++ rest
      /\ startsWithWordChar rest = false)
  /\ detectCodeLanguage
       (Element (str "pre")
          [(str "class", str "hljs language-python3 x");
           (str "data-language", str "js")] [])
     = str "python3"
  /\ detectCodeLanguage
       (Element (str "pre") [(str "class", str "hljs"); (str "data-language", str "js")] [])
     = str "js".
Proof.
  split; [|split; [reflexivity|]].
  - destruct (proj1 (detectCodeLanguage_source
                       (Element (str "pre")
                          [(str "class", str "hljs language-python3 x");
                           (str "data-language", str "js")] [])))
      as (before & p & rest & Hp & Hs & _ & _ & Hrest & _).
    + exists (str "hljs "), (str "language-"), 112%N, (str "ython3 x").
      split; [now left|]. split; reflexivity.
    + exists before, p, rest. auto.
  - apply (proj2 (detectCodeLanguage_source
             (Element (str "pre")
                [(str "class", str "hljs"); (str "data-language", str "js")] []))).
    intros (before & p & c & rest & Hp & _ & Heq).
    apply (f_equal (@List.length N)) in Heq. rewrite !length_app in Heq.
    destruct Hp as [<- | [<- | []]]; cbn in Heq; lia.
Defined.

Lemma trimStart_length : forall s, List.length (trimStart s) <= List.length s.
Proof.
  induction s as [|c s IH]; simpl; [lia|].
  destruct (isWhiteSpace c); simpl; lia.
Qed.

Lemma trim_length : forall s, List.length (trim s) <= List.length s.
Proof.
  intros s. unfold trim, trimEnd. rewrite length_rev.
  pose proof (trimStart_length (rev (trimStart s))) as H1.
  pose proof (trimStart_length s) as H2.
  rewrite length_rev in H1. lia.
Qed.

Lemma trim_same_length :
  forall s, List.length (trim s) = List.length s -> trim s = s.
Proof.
  intros s H. unfold trim in *.
  destruct (trimStart_split s) as [w [Hs Hw]].
  destruct (trimEnd_split (trimStart s)) as [w' [Hs' Hw']].
  assert (Hlen : List.length s
                 = List.length w + (List.length (trimEnd (trimStart s)) + List.length w')).
  { rewrite Hs at 1. rewrite length_app. rewrite Hs' at 1. now rewrite length_app. }
  assert (w = []) by (destruct w; [reflexivity | simpl in Hlen; lia]).
  assert (w' = []) by (destruct w'; [reflexivity | simpl in Hlen; lia]).
  subst. rewrite app_nil_r in Hs'. simpl in Hs. congruence.
Qed.

(** X11.  The conversation title has at most 53 units.  It is a fixed text
    for an empty conversation and for one without a user message.  Otherwise
    it comes from the flattened content of the first user message: that content
    itself when the trimmed first fifty units are all of it, and else those
    trimmed units followed by three dots. *)
Theorem conversation_title :
  forall env conversationData,
    List.length (generateConversationTitle env conversationData) <= 53
    /\ (conversationData = [] ->
        generateConversationTitle env conversationData = str "Empty Conversation")
    /\ (conversationData <> [] -> firstUserMessage conversationData = None ->
        generateConversationTitle env conversationData = str "LLM Conversation")
    /\ (forall m,
           firstUserMessage conversationData = Some m ->
           let text := htmlToText env (content m) in
           (trim (firstn 50 text) = text ->
            generateConversationTitle env conversationData = text)
           /\ (trim (firstn 50 text) <> text ->
               generateConversationTitle env conversationData
               = trim (firstn 50 text) ++ str "...")).
Proof.
  intros env conversationData.
  assert (Hcut : forall text, List.length (trim (firstn 50 text)) <= 50).
  { intros text. pose proof (trim_length (firstn 50 text)) as H.
    pose proof (firstn_le_length 50 text). rewrite length_firstn in *. lia. }
  assert (Hle : forall text, List.length (trim (firstn 50 text)) <= List.length text).
  { intros text. pose proof (trim_length (firstn 50 text)) as H.
    rewrite length_firstn in H. lia. }
  assert (Hsame : forall text,
             List.length (trim (firstn 50 text)) = List.length text ->
             trim (firstn 50 text) = text).
  { intros text H. pose proof (trim_length (firstn 50 text)) as Ht.
    assert (Hf : firstn 50 text = text).
    { apply firstn_all2. rewrite length_firstn in Ht. lia. }
    rewrite Hf in *. now apply trim_same_length. }
  unfold generateConversationTitle. fold (firstUserMessage conversationData).
  split; [|split; [|split]].
  - destruct (List.length conversationData =? 0); [cbn; lia|].
    destruct (firstUserMessage conversationData) as [m|]; [|cbn; lia].
    cbn zeta. destruct (_ <? _).
    + rewrite length_app. specialize (Hcut (htmlToText env (content m))).
      change (List.length (str "...")) with 3. lia.
    + specialize (Hcut (htmlToText env (content m))). lia.
  - intros ->. reflexivity.
  - intros Hne Hnone. destruct conversationData; [contradiction|].
    cbn [List.length Nat.eqb]. now rewrite Hnone.
  - intros m Hm. set (text := htmlToText env (content m)).
    assert (Hlen : (List.length conversationData =? 0) = false).
    { destruct conversationData; [discriminate | reflexivity]. }
    rewrite Hlen, Hm. cbn zeta. fold text. split.
    + intros Heq. rewrite Heq. now rewrite Nat.ltb_irrefl.
    + intros Hneq.
      assert (Hlt : List.length (trim (firstn 50 text)) < List.length text).
      { specialize (Hle text). destruct (Nat.eq_dec (List.length (trim (firstn 50 text)))
                                          (List.length text)) as [E|E]; [|lia].
        now destruct (Hneq (Hsame text E)). }
      apply Nat.ltb_lt in Hlt. now rewrite Hlt.
Qed.

Lemma conversation_title_witness :
  generateConversationTitle browser [assistantYo; userHi] = str "Hi..."
  /\ generateConversationTitle worker [assistantYo; userHi] = str "Hi"
  /\ generateConversationTitle browser [assistantYo] = str "LLM Conversation".
Proof.
  split; [|split].
  - refine (proj2 (proj2 (proj2 (proj2 (conversation_title browser [assistantYo; userHi])))
                     userHi _) _).
    + reflexivity.
    + vm_compute. discriminate.
  - refine (proj1 (proj2 (proj2 (proj2 (conversation_title worker [assistantYo; userHi])))
                     userHi _) _).
    + reflexivity.
    + vm_compute. reflexivity.
  - apply (proj1 (proj2 (proj2 (conversation_title browser [assistantYo])))).
    + discriminate.
    + reflexivity.
Defined.

(* ===================================================================== *)
(** * Further properties: service worker and popup *)
(* ===================================================================== *)

Lemma isString_eq :
  forall v s, Background.isString v s = true <-> v = VString s.
Proof.
  intros v s. destruct v; simpl; split; try easy.
  - intros H. apply seqb_eq in H. now subst.
  - intros H. injection H as ->. apply seqb_refl.
Qed.

Lemma background_isValidUrl_same :
  forall env v, Background.isValidUrl env v = isValidUrl env v.
Proof. reflexivity. Qed.

(** X12.  The service worker asks for scripts to be injected exactly when the
    message comes from the extension itself, its action is
    [exportConversation], the URL of the sending tab (if there is a tab) passes
    the allow-list, the tab id is truthy, the format is one of the three
    formats and the platform is one of the four platform names; the files are
    then the content processor and the extractor of that platform, so the
    injected path is never built from an unchecked string. *)
Theorem export_only_after_checks :
  forall env runtimeId message sender tab files,
    Background.onMessage env runtimeId message sender
    = Background.Export (Background.InjectScripts tab files)
    <->
    (Background.senderId sender = VString runtimeId
     /\ Background.action message = VString (str "exportConversation")
     /\ (forall url, Background.tabUrl sender = Some url -> isValidUrl env url = true)
     /\ tab = Background.tabId message
     /\ truthy tab = true
     /\ Background.isValidFormat (Background.format message) = true
     /\ exists p,
          In p Background.validPlatforms
          /\ Background.platform message = VString p
          /\ files = extractorFiles p).
Proof.
  intros env runtimeId message sender tab files.
  assert (Hexport :
            Background.handleExport message = Background.InjectScripts tab files
            <-> (tab = Background.tabId message
                 /\ truthy tab = true
                 /\ Background.isValidFormat (Background.format message) = true
                 /\ exists p,
                      In p Background.validPlatforms
                      /\ Background.platform message = VString p
                      /\ files = extractorFiles p)).
  { unfold Background.handleExport. split.
    - intros H.
      destruct (truthy (Background.tabId message)) eqn:Ht; [|discriminate].
      destruct (Background.isValidPlatform (Background.platform message)) eqn:Hp;
        [|discriminate].
      destruct (Background.isValidFormat (Background.format message)) eqn:Hf;
        [|discriminate].
      cbn [negb] in H. injection H as <- <-.
      split; [reflexivity|]. split; [assumption|]. split; [reflexivity|].
      unfold Background.isValidPlatform in Hp.
      destruct (Background.platform message) as [| | | |p|]; try discriminate.
      exists p. split; [now apply existsb_seqb_In in Hp|]. split; reflexivity.
    - intros (-> & Ht & Hf & p & Hp & Hpl & ->).
      rewrite Ht, Hf, Hpl. cbn [Background.isValidPlatform].
      apply existsb_seqb_In in Hp. rewrite Hp. reflexivity. }
  unfold Background.onMessage. split.
  - intros H.
    destruct (Background.isString (Background.senderId sender) runtimeId) eqn:Hs;
      [|discriminate].
    destruct (truthy (Background.action message)) eqn:Ha; [|discriminate].
    cbn [negb orb] in H. apply isString_eq in Hs.
    destruct (Background.isString (Background.action message) (str "exportConversation"))
      eqn:He.
    + apply isString_eq in He. split; [assumption|]. split; [assumption|].
      destruct (Background.tabUrl sender) as [url|].
      * destruct (Background.isValidUrl env url) eqn:Hu; [|discriminate].
        cbn [negb] in H. injection H as H. apply Hexport in H.
        split; [|exact H]. intros u Hu'. injection Hu' as <-. exact Hu.
      * injection H as H. apply Hexport in H. split; [|exact H]. discriminate.
    + discriminate.
  - intros (Hs & Ha & Hu & Hrest).
    apply isString_eq in Hs. rewrite Hs, Ha.
    change (truthy (VString (str "exportConversation"))) with true.
    cbn [negb orb Background.isString]. rewrite seqb_refl.
    apply Hexport in Hrest.
    destruct (Background.tabUrl sender) as [url|].
    + change (Background.isValidUrl env url) with (isValidUrl env url).
      rewrite (Hu url eq_refl). cbn [negb]. now rewrite Hrest.
    + now rewrite Hrest.
Qed.

Lemma export_only_after_checks_witness :
  Background.onMessage browser (str "ext") sampleExport
    {| Background.senderId := VString (str "ext");
       Background.tabUrl := Some (VString (str "https://sub.claude.ai/x")) |}
  = Background.Export
      (Background.InjectScripts (VNumber 7) (extractorFiles (str "claude"))).
Proof.
  apply (proj2 (export_only_after_checks browser (str "ext") sampleExport _ _ _)).
  split; [reflexivity|]. split; [reflexivity|]. split.
  - intros url H. injection H as <-. reflexivity.
  - split; [reflexivity|]. split; [reflexivity|]. split; [reflexivity|].
    exists (str "claude"). split; [simpl; auto|]. split; reflexivity.
Defined.

Lemma prefix_comparable :
  forall (a b x y : jsstring),
    a ++ x = b ++ y -> startsWith a b = true \/ startsWith b a = true.
Proof.
  induction a as [|c a IH]; intros b x y H.
  - right. reflexivity.
  - destruct b as [|d b]; [left; reflexivity|].
    cbn [app] in H. injection H as -> H.
    cbn [startsWith]. rewrite N.eqb_refl. cbn [andb]. now apply (IH b x y).
Qed.

Lemma testPattern_exclusive :
  forall r1 r2 url,
    startsWith r1 r2 = false -> startsWith r2 r1 = false ->
    Popup.testPattern r1 url = true -> Popup.testPattern r2 url = false.
Proof.
  intros r1 r2 url H12 H21 H1.
  destruct (Popup.testPattern r2 url) eqn:H2; [|reflexivity]. exfalso.
  unfold Popup.testPattern in *.
  apply orb_true_iff in H1 as [H1 | H1]; apply orb_true_iff in H2 as [H2 | H2];
    apply startsWith_prefix in H1 as [x Hx]; apply startsWith_prefix in H2 as [y Hy];
    rewrite Hx in Hy; rewrite <- !app_assoc in Hy.
  - apply app_inv_head in Hy.
    destruct (prefix_comparable _ _ _ _ Hy); congruence.
  - cbn in Hy. discriminate.
  - cbn in Hy. discriminate.
  - apply app_inv_head in Hy.
    destruct (prefix_comparable _ _ _ _ Hy); congruence.
Qed.

Ltac exclude_pattern H other :=
  let F := fresh "F" in
  match type of H with
  | Popup.testPattern ?r1 ?u = true =>
      pose proof (testPattern_exclusive r1 other u eq_refl eq_refl H) as F;
      rewrite F
  end.

(** X13.  [detectPlatform] returns a platform exactly when the URL starts
    with [http://] or [https://] followed by one of that platform's patterns;
    no URL matches the patterns of two platforms, so the order of the table
    does not matter.  Nothing has to follow the pattern and anything may, and
    every platform returned is one the service worker accepts. *)
Theorem detectPlatform_prefixes :
  forall url,
    (forall p,
        Popup.detectPlatform url = Some p <->
        exists patterns pattern,
          In (p, patterns) Popup.platformPatterns /\ In pattern patterns
          /\ Popup.testPattern pattern url = true)
    /\ (forall p, Popup.detectPlatform url = Some p ->
                  Background.isValidPlatform (VString p) = true)
    /\ (forall p patterns pattern rest,
           In (p, patterns) Popup.platformPatterns -> In pattern patterns ->
           Popup.detectPlatform (str "https://" ++ pattern ++ rest) = Some p).
Proof.
  assert (Hback : forall url p patterns pattern,
             In (p, patterns) Popup.platformPatterns -> In pattern patterns ->
             Popup.testPattern pattern url = true ->
             Popup.detectPlatform url = Some p).
  { intros url p patterns pattern Hp Hpat Ht.
    unfold Popup.detectPlatform, Popup.platformPatterns in *.
    cbn [Popup.detectIn existsb].
    destruct Hp as [Hp | [Hp | [Hp | [Hp | []]]]]; injection Hp as <- <-;
      cbn [In] in Hpat.
    - destruct Hpat as [<- | [<- | []]]; rewrite Ht;
        rewrite ?orb_true_r; reflexivity.
    - destruct Hpat as [<- | []].
      exclude_pattern Ht (str "chat.openai.com").
      exclude_pattern Ht (str "chatgpt.com").
      rewrite Ht. reflexivity.
    - destruct Hpat as [<- | []].
      exclude_pattern Ht (str "chat.openai.com").
      exclude_pattern Ht (str "chatgpt.com").
      exclude_pattern Ht (str "claude.ai").
      rewrite Ht. reflexivity.
    - destruct Hpat as [<- | [<- | []]];
        exclude_pattern Ht (str "chat.openai.com");
        exclude_pattern Ht (str "chatgpt.com");
        exclude_pattern Ht (str "claude.ai");
        exclude_pattern Ht (str "gemini.google.com");
        rewrite Ht; rewrite ?orb_true_r; reflexivity. }
  intros url. split; [|split].
  - intros p. split; [|intros (patterns & pattern & H1 & H2 & H3); now apply (Hback url p patterns pattern)].
    unfold Popup.detectPlatform, Popup.platformPatterns. cbn [Popup.detectIn].
    repeat match goal with
           | |- (if existsb ?f ?l then _ else _) = _ -> _ =>
               let E := fresh "E" in
               destruct (existsb f l) eqn:E;
               [ intros H; injection H as <-;
                 apply existsb_exists in E as [pattern [Hin Ht]];
                 exists l, pattern; cbn [In]; intuition
               | ]
           end.
    discriminate.
  - intros p. unfold Popup.detectPlatform, Popup.platformPatterns. cbn [Popup.detectIn].
    repeat match goal with
           | |- (if ?b then _ else _) = _ -> _ =>
               destruct b; [intros H; injection H as <-; reflexivity|]
           end.
    discriminate.
  - intros p patterns pattern rest Hp Hpat.
    apply (Hback _ p patterns pattern Hp Hpat).
    unfold Popup.testPattern. apply orb_true_iff. left.
    apply startsWith_prefix. exists rest. now rewrite <- app_assoc.
Qed.

Lemma detectPlatform_prefixes_witness :
  Popup.detectPlatform (str "https://chatgpt.com.example.org/c/1") = Some (str "chatgpt")
  /\ Background.isValidPlatform (VString (str "chatgpt")) = true.
Proof.
  destruct (detectPlatform_prefixes (str "https://chatgpt.com.example.org/c/1"))
    as (_ & Hvalid & Hany).
  assert (H : Popup.detectPlatform (str "https://chatgpt.com.example.org/c/1")
              = Some (str "chatgpt")).
  { apply (Hany (str "chatgpt") [str "chat.openai.com"; str "chatgpt.com"]
                (str "chatgpt.com") (str ".example.org/c/1")); simpl; auto. }
  split; [exact H | exact (Hvalid _ H)].
Defined.

(* ===================================================================== *)
(** * Further properties: file names *)
(* ===================================================================== *)

Lemma splitUnit_units :
  forall c s line x, In line (splitUnit c s) -> In x line -> In x s.
Proof.
  intros c. induction s as [|y s IH]; intros line x Hl Hx.
  - simpl in Hl. destruct Hl as [<- | []]. easy.
  - simpl in Hl. destruct (N.eqb y c).
    + destruct Hl as [<- | Hl]; [easy|]. right. now apply (IH line).
    + destruct (splitUnit c s) as [|piece pieces] eqn:E.
      * destruct Hl as [<- | []]. destruct Hx as [<- | []]. now left.
      * destruct Hl as [<- | Hl].
        -- destruct Hx as [<- | Hx]; [now left|].
           right. apply (IH piece); [now left | assumption].
        -- right. apply (IH line); [now right | assumption].
Qed.

Lemma splitUnit_head_In :
  forall c s, In (hd [] (splitUnit c s)) (splitUnit c s).
Proof.
  intros c s. pose proof (splitUnit_nonempty c s) as H.
  destruct (splitUnit c s); [contradiction | now left].
Qed.

Lemma firstn_In_units :
  forall (n : nat) (s : jsstring) x, In x (firstn n s) -> In x s.
Proof.
  induction n as [|n IH]; intros [|c s] x H; simpl in *; try easy.
  destruct H as [<- | H]; [now left | right; now apply IH].
Qed.

Lemma stripScheme_withoutScheme :
  forall url, withoutScheme url (Extractor.stripScheme url).
Proof.
  intros url. unfold withoutScheme, Extractor.stripScheme.
  destruct (startsWith url (str "https://")) eqn:E1.
  - left. apply startsWith_prefix in E1 as [rest ->]. reflexivity.
  - destruct (startsWith url (str "http://")) eqn:E2.
    + right. left. apply startsWith_prefix in E2 as [rest ->]. reflexivity.
    + right. right. auto.
Qed.

(** The scheme that is taken off is determined by the address. *)
Lemma withoutScheme_unique :
  forall url s, withoutScheme url s -> s = Extractor.stripScheme url.
Proof.
  intros url s [-> | [-> | (-> & H1 & H2)]]; unfold Extractor.stripScheme.
  - assert (H : startsWith (str "https://" ++ s) (str "https://") = true)
      by (apply startsWith_prefix; now exists s).
    rewrite H. reflexivity.
  - assert (H : startsWith (str "http://" ++ s) (str "http://") = true)
      by (apply startsWith_prefix; now exists s).
    rewrite H.
    assert (H' : startsWith (str "http://" ++ s) (str "https://") = false)
      by reflexivity.
    rewrite H'. reflexivity.
  - now rewrite H1, H2.
Qed.

Lemma dateTimePart_upToFirstDot :
  forall iso d, upToFirstDot iso d -> Extractor.dateTimePart iso = map dateUnit d.
Proof.
  intros iso d [Hdot Hiso]. unfold Extractor.dateTimePart.
  fold dateUnit. change (fun c => dateUnit c) with dateUnit.
  assert (Hd : ~ In 46%N (map dateUnit d)).
  { intros H. apply in_map_iff in H as [c [Hc Hin]]. unfold dateUnit in Hc.
    destruct ((c =? 45) || (c =? 58) || (c =? 84))%N; [discriminate|].
    subst c. contradiction. }
  destruct Hiso as [-> | [tail ->]].
  - now rewrite splitUnit_whole.
  - rewrite map_app. cbn [map].
    change (dateUnit 46) with 46%N.
    rewrite splitUnit_app, splitUnit_whole by assumption. reflexivity.
Qed.

Lemma upToFirstDot_exists : forall iso, exists d, upToFirstDot iso d.
Proof.
  induction iso as [|c iso [d [Hdot Hiso]]].
  - exists []. split; [easy | now left].
  - destruct (N.eq_dec c 46) as [-> | Hc].
    + exists []. split; [easy|]. right. now exists iso.
    + exists (c :: d). split.
      * intros [H | H]; [congruence | contradiction].
      * destruct Hiso as [-> | [tail ->]]; [now left|]. right. now exists tail.
Qed.

(** X14.  The file name the content scripts answer with is the start of the
    address, an underscore, the date part and [.txt].  The start of the
    address is the first ten units (or all, if fewer) of the address without a
    leading [http://] or [https://], each unit that is no ASCII letter or digit
    replaced by an underscore.  The date part is the time stamp up to its first
    dot with hyphens, colons and the letter T replaced by underscores.  So the
    part from the address holds only letters, digits and underscores whatever
    the address is, and for a time stamp in ISO form the whole name before
    [.txt] does: it holds no path separator. *)
Theorem exportFilename_safe :
  forall url iso,
  (exists rest d, withoutScheme url rest /\ upToFirstDot iso d)
  /\ forall rest d,
    withoutScheme url rest -> upToFirstDot iso d ->
    Extractor.exportFilename url iso
    = map urlUnit (firstn 10 rest) ++ str "_" ++ map dateUnit d ++ str ".txt"
    /\ List.length (map urlUnit (firstn 10 rest)) = Nat.min 10 (List.length rest)
    /\ (forall i, i < Nat.min 10 (List.length rest) ->
                  nth i (map urlUnit (firstn 10 rest)) 0%N = urlUnit (nth i rest 0%N))
    /\ forallb isWordChar (map urlUnit (firstn 10 rest)) = true
    /\ ~ In 46%N (map dateUnit d)
    /\ (forallb isIsoUnit iso = true ->
        forallb isWordChar (map urlUnit (firstn 10 rest) ++ str "_" ++ map dateUnit d)
        = true).
Proof.
  intros url iso. split.
  { destruct (upToFirstDot_exists iso) as [d Hd].
    exists (Extractor.stripScheme url), d.
    split; [apply stripScheme_withoutScheme | exact Hd]. }
  intros rest d Hrest Hd.
  assert (Hurl : forallb isWordChar (map urlUnit (firstn 10 rest)) = true).
  { apply forallb_forall. intros x Hx. apply in_map_iff in Hx as [c [<- _]].
    unfold urlUnit. destruct (Extractor.isAlphaNumeric c) eqn:E; [|reflexivity].
    unfold Extractor.isAlphaNumeric in E. unfold isWordChar. rewrite E. reflexivity. }
  assert (Hdot : ~ In 46%N (map dateUnit d)).
  { rewrite <- (dateTimePart_upToFirstDot iso d Hd). unfold Extractor.dateTimePart.
    apply (splitUnit_no_separator 46 _ _ (splitUnit_head_In 46 _)). }
  split; [|split; [|split; [|split; [exact Hurl | split; [exact Hdot|]]]]].
  - unfold Extractor.exportFilename.
    rewrite (dateTimePart_upToFirstDot iso d Hd).
    rewrite <- (withoutScheme_unique url rest Hrest). reflexivity.
  - rewrite length_map, length_firstn. reflexivity.
  - intros i Hi.
    rewrite (nth_indep _ 0%N (urlUnit 0%N))
      by (rewrite length_map, length_firstn; exact Hi).
    rewrite map_nth. f_equal. rewrite nth_firstn.
    assert (Hlt : (i <? 10) = true) by (apply Nat.ltb_lt; lia).
    now rewrite Hlt.
  - intros Hiso. rewrite !forallb_app, Hurl. cbn [andb].
    change (forallb isWordChar (str "_")) with true. cbn [andb].
    apply forallb_forall. intros x Hx.
    assert (Hx46 : x <> 46%N) by (intros ->; now apply Hdot).
    apply in_map_iff in Hx as [c [Hc Hcin]].
    assert (Hin : In c iso).
    { destruct Hd as [_ [-> | [tail ->]]]; [assumption|].
      apply in_or_app. now left. }
    rewrite forallb_forall in Hiso. specialize (Hiso c Hin).
    unfold isIsoUnit in Hiso. cbn [existsb] in Hiso. unfold dateUnit in Hc.
    destruct (N.eqb c 45) eqn:E45; [subst x; reflexivity|].
    destruct (N.eqb c 58) eqn:E58; [subst x; reflexivity|].
    destruct (N.eqb c 84) eqn:E84; [subst x; reflexivity|].
    cbn [orb] in Hc. subst x.
    destruct (N.eqb c 46) eqn:E46; [apply N.eqb_eq in E46; contradiction|].
    rewrite orb_false_r in Hiso. cbn [orb] in Hiso.
    apply orb_true_iff in Hiso as [Hdigit | Hz].
    + unfold isWordChar. rewrite Hdigit. reflexivity.
    + apply N.eqb_eq in Hz. subst c. reflexivity.
Qed.

Lemma exportFilename_safe_witness :
  Extractor.exportFilename (str "https://claude.ai/chat/42")
                           (str "2026-11-03T01:56:09.123Z")
  = map urlUnit (firstn 10 (str "claude.ai/chat/42")) ++ str "_"
      ++ map dateUnit (str "2026-11-03T01:56:09") ++ str ".txt"
  /\ Extractor.exportFilename (str "https://claude.ai/chat/42")
                              (str "2026-11-03T01:56:09.123Z")
     = str "claude_ai__2026_11_03_01_56_09.txt"
  /\ forallb isWordChar
       (map urlUnit (firstn 10 (str "claude.ai/chat/42")) ++ str "_"
          ++ map dateUnit (str "2026-11-03T01:56:09")) = true.
Proof.
  destruct (proj2 (exportFilename_safe
                     (str "https://claude.ai/chat/42") (str "2026-11-03T01:56:09.123Z"))
              (str "claude.ai/chat/42") (str "2026-11-03T01:56:09"))
    as (Hname & _ & _ & _ & _ & Hword).
  - left. reflexivity.
  - split.
    + vm_compute. intros H.
      repeat (destruct H as [H | H]; [discriminate|]). exact H.
    + right. exists (str "123Z"). reflexivity.
  - split; [exact Hname|]. split; [reflexivity|]. apply Hword. reflexivity.
Defined.

Lemma dropNonWord_split :
  forall s, exists w, s = w ++ Extractor.dropNonWord s.
Proof.
  induction s as [|c s [w IH]]; [now exists []|].
  simpl. destruct (isWordChar c); [now exists []|].
  exists (c :: w). simpl. congruence.
Qed.

Lemma dropNonWord_head :
  forall s, Extractor.dropNonWord s = [] \/ startsWithWordChar (Extractor.dropNonWord s) = true.
Proof.
  induction s as [|c s IH]; [now left|].
  simpl. destruct (isWordChar c) eqn:E; [right; exact E | exact IH].
Qed.

Lemma stripNonWordEdges_shape :
  forall s,
    (exists w w', s = w ++ Extractor.stripNonWordEdges s ++ w')
    /\ (Extractor.stripNonWordEdges s = []
        \/ startsWithWordChar (Extractor.stripNonWordEdges s) = true).
Proof.
  intros s. unfold Extractor.stripNonWordEdges.
  destruct (dropNonWord_split s) as [w Hw].
  destruct (dropNonWord_split (rev (Extractor.dropNonWord s))) as [w' Hw'].
  assert (Hmid : Extractor.dropNonWord s
                 = rev (Extractor.dropNonWord (rev (Extractor.dropNonWord s))) ++ rev w').
  { rewrite <- rev_app_distr, <- Hw'. now rewrite rev_involutive. }
  split.
  - exists w, (rev w'). rewrite <- Hmid. exact Hw.
  - destruct (rev (Extractor.dropNonWord (rev (Extractor.dropNonWord s)))) as [|c t] eqn:E;
      [now left|]. right.
    destruct (dropNonWord_head s) as [H | H].
    + rewrite H in Hmid. discriminate.
    + rewrite Hmid in H. exact H.
Qed.

Lemma dashWhiteSpace_units :
  forall s inRun x,
    In x (Extractor.dashWhiteSpace inRun s) ->
    isWhiteSpace x = false /\ (x = 45%N \/ In x s).
Proof.
  induction s as [|c s IH]; intros inRun x H; [easy|].
  cbn [Extractor.dashWhiteSpace] in H. destruct (isWhiteSpace c) eqn:W.
  - destruct inRun.
    + destruct (IH _ _ H) as [H1 [H2 | H2]]; (split; [assumption|]); [now left | right; now right].
    + destruct H as [<- | H]; [split; [reflexivity | now left]|].
      destruct (IH _ _ H) as [H1 [H2 | H2]]; (split; [assumption|]); [now left | right; now right].
  - destruct H as [<- | H]; [split; [assumption | right; now left]|].
    destruct (IH _ _ H) as [H1 [H2 | H2]]; (split; [assumption|]); [now left | right; now right].
Qed.

(** X15.  The file name of [consoleSave] is a base followed by [.md]; the
    base is never empty, has at most 100 units, begins with a letter, digit or
    underscore, and holds no white space and none of the characters reserved
    in file names, whatever the title is. *)
Theorem consoleSaveName_safe :
  forall title,
    exists base,
      Extractor.consoleSaveName title = base ++ str ".md"
      /\ base <> []
      /\ List.length base <= 100
      /\ startsWithWordChar base = true
      /\ forallb isFileNameUnit base = true.
Proof.
  intros title. unfold Extractor.consoleSaveName.
  assert (Hdefault : exists base,
             str "claude" ++ str ".md" = base ++ str ".md" /\ base <> []
             /\ List.length base <= 100 /\ startsWithWordChar base = true
             /\ forallb isFileNameUnit base = true).
  { exists (str "claude"). repeat split; try reflexivity; [discriminate | cbn; lia]. }
  destruct (seqb title []); [exact Hdefault|].
  set (mapped := map (fun c => if Extractor.isReserved c then 95%N else c)
                     (toLowerCase (trim title))).
  set (dashed := Extractor.dashWhiteSpace false mapped).
  destruct (firstn 100 (Extractor.stripNonWordEdges dashed)) as [|c0 t0] eqn:E;
    [exact Hdefault|].
  cbn [seqb]. rewrite <- E. exists (firstn 100 (Extractor.stripNonWordEdges dashed)).
  split; [reflexivity|]. split; [rewrite E; discriminate|].
  split; [rewrite length_firstn; lia|].
  destruct (stripNonWordEdges_shape dashed) as [(w & w' & Hshape) Hhead].
  split.
  - destruct (Extractor.stripNonWordEdges dashed) as [|c t] eqn:Es; [discriminate|].
    destruct Hhead as [Hhead | Hhead]; [discriminate|]. exact Hhead.
  - apply forallb_forall. intros x Hx. apply firstn_In_units in Hx.
    assert (Hin : In x dashed).
    { rewrite Hshape. apply in_or_app. right. apply in_or_app. now left. }
    destruct (dashWhiteSpace_units _ _ _ Hin) as [Hws Hsrc].
    unfold isFileNameUnit. rewrite Hws. rewrite andb_true_r.
    destruct Hsrc as [-> | Hsrc]; [reflexivity|].
    unfold mapped in Hsrc. apply in_map_iff in Hsrc as [c [<- _]].
    destruct (Extractor.isReserved c) eqn:R; [reflexivity | now rewrite R].
Qed.

(* ===================================================================== *)
(** * Further properties: the Claude transcript *)
(* ===================================================================== *)

Lemma join_snoc_eq :
  forall sep ls x, ls <> [] -> join sep (ls ++ [x]) = join sep ls ++ sep ++ x.
Proof.
  intros sep ls x. induction ls as [|y ls IH]; intros H; [contradiction|].
  destruct ls as [|z ls]; [reflexivity|].
  cbn [app] in *. rewrite !join_cons2, IH by discriminate.
  now rewrite <- !app_assoc.
Qed.

Lemma isBlankLine_nonempty : forall l, isBlankLine l = false -> l <> [].
Proof. intros l H ->. discriminate. Qed.

Lemma appendLine_parsed :
  forall allLines m line,
    parsedMessage allLines m -> contentLine allLines line ->
    parsedMessage allLines (Extractor.appendLine m line).
Proof.
  intros allLines m line [Hrole Hbuilt] Hline. split; [exact Hrole|].
  right. cbn [Extractor.appendLine content].
  destruct (seqb (content m) []) eqn:E.
  - apply seqb_eq in E. rewrite E. exists [line].
    split; [discriminate|]. split; [reflexivity|].
    intros l [<- | []]. exact Hline.
  - apply seqb_neq in E. destruct Hbuilt as [Hnil | (ls & Hne & Hc & Hgood)];
      [contradiction|].
    exists (ls ++ [line]). split; [destruct ls; discriminate|]. split.
    + rewrite join_snoc_eq by assumption. now rewrite Hc.
    + intros l Hl. apply in_app_or in Hl as [Hl | [<- | []]];
        [now apply Hgood | exact Hline].
Qed.

Lemma new_message_parsed :
  forall allLines r,
    r = str "assistant" \/ r = str "user" ->
    parsedMessage allLines {| role := r; content := [] |}.
Proof. intros allLines r H. split; [exact H | now left]. Qed.

Lemma push_parsed :
  forall allLines messages currentMessage,
    (forall m, In m messages -> parsedMessage allLines m) ->
    (forall m, currentMessage = Some m -> parsedMessage allLines m) ->
    forall m, In m (Extractor.push messages currentMessage) -> parsedMessage allLines m.
Proof.
  intros allLines messages [c|] Hm Hc m H; simpl in H; [|now apply Hm].
  apply in_app_or in H as [H | [<- | []]]; [now apply Hm | now apply Hc].
Qed.

Lemma parseLines_parsed :
  forall allLines lines currentMessage messages,
    (forall l, In l lines -> In l allLines) ->
    (forall m, currentMessage = Some m -> parsedMessage allLines m) ->
    (forall m, In m messages -> parsedMessage allLines m) ->
    (forall m, fst (Extractor.parseLines lines currentMessage messages) = Some m ->
               parsedMessage allLines m)
    /\ (forall m, In m (snd (Extractor.parseLines lines currentMessage messages)) ->
                  parsedMessage allLines m).
Proof.
  intros allLines lines.
  induction lines as [|line rest IH]; intros cur msgs Hsub Hcur Hmsgs.
  - split; assumption.
  - assert (Hrest : forall l, In l rest -> In l allLines)
      by (intros l Hl; apply Hsub; now right).
    cbn [Extractor.parseLines].
    destruct (startsWith line Extractor.claudeMarker) eqn:Hc.
    + apply IH; [assumption | | now apply push_parsed].
      intros m Hm. injection Hm as <-. apply new_message_parsed. now left.
    + destruct (startsWith line Extractor.humanMarker) eqn:Hh.
      * apply IH; [assumption | | now apply push_parsed].
        intros m Hm. injection Hm as <-. apply new_message_parsed. now right.
      * destruct cur as [m|]; [|now apply IH].
        destruct (seqb (trim line) []) eqn:Hb; cbn [negb]; [now apply IH|].
        apply IH; [assumption | | assumption].
        intros m' Hm'. injection Hm' as <-.
        apply appendLine_parsed; [now apply Hcur|].
        split; [apply Hsub; now left|]. split; [exact Hb|].
        unfold isMarkerLine. now rewrite Hc, Hh.
Qed.

Lemma parseLines_without_markers :
  forall lines messages,
    (forall l, In l lines -> isMarkerLine l = false) ->
    Extractor.parseLines lines None messages = (None, messages).
Proof.
  induction lines as [|line rest IH]; intros messages H; [reflexivity|].
  cbn [Extractor.parseLines].
  pose proof (H line (or_introl eq_refl)) as Hl. unfold isMarkerLine in Hl.
  apply orb_false_iff in Hl as [-> ->].
  apply IH. intros l Hin. apply H. now right.
Qed.

(** X16.  Every message that [parseMarkdownToMessages] returns has the role
    [assistant] or [user] and a content that is not blank; the lines of the
    content are lines of the input, none of them blank and none a marker line.
    An input without a marker line gives no message: what precedes the first
    marker is dropped. *)
Theorem parsed_messages :
  forall markdown,
    (forall m,
        In m (Extractor.parseMarkdownToMessages markdown) ->
        (role m = str "assistant" \/ role m = str "user")
        /\ isBlankLine (content m) = false
        /\ forall line,
             In line (splitUnit 10 (content m)) ->
             In line (splitUnit 10 markdown)
             /\ isBlankLine line = false /\ isMarkerLine line = false)
    /\ (noMarkerLine markdown -> Extractor.parseMarkdownToMessages markdown = []).
Proof.
  intros markdown. split.
  - intros m Hm. unfold Extractor.parseMarkdownToMessages in Hm.
    destruct (Extractor.parseLines (splitUnit 10 markdown) None []) as [cur msgs] eqn:E.
    apply filter_In in Hm as [Hm Hblank]. apply negb_true_iff in Hblank.
    destruct (parseLines_parsed (splitUnit 10 markdown) (splitUnit 10 markdown) None [])
      as [Hcur Hmsgs]; [auto | discriminate | easy |].
    rewrite E in Hcur, Hmsgs. cbn [fst snd] in Hcur, Hmsgs.
    destruct (push_parsed _ msgs cur Hmsgs Hcur m Hm) as [Hrole Hbuilt].
    split; [exact Hrole|]. split; [exact Hblank|].
    destruct Hbuilt as [Hnil | (ls & Hne & Hc & Hgood)].
    + rewrite Hnil in Hblank. discriminate.
    + intros line Hline. rewrite Hc in Hline.
      change nl with [10%N] in Hline. rewrite splitUnit_join in Hline.
      * destruct (Hgood line Hline) as (H1 & H2 & H3). auto.
      * assumption.
      * intros l Hl. destruct (Hgood l Hl) as (H1 & _).
        now apply (splitUnit_no_separator 10 markdown).
  - intros Hno. unfold Extractor.parseMarkdownToMessages.
    now rewrite parseLines_without_markers.
Qed.

Lemma parsed_messages_witness :
  Extractor.parseMarkdownToMessages (str "# title" ++ nl ++ str "no speaker yet") = [].
Proof.
  apply (proj2 (parsed_messages (str "# title" ++ nl ++ str "no speaker yet"))).
  intros l Hl. vm_compute in Hl.
  destruct Hl as [<- | [<- | []]]; reflexivity.
Defined.

Lemma parseLines_app :
  forall l1 l2 currentMessage messages,
    Extractor.parseLines (l1 ++ l2) currentMessage messages
    = Extractor.parseLines l2
        (fst (Extractor.parseLines l1 currentMessage messages))
        (snd (Extractor.parseLines l1 currentMessage messages)).
Proof.
  induction l1 as [|line rest IH]; intros l2 cur msgs; [reflexivity|].
  cbn [app Extractor.parseLines].
  destruct (startsWith line Extractor.claudeMarker); [apply IH|].
  destruct (startsWith line Extractor.humanMarker); [apply IH|].
  destruct cur as [m|]; [|apply IH].
  destruct (negb (seqb (trim line) [])); apply IH.
Qed.

Lemma parseLines_body :
  forall lines m messages,
    (forall l, In l lines -> isMarkerLine l = false) ->
    Extractor.parseLines lines (Some m) messages
    = (Some (fold_left Extractor.appendLine
               (filter (fun l => negb (isBlankLine l)) lines) m),
       messages).
Proof.
  induction lines as [|line rest IH]; intros m messages H; [reflexivity|].
  cbn [Extractor.parseLines filter].
  pose proof (H line (or_introl eq_refl)) as Hl. unfold isMarkerLine in Hl.
  apply orb_false_iff in Hl as [-> ->].
  assert (Hrest : forall l, In l rest -> isMarkerLine l = false)
    by (intros l Hin; apply H; now right).
  unfold isBlankLine at 1.
  destruct (seqb (trim line) []); cbn [negb fold_left]; now apply IH.
Qed.

Lemma join_merge_head :
  forall sep a l rest,
    join sep ((a ++ sep ++ l) :: rest) = a ++ sep ++ join sep (l :: rest).
Proof.
  intros sep a l [|x rest]; [reflexivity|].
  rewrite !join_cons2. now rewrite <- !app_assoc.
Qed.

Lemma appendLines_content :
  forall ls m,
    (forall l, In l ls -> l <> []) ->
    role (fold_left Extractor.appendLine ls m) = role m
    /\ content (fold_left Extractor.appendLine ls m)
       = if seqb (content m) [] then join nl ls else join nl (content m :: ls).
Proof.
  induction ls as [|l rest IH]; intros m H.
  - split; [reflexivity|]. simpl.
    destruct (seqb (content m) []) eqn:E; [now apply seqb_eq in E | reflexivity].
  - cbn [fold_left].
    assert (Hl : l <> []) by (apply H; now left).
    destruct (IH (Extractor.appendLine m l)) as [Hr Hc];
      [intros x Hx; apply H; now right|].
    split; [exact Hr|]. rewrite Hc. cbn [Extractor.appendLine content].
    destruct (seqb (content m) []) eqn:E.
    + apply seqb_eq in E. rewrite E. cbn [app].
      destruct (seqb l []) eqn:El; [apply seqb_eq in El; contradiction | reflexivity].
    + destruct (seqb (content m ++ nl ++ l) []) eqn:E2.
      * apply seqb_eq in E2. apply app_eq_nil in E2 as [E2 _].
        rewrite E2 in E. discriminate.
      * apply join_merge_head.
Qed.

Lemma marker_is_one_line :
  forall isUser,
    splitUnit 10 (if isUser : bool then Extractor.humanMarker else Extractor.claudeMarker)
    = [if isUser then Extractor.humanMarker else Extractor.claudeMarker].
Proof. intros []; reflexivity. Qed.

Lemma parseLines_section :
  forall s rest currentMessage messages,
    noMarkerLine (snd s) ->
    Extractor.parseLines (splitUnit 10 (transcriptSection s ++ rest))
      currentMessage messages
    = Extractor.parseLines (splitUnit 10 rest)
        (Some (sectionMessage s)) (Extractor.push messages currentMessage).
Proof.
  intros [isUser body] rest cur msgs Hno. unfold transcriptSection.
  cbn [fst snd] in *.
  change nl with [10%N]. rewrite <- !app_assoc. cbn [app].
  rewrite splitUnit_app, marker_is_one_line. cbn [app].
  rewrite splitUnit_app.
  assert (Hstep :
    forall line r tail,
      (line = Extractor.humanMarker /\ r = str "user" /\ isUser = true)
      \/ (line = Extractor.claudeMarker /\ r = str "assistant" /\ isUser = false) ->
      Extractor.parseLines (line :: tail) cur msgs
      = Extractor.parseLines tail (Some {| role := r; content := [] |})
          (Extractor.push msgs cur)).
  { intros line r tail [(-> & -> & _) | (-> & -> & _)]; reflexivity. }
  rewrite (Hstep _ (if isUser then str "user" else str "assistant"))
    by (destruct isUser; [left | right]; auto).
  rewrite parseLines_app, parseLines_body by exact Hno. cbn [fst snd].
  f_equal. f_equal. unfold sectionMessage, nonBlankLines. cbn [fst snd].
  set (ls := filter _ _).
  destruct (appendLines_content ls
              {| role := if isUser then str "user" else str "assistant";
                 content := [] |}) as [Hr Hc].
  { intros l Hl. unfold ls in Hl. apply filter_In in Hl as [_ Hl].
    apply negb_true_iff in Hl. now apply isBlankLine_nonempty. }
  cbn [role content seqb] in Hr, Hc.
  destruct (fold_left Extractor.appendLine ls _) as [r c].
  cbn [role content] in Hr, Hc. now subst.
Qed.

Lemma parseLines_sections :
  forall sections currentMessage messages,
    (forall s, In s sections -> noMarkerLine (snd s)) ->
    Extractor.push
      (snd (Extractor.parseLines (splitUnit 10 (flat_map transcriptSection sections))
              currentMessage messages))
      (fst (Extractor.parseLines (splitUnit 10 (flat_map transcriptSection sections))
              currentMessage messages))
    = Extractor.push messages currentMessage ++ map sectionMessage sections.
Proof.
  induction sections as [|s rest IH]; intros cur msgs H.
  - cbn [flat_map map]. rewrite app_nil_r.
    destruct cur as [m|]; reflexivity.
  - cbn [flat_map map]. rewrite parseLines_section by (apply H; now left).
    rewrite IH by (intros x Hx; apply H; now right).
    cbn [Extractor.push]. now rewrite <- app_assoc.
Qed.

(** X17.  Parsing the transcript that the Claude extractor builds gives the
    conversation back: from a header without marker lines followed by
    sections (marker line, body, line break) whose bodies contain no marker
    line, [parseMarkdownToMessages] returns one message per section, in order,
    with the speaker's role and the non-blank lines of the body joined by
    line breaks; sections whose body is blank are left out. *)
Theorem transcript_round_trip :
  forall header sections,
    noMarkerLine header ->
    (forall s, In s sections -> noMarkerLine (snd s)) ->
    Extractor.parseMarkdownToMessages (transcript header sections)
    = filter (fun m => negb (isBlankLine (content m)))
        (map sectionMessage sections).
Proof.
  intros header sections Hh Hs.
  unfold Extractor.parseMarkdownToMessages, transcript.
  change nl with [10%N]. cbn [app]. rewrite splitUnit_app, parseLines_app.
  rewrite parseLines_without_markers by exact Hh. cbn [fst snd].
  pose proof (parseLines_sections sections None [] Hs) as H.
  destruct (Extractor.parseLines _ None []) as [cur msgs].
  cbn [fst snd] in H. cbn [Extractor.push app] in H.
  unfold isBlankLine.
  destruct cur as [m|]; cbn [Extractor.push] in H |- *; now rewrite H.
Qed.

Lemma transcript_round_trip_witness :
  Extractor.parseMarkdownToMessages
    (transcript (str "# Chat" ++ nl ++ str "`2024`" ++ nl)
       [(true, str "Hi" ++ nl); (false, str "Yo" ++ nl ++ nl ++ str "Bye" ++ nl)])
  = filter (fun m => negb (isBlankLine (content m)))
      (map sectionMessage
         [(true, str "Hi" ++ nl); (false, str "Yo" ++ nl ++ nl ++ str "Bye" ++ nl)]).
Proof.
  refine (transcript_round_trip (str "# Chat" ++ nl ++ str "`2024`" ++ nl)
            [(true, str "Hi" ++ nl); (false, str "Yo" ++ nl ++ nl ++ str "Bye" ++ nl)]
            _ _).
  - intros l Hl. vm_compute in Hl.
    destruct Hl as [<- | [<- | [<- | []]]]; reflexivity.
  - intros s [<- | [<- | []]] l Hl; vm_compute in Hl.
    + destruct Hl as [<- | [<- | []]]; reflexivity.
    + destruct Hl as [<- | [<- | [<- | [<- | []]]]]; reflexivity.
Defined.

(* ===================================================================== *)
(** * Further properties: the Claude extractor's [processChildNodes] *)
(* ===================================================================== *)

Lemma processChildNodes_app :
  forall a b,
    Claude.processChildNodes (a ++ b)
    = Claude.processChildNodes a ++ Claude.processChildNodes b.
Proof.
  induction a as [|n a IH]; intros b; [reflexivity|].
  cbn [app Claude.processChildNodes]. now rewrite IH, app_assoc.
Qed.

Lemma elementMarkdown_unhandled :
  forall n,
    ~ In (Claude.tagName n) Claude.handledTags -> Claude.elementMarkdown n = [].
Proof.
  intros n H.
  assert (Hf : forall t, In t Claude.handledTags -> seqb (Claude.tagName n) t = false).
  { intros t Ht. apply seqb_neq. intros E. apply H. now rewrite E. }
  unfold Claude.elementMarkdown. cbn [flat_map Claude.headingTags fst snd].
  rewrite (Hf (str "P")), (Hf (str "H1")), (Hf (str "H2")), (Hf (str "H3")),
    (Hf (str "H4")), (Hf (str "H5")), (Hf (str "H6")), (Hf (str "OL")),
    (Hf (str "UL")), (Hf (str "PRE")), (Hf (str "TABLE"))
    by (vm_compute; tauto).
  reflexivity.
Qed.

Lemma processChildNodes_ends :
  forall nodes,
    Claude.processChildNodes nodes = []
    \/ exists front, Claude.processChildNodes nodes = front ++ nl.
Proof.
  induction nodes as [|n rest IH]; [now left|].
  cbn [Claude.processChildNodes].
  destruct (isElement n); [|exact IH].
  right. destruct IH as [-> | [front ->]].
  - exists (Claude.elementMarkdown n). now rewrite app_nil_r.
  - exists ((Claude.elementMarkdown n ++ nl) ++ front). now rewrite <- !app_assoc.
Qed.

Lemma orderedItems_at :
  forall pre index li post,
    Claude.isTagged "LI" li = true ->
    Claude.orderedItems index (pre ++ li :: post)
    = Claude.orderedItems index pre
        ++ ofNat (index + List.length pre + 1) ++ str ". " ++ textContent li ++ nl
        ++ Claude.orderedItems (S (index + List.length pre)) post.
Proof.
  induction pre as [|x pre IH]; intros index li post H.
  - cbn [app Claude.orderedItems List.length]. rewrite H, Nat.add_0_r.
    now rewrite <- !app_assoc.
  - cbn [app Claude.orderedItems List.length]. rewrite (IH (S index) li post H).
    rewrite <- !app_assoc.
    now replace (S index + List.length pre) with (index + S (List.length pre)) by lia.
Qed.

(** X18.  [processChildNodes] works child by child.  A child that is not an
    element adds nothing, so text directly among the child nodes is dropped;
    an element whose tag is none of P, H1..H6, OL, UL, PRE, TABLE adds a line
    break and nothing of its text; a paragraph adds its text and two line
    breaks.  The result is empty exactly when no child is an element, and
    otherwise ends with a line break.  An item of an ordered list is numbered
    by its position among all child nodes of the list. *)
Theorem processChildNodes_children :
  (forall a b,
      Claude.processChildNodes (a ++ b)
      = Claude.processChildNodes a ++ Claude.processChildNodes b)
  /\ (forall n rest,
         isElement n = false ->
         Claude.processChildNodes (n :: rest) = Claude.processChildNodes rest)
  /\ (forall n rest,
         isElement n = true -> ~ In (Claude.tagName n) Claude.handledTags ->
         Claude.processChildNodes (n :: rest) = nl ++ Claude.processChildNodes rest)
  /\ (forall n rest,
         Claude.isTagged "P" n = true ->
         Claude.processChildNodes (n :: rest)
         = textContent n ++ nl ++ nl ++ Claude.processChildNodes rest)
  /\ (forall nodes,
         (Claude.processChildNodes nodes = []
          <-> forall n, In n nodes -> isElement n = false)
         /\ (Claude.processChildNodes nodes <> [] ->
             endsWith (Claude.processChildNodes nodes) nl = true))
  /\ (forall pre li post,
         Claude.isTagged "LI" li = true ->
         Claude.orderedItems 0 (pre ++ li :: post)
         = Claude.orderedItems 0 pre
             ++ ofNat (List.length pre + 1) ++ str ". " ++ textContent li ++ nl
             ++ Claude.orderedItems (S (List.length pre)) post).
Proof.
  split; [exact processChildNodes_app|].
  split; [intros n rest H; cbn [Claude.processChildNodes]; now rewrite H|].
  split.
  { intros n rest He Ht. cbn [Claude.processChildNodes].
    now rewrite He, elementMarkdown_unhandled. }
  split.
  { intros n rest H. unfold Claude.isTagged in H.
    apply andb_true_iff in H as [He Ht]. apply seqb_eq in Ht.
    cbn [Claude.processChildNodes]. rewrite He.
    unfold Claude.elementMarkdown. rewrite Ht.
    cbn [flat_map Claude.headingTags fst snd].
    change (seqb (str "P") (str "P")) with true.
    change (seqb (str "P") (str "H1")) with false.
    change (seqb (str "P") (str "H2")) with false.
    change (seqb (str "P") (str "H3")) with false.
    change (seqb (str "P") (str "H4")) with false.
    change (seqb (str "P") (str "H5")) with false.
    change (seqb (str "P") (str "H6")) with false.
    change (seqb (str "P") (str "OL")) with false.
    change (seqb (str "P") (str "UL")) with false.
    change (seqb (str "P") (str "PRE")) with false.
    change (seqb (str "P") (str "TABLE")) with false.
    cbn [app]. rewrite app_nil_r. now rewrite <- !app_assoc. }
  split.
  { intros nodes. split; [split|].
    - induction nodes as [|x rest IH]; intros H n Hn; [contradiction|].
      cbn [Claude.processChildNodes] in H.
      destruct (isElement x) eqn:E.
      + apply app_eq_nil in H as [H _]. apply app_eq_nil in H as [_ H].
        discriminate.
      + destruct Hn as [<- | Hn]; [exact E | now apply IH].
    - induction nodes as [|x rest IH]; intros H; [reflexivity|].
      cbn [Claude.processChildNodes]. rewrite (H x (or_introl eq_refl)).
      apply IH. intros n Hn. apply H. now right.
    - intros H. apply endsWith_suffix.
      destruct (processChildNodes_ends nodes) as [E | E]; [contradiction | exact E]. }
  intros pre li post H. exact (orderedItems_at pre 0 li post H).
Qed.

Lemma processChildNodes_children_witness :
  Claude.processChildNodes [Text (str "loose"); Element (str "p") [] [Text (str "Hi")]]
  = Claude.processChildNodes [Element (str "p") [] [Text (str "Hi")]]
  /\ Claude.processChildNodes
       [Element (str "div") [] [Text (str "boxed")]; Element (str "p") [] [Text (str "Hi")]]
     = nl ++ Claude.processChildNodes [Element (str "p") [] [Text (str "Hi")]]
  /\ Claude.processChildNodes [Element (str "p") [] [Text (str "Hi")]]
     = textContent (Element (str "p") [] [Text (str "Hi")]) ++ nl ++ nl
         ++ Claude.processChildNodes []
  /\ endsWith (Claude.processChildNodes [Element (str "p") [] [Text (str "Hi")]]) nl = true
  /\ Claude.orderedItems 0
       ([Text nl] ++ Element (str "li") [] [Text (str "a")] :: [])
     = Claude.orderedItems 0 [Text nl]
         ++ ofNat (List.length [Text nl] + 1) ++ str ". "
         ++ textContent (Element (str "li") [] [Text (str "a")]) ++ nl
         ++ Claude.orderedItems (S (List.length [Text nl])) [].
Proof.
  pose proof processChildNodes_children as (_ & H2 & H3 & H4 & H5 & H6).
  split; [refine (H2 _ _ _); reflexivity|].
  split.
  { refine (H3 _ _ _ _); [reflexivity|]. vm_compute. intros H.
    repeat (destruct H as [H | H]; [discriminate|]). exact H. }
  split; [refine (H4 _ _ _); reflexivity|].
  split; [refine (proj2 (H5 _) _); vm_compute; discriminate|].
  refine (H6 _ _ _ _); reflexivity.
Defined.
